(** * Access-and-query core of the record manager

    Shallow embedding of [src/common/search_engine.py] (the query
    mini-language and its compilation to parameterised SQL),
    of the lock coordinator, the REGEXP predicate, the change log, the
    search facade, the record methods and the edit locks of
    [src/common/db.py], of the record objects of [src/common/db_obj.py],
    and of the change notifier and the refresh of the window of
    [src/common/main_gui.py].

    Conventions.
    - A Python [str] is a [string] whose characters are the code points
      below 256; the character classes [\w] and [\s], [str.strip] and
      [str.lower] are those of Python on these code points.  Characters
      from 256 on are outside the model.
    - A value that may be [None] is an [option].
    - A function that may raise returns a [result]. *)

From Stdlib Require Import ZArith String Ascii List Lia DecimalString.
From stdpp Require Import base gmap sets list strings relations.

Local Open Scope string_scope.
Local Open Scope list_scope.
Local Open Scope nat_scope.

(** ** Python results: a value or a raised exception *)

Inductive exn : Type :=
| KeyError (key : string)
| ValueError (msg : string)
| IndexError
| AttributeError
| StopIteration
| FileNotFoundError
| OperationalError (msg : string)
| IntegrityError (msg : string)
| RecursionError.

Inductive result (A : Type) : Type :=
| Ok (a : A)
| Raise (e : exn).

Arguments Ok {A} a.
Arguments Raise {A} e.

(** Sequencing stops at the first exception; [x ← r; k] is stdpp's
    notation for it. *)
#[global] Instance result_bind : MBind result :=
  fun A B (f : A -> result B) (r : result A) =>
    match r with
    | Ok a => f a
    | Raise e => Raise e
    end.

#[global] Instance result_ret : MRet result := fun A (a : A) => Ok a.

(** ** Python [str] methods used by the sources *)

Module Py.

Definition chr (n : nat) : ascii := ascii_of_nat n.

(** [str.isspace]: TAB, LF, VT, FF, CR, the four separators 0x1c-0x1f,
    the space, NEL (0x85) and the no-break space (0xa0). *)
Definition isspace (c : ascii) : bool :=
  let n := nat_of_ascii c in
  ((9 <=? n) && (n <=? 13)) || ((28 <=? n) && (n <=? 32))
  || (n =? 133) || (n =? 160).

(** The ranges [A-Z], [a-z] and [0-9]. *)
Definition isupper (c : ascii) : bool :=
  let n := nat_of_ascii c in (65 <=? n) && (n <=? 90).

Definition islower (c : ascii) : bool :=
  let n := nat_of_ascii c in (97 <=? n) && (n <=? 122).

Definition isdigit (c : ascii) : bool :=
  let n := nat_of_ascii c in (48 <=? n) && (n <=? 57).

(** The capital letters above 127: 0xc0-0xd6 and 0xd8-0xde. *)
Definition isupper_latin1 (c : ascii) : bool :=
  let n := nat_of_ascii c in
  ((192 <=? n) && (n <=? 214)) || ((216 <=? n) && (n <=? 222)).

(** [str.isalnum] above 127: the letters, the superscript digits and the
    fractions. *)
Definition isalnum_latin1 (c : ascii) : bool :=
  let n := nat_of_ascii c in
  (n =? 170) || ((178 <=? n) && (n <=? 179)) || (n =? 181)
  || ((185 <=? n) && (n <=? 186)) || ((188 <=? n) && (n <=? 190))
  || ((192 <=? n) && (n <=? 214)) || ((216 <=? n) && (n <=? 246))
  || ((248 <=? n) && (n <=? 255)).

(** [str.isalnum] *)
Definition isalnum (c : ascii) : bool :=
  isupper c || islower c || isdigit c || isalnum_latin1 c.

Definition lower_char (c : ascii) : ascii :=
  if isupper c || isupper_latin1 c then ascii_of_nat (nat_of_ascii c + 32) else c.

Fixpoint lower (s : string) : string :=
  match s with
  | EmptyString => EmptyString
  | String c s' => String (lower_char c) (lower s')
  end.

Definition startswith (s p : string) : bool := String.prefix p s.

Definition endswith (s p : string) : bool :=
  let n := String.length s in
  let m := String.length p in
  (m <=? n) && String.eqb (substring (n - m) m s) p.

Definition removeprefix (s p : string) : string :=
  if startswith s p
  then substring (String.length p) (String.length s - String.length p) s
  else s.

Definition removesuffix (s p : string) : string :=
  if endswith s p
  then substring 0 (String.length s - String.length p) s
  else s.

Fixpoint lstrip (s : string) : string :=
  match s with
  | EmptyString => EmptyString
  | String c s' => if isspace c then lstrip s' else s
  end.

(** [rstrip] keeps a character when it is not a space or when something
    is kept after it. *)
Fixpoint rstrip (s : string) : string :=
  match s with
  | EmptyString => EmptyString
  | String c s' =>
      match rstrip s' with
      | EmptyString => if isspace c then EmptyString else String c EmptyString
      | t => String c t
      end
  end.

Definition strip (s : string) : string := rstrip (lstrip s).

(** [s.split(sep)] for a separator of one character. *)
Fixpoint split (sep : ascii) (s : string) : list string :=
  match s with
  | EmptyString => [EmptyString]
  | String c s' =>
      if Ascii.eqb c sep then EmptyString :: split sep s'
      else match split sep s' with
           | [] => [String c EmptyString]
           | w :: ws => String c w :: ws
           end
  end.

Definition join (sep : string) (l : list string) : string := String.concat sep l.

(** [c in s] for one character. *)
Fixpoint contains_char (c : ascii) (s : string) : bool :=
  match s with
  | EmptyString => false
  | String d s' => Ascii.eqb c d || contains_char c s'
  end.

(** [s[n:]] *)
Fixpoint drop (n : nat) (s : string) : string :=
  match n, s with
  | 0, _ => s
  | S n', String _ s' => drop n' s'
  | S _, EmptyString => EmptyString
  end.

(** [s[i:j]] *)
Definition slice (i j : nat) (s : string) : string := substring i (j - i) s.

(** [str(n)] for an [int]. *)
Definition str_of_int (z : Z) : string := NilZero.string_of_int (Z.to_int z).

(** How an f-string shows a value that may be [None]. *)
Definition fmt (o : option string) : string :=
  match o with
  | Some s => s
  | None => "None"
  end.

(** [s.find(sub)]: the index of the first occurrence. *)
Fixpoint find_from (fuel pos : nat) (sub s : string) : option nat :=
  if String.prefix sub s then Some pos
  else match fuel, s with
       | S f, String _ s' => find_from f (S pos) sub s'
       | _, _ => None
       end.

Definition find (sub s : string) : option nat :=
  find_from (String.length s) 0 sub s.

(** [s.replace(old, new, 1)] *)
Definition replace_first (old new s : string) : string :=
  match find old s with
  | Some i => slice 0 i s +:+ new +:+ drop (i + String.length old) s
  | None => s
  end.

End Py.

(** ** Python dictionaries, in insertion order

    A [dict] is the list of its items in insertion order, without
    duplicate keys: assigning to a key that is present replaces its value
    in place, as Python does. *)

Module Dict.

Section dict.
Context {K V : Type} `{EqDecision K}.

Definition dict : Type := list (K * V).

(** [d.get(k)] *)
Fixpoint get (k : K) (d : dict) : option V :=
  match d with
  | [] => None
  | (k', v) :: d' => if decide (k = k') then Some v else get k d'
  end.

(** [d[k] = v] *)
Fixpoint set (k : K) (v : V) (d : dict) : dict :=
  match d with
  | [] => [(k, v)]
  | (k', v') :: d' =>
      if decide (k = k') then (k', v) :: d' else (k', v') :: set k v d'
  end.

(** [dict(items)] and the dict comprehension [{k: v for k, v in items}] *)
Definition of_items (items : list (K * V)) : dict :=
  fold_left (fun d kv => set (fst kv) (snd kv) d) items [].

Definition keys (d : dict) : list K := map fst d.
Definition values (d : dict) : list V := map snd d.
End dict.

Arguments dict : clear implicits.

End Dict.

(** ** A backtracking matcher for the constructs of [re] that the sources use

    The patterns of the sources are fixed strings; each is written below
    as a term of [regex].  The matcher follows the semantics of Python's
    [re]: alternatives are tried left to right, quantifiers are greedy
    unless lazy, a group keeps the span of its last match, [$] holds at the
    end of the string and before a final newline.  An iteration of a
    starred body that consumes nothing is not taken; in the patterns below
    the only starred body that can match the empty string is [\w*\;?],
    whose empty match is its last alternative, so that this agrees with
    [re]. *)

Module Re.

Inductive regex : Type :=
| Eps
| Chr (p : ascii -> bool)
| Seq (r1 r2 : regex)
| Alt (r1 r2 : regex)
| Star (greedy : bool) (r : regex)
| Grp (i : nat) (r : regex)
| Eos
| Look (r : regex).

Record mstate : Type := MState {
  pos : nat;
  rest : string;
  caps : list (nat * (nat * nat))
}.

Definition at_dollar (s : string) : bool :=
  match s with
  | EmptyString => true
  | String c EmptyString => Ascii.eqb c (Py.chr 10)
  | _ => false
  end.

Fixpoint run (r : regex) (st : mstate) (k : mstate -> option mstate)
  {struct r} : option mstate :=
  match r with
  | Eps => k st
  | Chr p =>
      match rest st with
      | String c s' =>
          if p c then k (MState (S (pos st)) s' (caps st)) else None
      | EmptyString => None
      end
  | Seq r1 r2 => run r1 st (fun st' => run r2 st' k)
  | Alt r1 r2 =>
      match run r1 st k with
      | Some st' => Some st'
      | None => run r2 st k
      end
  | Star greedy body =>
      (fix loop (n : nat) (st : mstate) {struct n} : option mstate :=
         match n with
         | 0 => k st
         | S n' =>
             let more (_ : unit) :=
               run body st
                 (fun st' => if pos st' =? pos st then None else loop n' st') in
             if greedy then
               match more tt with
               | Some st' => Some st'
               | None => k st
               end
             else
               match k st with
               | Some st' => Some st'
               | None => more tt
               end
         end) (S (String.length (rest st))) st
  | Grp i body =>
      run body st
        (fun st' => k (MState (pos st') (rest st')
                         ((i, (pos st, pos st')) :: caps st')))
  | Eos => if at_dollar (rest st) then k st else None
  | Look body =>
      match run body st Some with
      | Some st' => k (MState (pos st) (rest st) (caps st'))
      | None => None
      end
  end.

(** A match object: its span and the spans of its groups, over the
    string it was found in. *)
Record rmatch : Type := RMatch {
  m_string : string;
  m_start : nat;
  m_end : nat;
  m_caps : list (nat * (nat * nat))
}.

Fixpoint cap_lookup (i : nat) (l : list (nat * (nat * nat))) : option (nat * nat) :=
  match l with
  | [] => None
  | (j, span) :: l' => if i =? j then Some span else cap_lookup i l'
  end.

(** [m.group()] *)
Definition group0 (m : rmatch) : string :=
  Py.slice (m_start m) (m_end m) (m_string m).

(** [m.group(i)] for [i >= 1]; [None] when the group took no part. *)
Definition group (i : nat) (m : rmatch) : option string :=
  match cap_lookup i (m_caps m) with
  | Some (s, e) => Some (Py.slice s e (m_string m))
  | None => None
  end.

(** [m.groups()] of a pattern with [n] groups. *)
Definition groups (n : nat) (m : rmatch) : list (option string) :=
  map (fun i => group i m) (seq 1 n).

(** One attempt at position [p], whose remaining input is [s].  With
    [must_advance] a match that ends where the scan began is refused. *)
Definition match_here (r : regex) (input : string) (scan_start : nat)
    (must_advance : bool) (p : nat) (s : string) : option rmatch :=
  match run r (MState p s [])
          (fun st => if must_advance && (pos st =? scan_start) then None
                     else Some st) with
  | Some st => Some (RMatch input p (pos st) (caps st))
  | None => None
  end.

Fixpoint scan (r : regex) (input : string) (scan_start : nat)
    (must_advance : bool) (p : nat) (s : string) {struct s} : option rmatch :=
  match match_here r input scan_start must_advance p s with
  | Some m => Some m
  | None =>
      match s with
      | String _ s' => scan r input scan_start must_advance (S p) s'
      | EmptyString => None
      end
  end.

(** [pattern.match(input)] *)
Definition match_ (r : regex) (input : string) : option rmatch :=
  match_here r input 0 false 0 input.

(** [pattern.search(input)] *)
Definition search (r : regex) (input : string) : option rmatch :=
  scan r input 0 false 0 input.

Fixpoint finditer_from (fuel : nat) (r : regex) (input : string)
    (start : nat) (must_advance : bool) : list rmatch :=
  match fuel with
  | 0 => []
  | S fuel' =>
      if String.length input <? start then []
      else
        match scan r input start must_advance start (Py.drop start input) with
        | None => []
        | Some m =>
            m :: finditer_from fuel' r input (m_end m) (m_end m =? m_start m)
        end
  end.

(** [pattern.finditer(input)], as a list.  Two matches in a row end at
    different places unless the first is not empty and the second is, so
    there are at most [2 * len + 2] of them. *)
Definition finditer (r : regex) (input : string) : list rmatch :=
  finditer_from (2 * String.length input + 2) r input 0 false.

(** [pattern.sub(repl, input)]: every match is replaced by what [repl]
    makes of it, the text between the matches is kept. *)
Fixpoint sub_from (last : nat) (repl : rmatch -> string) (input : string)
    (matches : list rmatch) : string :=
  match matches with
  | [] => Py.drop last input
  | m :: ms =>
      Py.slice last (m_start m) input +:+ repl m +:+ sub_from (m_end m) repl input ms
  end.

Definition sub (r : regex) (repl : rmatch -> string) (input : string) : string :=
  sub_from 0 repl input (finditer r input).

(** Abbreviations for writing patterns. *)
Definition lit (c : ascii) : regex := Chr (Ascii.eqb c).
Definition lit_ci (c : ascii) : regex :=
  Chr (fun d => Ascii.eqb (Py.lower_char d) (Py.lower_char c)).
Definition opt (r : regex) : regex := Alt r Eps.
Definition one_or_more (r : regex) : regex := Seq r (Star true r).
Definition lazy_one_or_more (r : regex) : regex := Seq r (Star false r).
Definition star (r : regex) : regex := Star true r.

Fixpoint seqs (l : list regex) : regex :=
  match l with
  | [] => Eps
  | [r] => r
  | r :: l' => Seq r (seqs l')
  end.

Fixpoint lits (s : string) : regex :=
  match s with
  | EmptyString => Eps
  | String c EmptyString => lit c
  | String c s' => Seq (lit c) (lits s')
  end.

Fixpoint lits_ci (s : string) : regex :=
  match s with
  | EmptyString => Eps
  | String c EmptyString => lit_ci c
  | String c s' => Seq (lit_ci c) (lits_ci s')
  end.

(** [\w], [\s], [\S], [.] under DOTALL, and character sets. *)
Definition is_word (c : ascii) : bool := Py.isalnum c || Ascii.eqb c "_".
Definition is_alpha_us (c : ascii) : bool :=
  Py.isupper c || Py.islower c || Ascii.eqb c "_".
Definition word : regex := Chr is_word.
Definition space : regex := Chr Py.isspace.
Definition nonspace : regex := Chr (fun c => negb (Py.isspace c)).
Definition any : regex := Chr (fun _ => true).
Definition one_of (s : string) : regex := Chr (fun c => Py.contains_char c s).

End Re.

(** ** The search engine: [src/common/search_engine.py] *)

Module SearchEngine.

Import Re.

(** ['[^']*'] *)
Definition quoted : regex :=
  seqs [lit "'"; star (Chr (fun c => negb (Ascii.eqb c "'"))); lit "'"].

(** [[\w\.]] *)
Definition word_or_dot : regex := Chr (fun c => is_word c || Ascii.eqb c ".").

(** [_table_pattern].  The source pattern, cut into the pieces that the
    term below follows (the pieces are to be read without the blanks
    between them):
<<
    (?:                                     optional prefix
       ([a-zA-Z_]+)                         group 1
       (?:\[ ( (?:\w*\;?)* ) ])?             group 2, in brackets
       (?:\{ (\w+) })?                      group 3, in braces
       ([:=]) \s?                           group 4
    )?
    ( '[^']*' | (?:[\w\.]+\s?)+ )           group 5
    (                                       group 6
       (?: \s?[|&]\s? {\w*} [:=] \s? (?: '[^']*' | (?:\w+\s?)+ ) )*
       (?: \s?[|&]\s? | $ )
    )
>> *)
Definition _table_pattern : regex :=
  seqs
    [ opt (seqs
        [ Grp 1 (one_or_more (Chr is_alpha_us));
          opt (seqs [lit "["; Grp 2 (star (Seq (star word) (opt (lit ";")))); lit "]"]);
          opt (seqs [lit "{"; Grp 3 (one_or_more word); lit "}"]);
          Grp 4 (one_of ":=");
          opt space ]);
      Grp 5 (Alt quoted (one_or_more (Seq (one_or_more word_or_dot) (opt space))));
      Grp 6 (Seq
        (star (seqs
           [ opt space; one_of "|&"; opt space;
             lit "{"; star word; lit "}"; one_of ":="; opt space;
             Alt quoted (one_or_more (Seq (one_or_more word) (opt space))) ]))
        (Alt (seqs [opt space; one_of "|&"; opt space]) Eos)) ].

(** [_search_term_pattern], cut in the same way:
<<
      \s? ([&|]) \s? \{ ( \w* ) } ([:=]) \s?   groups 1, 2, 3
      ( (?: [\w\.]+\s? | '[^']*' )* )         group 4
    | \s? ([|&]) \s?                         group 5
>> *)
Definition _search_term_pattern : regex :=
  Alt
    (seqs
       [ opt space; Grp 1 (one_of "&|"); opt space;
         lit "{"; Grp 2 (star word); lit "}"; Grp 3 (one_of ":="); opt space;
         Grp 4 (star (Alt (Seq (one_or_more word_or_dot) (opt space)) quoted)) ])
    (seqs [opt space; Grp 5 (one_of "|&"); opt space]).

(** The compiled patterns of [__init__]. *)
Definition _table_rejects : regex := _table_pattern.
Definition _search_term_rejects : regex := _search_term_pattern.

(** The first five groups of a match of [_table_pattern]
    ([groups[:-1]], indices 0 to 4 in the source). *)
Record main_clause : Type := MainClause {
  m_group : option string;       (* main[0] *)
  m_returns : option string;     (* main[1] *)
  m_column : option string;      (* main[2] *)
  m_operator : option string;    (* main[3] *)
  m_value : option string        (* main[4] *)
}.

(** The five groups of a match of [_search_term_pattern]. *)
Record search_term : Type := SearchTerm {
  t_combinator : option string;  (* term[0] *)
  t_column : option string;      (* term[1] *)
  t_operator : option string;    (* term[2] *)
  t_value : option string;       (* term[3] *)
  t_flag : option string         (* term[4], term[-1] *)
}.

(** Python truth of a string that may be [None]. *)
Definition truthy (o : option string) : bool :=
  match o with
  | Some s => negb (String.eqb s "")
  | None => false
  end.

(** The loop of [_check_consumed_string] and [_check_consumed_substring]
    over the matches: [None] stands for the early [return ..., False],
    otherwise the last value of [last_end]. *)
Fixpoint consumed_upto (last_end : nat) (matches : list rmatch) : option nat :=
  match matches with
  | [] => Some last_end
  | m :: ms =>
      if negb (m_start m =? last_end) then None
      else consumed_upto (m_end m) ms
  end.

Definition _check_consumed_string (input_string : string) (rejects : regex)
  : list string * bool :=
  let matches := finditer rejects input_string in
  let all_matches := map group0 matches in
  match matches with
  | [] => ([], false)
  | _ =>
      match consumed_upto 0 matches with
      | None => (all_matches, false)
      | Some last_end => (all_matches, last_end =? String.length input_string)
      end
  end.

Definition term_of_groups (m : rmatch) : search_term :=
  SearchTerm (group 1 m) (group 2 m) (group 3 m) (group 4 m) (group 5 m).

Definition _check_consumed_substring (input_string : string) (rejects : regex)
  : list search_term * bool :=
  let matches := finditer rejects input_string in
  let all_matches := map term_of_groups matches in
  match matches with
  | [] => if String.eqb input_string "" then ([], true) else ([], false)
  | _ =>
      match consumed_upto 0 matches with
      | None => (all_matches, false)
      | Some last_end => (all_matches, last_end =? String.length input_string)
      end
  end.

Definition parsed_clause : Type := main_clause * list search_term.

(** The loop of [_parse_user_input] over [main_matches]; [None] is the
    [return None] inside the loop. *)
Fixpoint parse_matches (main_matches : list string) (parsed_results : list parsed_clause)
  : option (list parsed_clause) :=
  match main_matches with
  | [] => Some parsed_results
  | main_match :: more =>
      match match_ _table_rejects main_match with
      | None => parse_matches more parsed_results
      | Some m =>
          (* group 6 always takes part in a match *)
          let sub_string := Py.fmt (group 6 m) in
          let main := MainClause (group 1 m) (group 2 m) (group 3 m) (group 4 m) (group 5 m) in
          if negb ((String.length sub_string <=? 3) && Py.contains_char "|" sub_string)
          then
            let '(search_terms, sub_string_consumed) :=
              _check_consumed_substring sub_string _search_term_rejects in
            if negb sub_string_consumed then None
            else parse_matches more (parsed_results ++ [(main, search_terms)])
          else parse_matches more (parsed_results ++ [(main, [])])
      end
  end.

Definition _parse_user_input (user_input : string) : option (list parsed_clause) :=
  let '(main_matches, entire_string_consumed) :=
    _check_consumed_string user_input _table_rejects in
  if negb entire_string_consumed then None
  else parse_matches main_matches [].

(** *** The schema tables of the class *)

Definition _map : Dict.dict string (list string) :=
  [ ("user", ["Persons"; "CasePeople"]);
    ("case", ["Cases"]);
    ("docu", ["Documents"]) ].

Definition _full_map : Dict.dict (list string) (list (list string)) :=
  [ (["Persons"; "CasePeople"],
     [ ["last_name"; "first_name"; "address"; "birth_date"; "contact_info";
        "gender"; "description"; "notes"; "can_be_lawyer"];
       ["self_represented"; "has_external_lawyer"; "side"] ]);
    (["Cases"], [ ["name"; "description"; "notes"] ]);
    (["Documents"], [ ["name"; "description"; "notes"; "path"] ]) ].

Definition _returns_map : Dict.dict (list string) (list string) :=
  [ (["Persons"; "CasePeople"], ["first_name"; "last_name"; "can_be_lawyer"]);
    (["Cases"], ["name"]);
    (["Documents"], ["name"]) ].

Definition _join_table_map : Dict.dict string (Dict.dict string string) :=
  [ ("Cases",
     [ ("Persons", "INNER JOIN CasePeople ON Cases.nb = CasePeople.case_nb INNER JOIN Persons ON CasePeople.person_nb = Persons.nb");
       ("Documents", "INNER JOIN CaseDocuments ON Cases.nb = CaseDocuments.case_nb INNER JOIN Documents ON CaseDocuments.document_nb = Documents.nb") ]);
    ("Persons",
     [ ("Cases", "INNER JOIN Cases ON CasePeople.case_nb = Cases.nb");
       ("Documents", "INNER JOIN CaseDocuments ON CasePeople.case_nb = CaseDocuments.case_nb JOIN Documents ON CaseDocuments.document_nb = Documents.nb") ]);
    ("Documents",
     [ ("Cases", "INNER JOIN CaseDocuments ON Documents.nb = CaseDocuments.document_nb INNER JOIN Cases ON CaseDocuments.case_nb = Cases.nb");
       ("Persons", "INNER JOIN CaseDocuments ON Documents.nb = CaseDocuments.document_nb INNER JOIN CasePeople ON CaseDocuments.case_nb = CasePeople.case_nb JOIN Persons ON CasePeople.person_nb = Persons.nb") ]) ].

(** [d[k]]: a [KeyError] when the key is missing. *)
Definition subscript {K V : Type} `{EqDecision K} (show : K -> string)
    (d : Dict.dict K V) (k : K) : result V :=
  match Dict.get k d with
  | Some v => Ok v
  | None => Raise (KeyError (show k))
  end.

Definition show_tuple (t : list string) : string :=
  "(" +:+ Py.join ", " t +:+ ")".

(** [t[0]] *)
Definition first {A : Type} (t : list A) : result A :=
  match t with
  | x :: _ => Ok x
  | [] => Raise IndexError
  end.

(** [o == s] for a value that may be [None]. *)
Definition is_str (o : option string) (s : string) : bool :=
  match o with
  | Some s' => String.eqb s' s
  | None => false
  end.

(** [column in columns] *)
Definition in_columns (column : option string) (columns : list string) : bool :=
  match column with
  | Some c => existsb (String.eqb c) columns
  | None => false
  end.

(** [o.strip()] *)
Definition strip_value (o : option string) : result string :=
  match o with
  | Some s => Ok (Py.strip s)
  | None => Raise AttributeError
  end.

(** A positional parameter of a compiled query. *)
Definition param : Type := option string.

(** The loop
[[
    table = ""
    for curr_table, columns in zip(table_names, table_columns):
        if column in columns:
            table = curr_table
]]
    the last table that declares the column wins. *)
Definition table_of_column (column : option string)
    (tables_and_columns : list (string * list string)) : string :=
  fold_left
    (fun table tc => if in_columns column (snd tc) then fst tc else table)
    tables_and_columns "".

(** [f" LEFT JOIN {k} ON {main}.nb = {k}.{main.lower().removesuffix('s')}_nb"] *)
Definition left_join (main_table k : string) : string :=
  " LEFT JOIN " +:+ k +:+ " ON " +:+ main_table +:+ ".nb = " +:+ k +:+ "."
    +:+ Py.removesuffix (Py.lower main_table) "s" +:+ "_nb".

(** *** [_generate_query]: a clause with an explicit column *)

(** The loop over [search_terms]; it stops at the first bare combinator. *)
Fixpoint query_terms (tables_and_columns : list (string * list string))
    (search_terms : list search_term) (conditions : list string)
    (params : list param) : result (list string * list param) :=
  match search_terms with
  | [] => Ok (conditions, params)
  | term :: more =>
      if truthy (t_flag term) then Ok (conditions, params)
      else
        let combinator := t_combinator term in
        let column := t_column term in
        let search_bool := t_operator term in
        search_value ← strip_value (t_value term);
        let table := table_of_column column tables_and_columns in
        let condition :=
          if is_str search_bool ":"
          then table +:+ "." +:+ Py.fmt column +:+ " REGEXP ?"
          else table +:+ "." +:+ Py.fmt column +:+ " = ?" in
        let entry :=
          if is_str combinator "&" then "AND " +:+ condition
          else if is_str combinator "|" then "OR " +:+ condition
          else condition in
        query_terms tables_and_columns more (conditions ++ [entry])
          (params ++ [Some search_value])
  end.

Definition _generate_query (input_tuple : main_clause)
    (search_terms : list search_term) : result (string * list param) :=
  table_names ← match m_group input_tuple with
                 | Some g => subscript id _map g
                 | None => Raise (KeyError "None")
                 end;
  table_columns ← subscript show_tuple _full_map table_names;
  let initial_column := m_column input_tuple in
  let initial_bool := m_operator input_tuple in
  initial_value ← strip_value (m_value input_tuple);
  t0 ← first table_names;
  let from_clause :=
    " FROM " +:+ t0 +:+ String.concat "" (map (left_join t0) (tail table_names)) in
  let query := "SELECT " +:+ t0 +:+ ".nb" +:+ from_clause +:+ " WHERE " in
  let table := table_of_column initial_column (zip table_names table_columns) in
  let condition :=
    if is_str initial_bool ":"
    then table +:+ "." +:+ Py.fmt initial_column +:+ " REGEXP ?"
    else table +:+ "." +:+ Py.fmt initial_column +:+ " = ?" in
  cp ← query_terms (zip table_names table_columns) search_terms
         [condition] [Some initial_value];
  Ok (query +:+ Py.join " " (fst cp), snd cp).

(** *** [_generate_full_query]: a vague clause, ranked over every column *)

(** The value of the dictionary [additional_search_terms] at a column:
    [(logic, operator, value)]. *)
Definition extra_term : Type := string * bool * option string.

(** [length = sum(len(cols) for cols in tables_and_columns.values())] *)
Definition total_columns (tables_and_columns : Dict.dict string (list string)) : nat :=
  fold_left (fun n cols => n + List.length cols) (Dict.values tables_and_columns) 0.

(** The inner loop that builds the CASE arms of one table; the state is
    [(case_conditions, case_index)]. *)
Fixpoint case_columns (length : nat) (table : string) (table_columns : list string)
    (case_conditions : list string) (case_index : nat) : list string * nat :=
  match table_columns with
  | [] => (case_conditions, case_index)
  | column :: more =>
      case_columns length table more
        (case_conditions ++
           [ "WHEN " +:+ table +:+ "." +:+ column +:+ " = ? THEN "
               +:+ Py.str_of_int (Z.of_nat length + 2 - Z.of_nat case_index);
             "WHEN " +:+ table +:+ "." +:+ column +:+ " REGEXP ? THEN "
               +:+ Py.str_of_int (Z.of_nat length - Z.of_nat case_index) ])
        (case_index + 1)
  end.

(** The outer loop, over the tables. *)
Fixpoint case_tables (length : nat) (items : list (string * list string))
    (case_conditions : list string) (case_index : nat) : list string * nat :=
  match items with
  | [] => (case_conditions, case_index)
  | (table, table_columns) :: more =>
      let '(cc, ci) := case_columns length table table_columns case_conditions case_index in
      case_tables length more cc ci
  end.

Definition additional_condition (tables_and_columns : Dict.dict string (list string))
    (item : option string * extra_term) : string :=
  let '(column, (logic, operator, _)) := item in
  let table := table_of_column column tables_and_columns in
  if operator
  then logic +:+ " " +:+ table +:+ "." +:+ Py.fmt column +:+ " REGEXP ?"
  else logic +:+ " " +:+ table +:+ "." +:+ Py.fmt column +:+ " = ?".

Definition _generate_full_query (tables_and_columns : Dict.dict string (list string))
    (vague_search_term : option string)
    (additional_search_terms : Dict.dict (option string) extra_term)
  : result (string * list param) :=
  main_table ← match Dict.keys tables_and_columns with
                | k :: _ => Ok k
                | [] => Raise StopIteration
                end;
  let from_clause :=
    "FROM " +:+ main_table +:+
    (if 1 <? List.length tables_and_columns
     then String.concat ""
            (map (fun k => if String.eqb k main_table then "" else left_join main_table k)
                 (Dict.keys tables_and_columns))
     else "") in
  let select_clause := "SELECT " +:+ main_table +:+ ".nb, NULL AS relevance, CASE" in
  let length := total_columns tables_and_columns in
  let case_conditions := fst (case_tables length tables_and_columns [] 0) in
  let case_statement := Py.join " " case_conditions +:+ " ELSE 0 END AS relevance" in
  let where_clause_conditions :=
    flat_map (fun tc => map (fun column => fst tc +:+ "." +:+ column +:+ " REGEXP ?") (snd tc))
      tables_and_columns in
  let where_clause := Py.join " OR " where_clause_conditions in
  let additional_conditions :=
    map (additional_condition tables_and_columns) additional_search_terms in
  let additional_search_termini :=
    map (fun item => snd (snd item)) additional_search_terms in
  let additional_where_clause := Py.join " " additional_conditions in
  let where_clause :=
    if negb (String.eqb additional_where_clause "")
    then "(" +:+ where_clause +:+ ") " +:+ additional_where_clause
    else where_clause in
  let query :=
    select_clause +:+ " " +:+ case_statement +:+ " " +:+ from_clause
      +:+ " WHERE " +:+ where_clause +:+ " ORDER BY relevance DESC" in
  Ok (query,
      repeat (Some (".*" +:+ Py.fmt vague_search_term +:+ ".*")) (length * 2 + length)
        ++ additional_search_termini).

(** *** [_join_query]: joining a second group onto a compiled query *)

(** [FROM (\w+)], ignoring case *)
Definition from_pattern : regex := Seq (lits_ci "FROM ") (Grp 1 (one_or_more word)).

(** [SELECT (.+?) FROM], ignoring case, the dot matching every character *)
Definition select_pattern : regex :=
  seqs [lits_ci "SELECT "; Grp 1 (lazy_one_or_more any); lits_ci " FROM"].

(** [, NULL AS relevance, CASE], ignoring case *)
Definition relevance_case_pattern : regex := lits_ci ", NULL AS relevance, CASE".

(** [WHERE], ignoring case *)
Definition where_pattern : regex := lits_ci "WHERE".

(** [WHERE (.+?)(?= ORDER BY relevance|$)], ignoring case, the dot matching
    every character *)
Definition where_body_pattern : regex :=
  seqs [ lits_ci "WHERE "; Grp 1 (lazy_one_or_more any);
         Look (Alt (lits_ci " ORDER BY relevance") Eos) ].

Definition _join_query (query join_table : string) (join_parameters : list string)
  : result string :=
  query_table ← match search from_pattern query with
                 | Some m => Ok (Py.fmt (group 1 m))
                 | None => Raise (ValueError "Unable to find the FROM clause in the query")
                 end;
  query ← match search select_pattern query with
           | Some m =>
               let select_clause := Py.fmt (group 1 m) in
               let new_select_clause :=
                 match search relevance_case_pattern select_clause with
                 | Some rm =>
                     Py.slice 0 (m_start rm) select_clause
                       +:+ ", " +:+ join_table +:+ ".nb"
                       +:+ Py.drop (m_start rm) select_clause
                 | None => select_clause +:+ ", " +:+ join_table +:+ ".nb"
                 end in
               Ok (Py.replace_first select_clause new_select_clause query)
           | None => Raise (ValueError "Unable to find the SELECT clause in the query")
           end;
  query ← match search where_pattern query with
           | Some m =>
               let where_clause_index := m_start m in
               paths ← subscript id _join_table_map query_table;
               path ← subscript id paths join_table;
               Ok (Py.slice 0 where_clause_index query +:+ path +:+ " "
                     +:+ Py.drop where_clause_index query)
           | None =>
               paths ← subscript id _join_table_map query_table;
               path ← subscript id paths join_table;
               Ok (query +:+ " " +:+ path)
           end;
  Ok (sub where_body_pattern
        (fun m => "WHERE (" +:+ Py.fmt (group 1 m) +:+ ") " +:+ Py.join " " join_parameters)
        query).

(** *** [get_sql_query_from_user_input] *)

(** A return-attribute spec; [None] is what [_returns_map.get] gives for a
    key it does not hold. *)
Definition ret_spec : Type := option (list string).

(** One element of the returned tuple:
    [(tables, sql, params, all_ret_vals)]. *)
Record compiled : Type := Compiled {
  c_tables : list string;
  c_sql : string;
  c_params : list param;
  c_ret_vals : list ret_spec
}.

(** [self._map.get(main[0])] *)
Definition map_get (g : option string) : option (list string) :=
  match g with
  | Some g => Dict.get g _map
  | None => None
  end.

(** The dict comprehension
[[
    {k: ("OR" if op == "|" else "AND", reg == ":", val)
     for op, k, reg, val, flag in search_terms if not flag}
]] *)
Definition normalized_extra (search_terms : list search_term)
  : Dict.dict (option string) extra_term :=
  Dict.of_items
    (map (fun t => (t_column t,
                    (if is_str (t_combinator t) "|" then "OR" else "AND",
                     is_str (t_operator t) ":",
                     t_value t)))
         (filter (fun t => negb (truthy (t_flag t))) search_terms)).

(** The choice between the two generators, written twice in the source
    (once in the fan-out, once for a named group):
[[
    if main[2] is None:
        table_map = {k: v for k, v in zip(table, self._full_map[table])}
        query = self._generate_full_query(table_map, main[4], additional_search_terms=normalized_extra)
    else:
        query = self._generate_query(main, search_terms)
]] *)
Definition generate (table : list string) (main : main_clause)
    (search_terms : list search_term) : result (string * list param) :=
  match m_column main with
  | None =>
      columns ← subscript show_tuple _full_map table;
      _generate_full_query (Dict.of_items (zip table columns)) (m_value main)
        (normalized_extra search_terms)
  | Some _ => _generate_query main search_terms
  end.

(** The fan-out [for table in self._map.values(): ...] of a clause whose
    group is not a key of [_map]. *)
Fixpoint fan_out (main : main_clause) (search_terms : list search_term)
    (tables : list (list string)) (returns : list compiled) : result (list compiled) :=
  match tables with
  | [] => Ok returns
  | table :: more =>
      ret_val ← (if truthy (m_returns main)
                  then match m_group main with
                       | Some g => Ok (Some (Py.split ";" g))
                       | None => Raise AttributeError
                       end
                  else Ok (Dict.get table _returns_map));
      query ← generate table main search_terms;
      t0 ← first table;
      fan_out main search_terms more
        (returns ++ [Compiled [t0] (fst query) (snd query) [ret_val]])
  end.

(** The conditions and values that a joined clause adds: the loop over
    [[("&", *main[2:], None)] + search_terms]. *)
Definition joined_conditions (tables_and_columns : list (string * list string))
    (main : main_clause) (search_terms : list search_term)
  : list string * list param :=
  let terms :=
    SearchTerm (Some "&") (m_column main) (m_operator main) (m_value main) None
      :: search_terms in
  fold_left
    (fun acc t =>
       if negb (truthy (t_flag t)) then
         let found_table := table_of_column (t_column t) tables_and_columns in
         let where_ :=
           found_table +:+ "." +:+ Py.fmt (t_column t)
             +:+ (if truthy (t_operator t) then " REGEXP ?" else " = ?") in
         (fst acc ++ [(if is_str (t_combinator t) "|" then "OR " else "AND ") +:+ where_],
          snd acc ++ [t_value t])
       else acc)
    terms ([], []).

(** The body of the loop [for main, search_terms in parsed_input]; the
    state is [(returns, concatenate_tables)]. *)
Definition compile_clause (st : list compiled * bool) (clause : parsed_clause)
  : result (list compiled * bool) :=
  let '(returns, concatenate_tables) := st in
  let '(main, search_terms) := clause in
  let last_term :=
    match last search_terms with
    | Some t => t_flag t
    | None => None
    end in
  st' ← match map_get (m_group main) with
         | None =>
             returns' ← fan_out main search_terms (Dict.values _map) returns;
             Ok (returns', concatenate_tables)
         | Some table =>
             let ret_val :=
               match m_returns main with
               | Some r => Some (Py.split ";" r)
               | None => Dict.get table _returns_map
               end in
             query ← generate table main search_terms;
             if concatenate_tables then
               columns ← subscript show_tuple _full_map table;
               let '(where_tup, value_tup) :=
                 joined_conditions (zip table columns) main search_terms in
               prev ← match last returns with
                       | Some c => Ok c
                       | None => Raise IndexError
                       end;
               t0 ← first table;
               joined ← _join_query (c_sql prev) t0 where_tup;
               Ok (removelast returns ++
                     [Compiled (c_tables prev ++ [t0]) joined
                        (c_params prev ++ value_tup)
                        (c_ret_vals prev ++
                           [Some (default [] (Dict.get table _returns_map))])],
                   false)
             else
               t0 ← first table;
               Ok (returns ++ [Compiled [t0] (fst query) (snd query) [ret_val]],
                   concatenate_tables)
         end;
  Ok (fst st', if is_str last_term "&" then true else snd st').

Fixpoint compile_clauses (parsed_input : list parsed_clause)
    (st : list compiled * bool) : result (list compiled * bool) :=
  match parsed_input with
  | [] => Ok st
  | clause :: more =>
      st' ← compile_clause st clause;
      compile_clauses more st'
  end.

(** The "select everything" form and the form of an input that does
    not parse. *)
Definition select_everything : result (list compiled) :=
  persons ← subscript show_tuple _returns_map ["Persons"; "CasePeople"];
  cases ← subscript show_tuple _returns_map ["Cases"];
  documents ← subscript show_tuple _returns_map ["Documents"];
  Ok [ Compiled ["Persons"; "Cases"; "Documents"]
         "SELECT Persons.nb, Cases.nb, Documents.nb FROM Persons FULL OUTER JOIN Cases FULL OUTER JOIN Documents"
         []
         [Some persons; Some cases; Some documents] ].

Definition no_match : list compiled :=
  [ Compiled ["Persons"; "Cases"; "Documents"] "" [] [Some []; Some []; Some []] ].

Definition get_sql_query_from_user_input (user_input : string)
  : result (list compiled) :=
  match _parse_user_input user_input with
  | None =>
      if String.eqb user_input "" then select_everything
      else Ok no_match
  | Some parsed_input =>
      st ← compile_clauses parsed_input ([], false);
      Ok (fst st)
  end.

(** *** [get_sql_query_from_user_input_restricted] *)

Definition get_sql_query_from_user_input_restricted (user_input restricted_table : string)
  : result (string * list param * list string) :=
  let parsed_input := _parse_user_input user_input in
  table ← subscript id _map restricted_table;
  match parsed_input with
  | None =>
      if String.eqb user_input "" then
        t0 ← first table;
        returns ← subscript show_tuple _returns_map table;
        Ok ("SELECT nb FROM " +:+ t0, [], returns)
      else Ok ("", [], [])
  | Some parsed_input =>
      if 1 <? List.length parsed_input then Ok ("", [], [])
      else
        clause ← first parsed_input;
        let '(main, search_terms) := clause in
        same ← match m_group main with
                | None => Ok true
                | Some g =>
                    t ← subscript id _map g;
                    Ok (bool_decide (t = table))
                end;
        if (same : bool) then
          ret_val ← match m_returns main with
                     | Some r => Ok (Py.split ";" r)
                     | None => subscript show_tuple _returns_map table
                     end;
          query ← match m_column main with
                   | None =>
                       columns ← subscript show_tuple _full_map table;
                       _generate_full_query (Dict.of_items (zip table columns))
                         (m_value main) (normalized_extra search_terms)
                   | Some _ => _generate_query main search_terms
                   end;
          Ok (fst query, snd query, ret_val)
        else Ok ("", [], [])
  end.

End SearchEngine.

(** ** The lock coordinator: [acquire_write_lock] and [acquire_read_lock]

    The shared files of [src/common/db.py], as far as the core reads and
    writes them.  Lines are characters: the log holds TAB, LF and space
    only, and the model is that of a POSIX text file, where a character
    is a byte. *)

Module Locks.

Record fs : Type := Fs {
  write_lock : bool;              (* does WRITE_LOCK_FILE exist *)
  read_lock : option string;      (* the text of READ_LOCK_FILE, [None] when absent *)
  changes_log : option string     (* the text of CHANGES_LOG_FILE, [None] when absent *)
}.

Definition set_write_lock (b : bool) (f : fs) : fs :=
  Fs b (read_lock f) (changes_log f).

(** [with open(path, 'a') as f: f.write(text)] on a file that may be absent *)
Definition append_text (text : string) (file : option string) : option string :=
  Some (default "" file +:+ text).

Definition append_read_lock (f : fs) : fs :=
  Fs (write_lock f) (append_text " " (read_lock f)) (changes_log f).

(** How the body of a [with] block ends. *)
Inductive outcome : Type :=
| Returned
| Raised (e : exn).

Inductive lock_kind : Type :=
| WriteLock    (* acquire_write_lock *)
| ReadLock.    (* acquire_read_lock *)

(** Where a caller of one of the two context managers stands. *)
Inductive pc : Type :=
| Waiting                 (* at the test of [while os.path.exists(WRITE_LOCK_FILE)] *)
| Acquiring               (* the loop is left, the marker is written next *)
| Held                    (* at [yield]: the body of the [with] block runs next *)
| Releasing (o : outcome) (* at the first statement of [finally] *)
| Removing (o : outcome)  (* write lock: after the [exists] test, at [os.remove] *)
| Done (o : outcome).

Definition is_done (p : pc) : bool :=
  match p with
  | Done _ => true
  | _ => false
  end.

(** One step of a caller.  Each step reads or writes the shared files
    once; the body of the [with] block is one step.  An exception
    raised in [finally] replaces the outcome of the body. *)
Definition lock_step (k : lock_kind) (body : fs -> fs * outcome) (p : pc) (f : fs)
  : pc * fs :=
  match p with
  | Waiting => if write_lock f then (Waiting, f) else (Acquiring, f)
  | Acquiring =>
      match k with
      | WriteLock => (Held, set_write_lock true f)
      | ReadLock => (Held, append_read_lock f)
      end
  | Held => let '(f', o) := body f in (Releasing o, f')
  | Releasing o =>
      match k with
      | WriteLock => if write_lock f then (Removing o, f) else (Done o, f)
      | ReadLock => (Done o, append_read_lock f)
      end
  | Removing o =>
      if write_lock f then (Done o, set_write_lock false f)
      else (Done (Raised FileNotFoundError), f)
  | Done o => (Done o, f)
  end.

End Locks.

(** ** The REGEXP predicate: [_regexp]

    The patterns that reach [_regexp] are made of what the user typed,
    so [re.search] and [re.fullmatch] are taken as they come: any two
    functions that answer whether there is a match, or raise. *)

Module Regexp.

Class PyRe : Type := {
  (** [re.search(pattern, value) is not None], with [re.IGNORECASE] when
      the flag is set *)
  re_search : bool -> string -> string -> result bool;
  (** [re.fullmatch(pattern, value) is not None] *)
  re_fullmatch : string -> string -> result bool
}.

(** A value that SQLite hands to a user function.  A REAL and a BLOB are
    kept as the text that [str] gives them. *)
Inductive sql_value : Type :=
| SqlNull
| SqlInteger (z : Z)
| SqlReal (shown : string)
| SqlText (s : string)
| SqlBlob (shown : string).

(** [value if isinstance(value, str) else str(value)] *)
Definition str_of_value (v : sql_value) : string :=
  match v with
  | SqlNull => "None"
  | SqlInteger z => Py.str_of_int z
  | SqlReal shown => shown
  | SqlText s => s
  | SqlBlob shown => shown
  end.

(** [try: ... except Exception: return False] *)
Definition catch_false (r : result bool) : bool :=
  match r with
  | Ok b => b
  | Raise _ => false
  end.

Definition _regexp `{PyRe} (pattern : string) (value : sql_value) : bool :=
  catch_false
    match value with
    | SqlNull => Ok false
    | _ =>
        let value := str_of_value value in
        if Py.startswith pattern ".*" && Py.endswith pattern ".*" then
          let new_pattern := Py.removesuffix (Py.removeprefix pattern ".*") ".*" in
          if Py.startswith new_pattern "'" && Py.endswith new_pattern "'" then
            re_fullmatch (Py.removesuffix (Py.removeprefix new_pattern "'") "'") value
          else re_search true new_pattern value
        else if Py.startswith pattern "'" && Py.endswith pattern "'" then
          re_fullmatch (Py.removesuffix (Py.removeprefix pattern "'") "'") value
        else re_search false pattern value
    end.

(** *** The predicate as the specification words it

    These definitions are written from the words of the specification
    and use none of the functions above. *)

(** [p] begins with [w]: what follows [w]. *)
Fixpoint strip_front (w p : string) : option string :=
  match w, p with
  | EmptyString, _ => Some p
  | String a w', String b p' => if Ascii.eqb a b then strip_front w' p' else None
  | String _ _, EmptyString => None
  end.

Definition reverse (s : string) : string :=
  string_of_list_ascii (rev (list_ascii_of_string s)).

(** [p] ends with [w]: what comes before [w]. *)
Definition strip_back (w p : string) : option string :=
  option_map reverse (strip_front (reverse w) (reverse p)).

(** [p] is wrapped in [w] on both ends, [p = w inner w]: the inner
    text. *)
Definition inner_of (w p : string) : option string :=
  match strip_front w p with
  | Some remains => strip_back w remains
  | None => None
  end.

Inductive regexp_mode : Type :=
| FullMatch (inner : string)          (* a full-string match *)
| SearchIgnoreCase (pattern : string) (* a case-insensitive search *)
| SearchPlain (pattern : string).     (* a plain search *)

Definition mode_as_worded (p : string) : regexp_mode :=
  match inner_of ".*" p with
  | Some remains =>
      match inner_of "'" remains with
      | Some inner => FullMatch inner
      | None => SearchIgnoreCase remains
      end
  | None =>
      match inner_of "'" p with
      | Some inner => FullMatch inner
      | None => SearchPlain p
      end
  end.

Definition perform `{PyRe} (m : regexp_mode) (text : string) : result bool :=
  match m with
  | FullMatch inner => re_fullmatch inner text
  | SearchIgnoreCase pattern => re_search true pattern text
  | SearchPlain pattern => re_search false pattern text
  end.

(** The display string of a value: the decimal numeral of an integer;
    there is none for NULL. *)
Definition display (v : sql_value) : option string :=
  match v with
  | SqlNull => None
  | SqlInteger z => Some (NilZero.string_of_int (Z.to_int z))
  | SqlReal shown => Some shown
  | SqlText s => Some s
  | SqlBlob shown => Some shown
  end.

Definition regexp_as_worded `{PyRe} (p : string) (v : sql_value) : bool :=
  match display v with
  | None => false
  | Some text =>
      match perform (mode_as_worded p) text with
      | Ok matched => matched
      | Raise _ => false
      end
  end.

(** [re.search] and [re.fullmatch] on a pattern that holds no special
    character: the pattern occurs in the text, the pattern is the
    text. *)
Fixpoint occurs_in (pattern text : string) : bool :=
  String.prefix pattern text
  || match text with
     | EmptyString => false
     | String _ text' => occurs_in pattern text'
     end.

Definition literal_re : PyRe := {|
  re_search ignore_case pattern text :=
    Ok (if ignore_case then occurs_in (Py.lower pattern) (Py.lower text)
        else occurs_in pattern text);
  re_fullmatch pattern text := Ok (String.eqb pattern text)
|}.

End Regexp.

(** ** The access facade: [DatabaseAccess] *)

Module DatabaseAccess.

Import Re Locks SearchEngine.

(** *** The change log *)

(** [INSERT\s+INTO\s+([^\s(]+)], ignoring case *)
Definition insert_pattern : regex :=
  seqs [ lits_ci "INSERT"; one_or_more space; lits_ci "INTO"; one_or_more space;
         Grp 1 (one_or_more (Chr (fun c => negb (Py.isspace c || Ascii.eqb c "(")))) ].

(** [UPDATE\s+(\S+)], ignoring case *)
Definition update_pattern : regex :=
  seqs [lits_ci "UPDATE"; one_or_more space; Grp 1 (one_or_more nonspace)].

(** [DELETE\s+FROM\s+(\S+)], ignoring case *)
Definition delete_pattern : regex :=
  seqs [ lits_ci "DELETE"; one_or_more space; lits_ci "FROM"; one_or_more space;
         Grp 1 (one_or_more nonspace) ].

(** [tables.add(match.group(1))] when the pattern is found *)
Definition add_match (r : regex) (query : string) (tables : gset string) : gset string :=
  match search r query with
  | Some m => {[ Py.fmt (group 1 m) ]} ∪ tables
  | None => tables
  end.

Definition _get_affected_tables (query : string) : gset string :=
  add_match delete_pattern query
    (add_match update_pattern query
       (add_match insert_pattern query ∅)).

(** The markers and the tables that each stands for:
    TAB for the cases, LF for the persons, space for the documents. *)
Definition cases_marker : string := String (Py.chr 9) "".
Definition persons_marker : string := String (Py.chr 10) "".
Definition documents_marker : string := " ".

Definition marker_table : list (string * gset string) :=
  [ (cases_marker, {[ "Cases"; "CasePeople"; "CaseDocuments" ]});
    (persons_marker, {[ "Persons" ]});
    (documents_marker, {[ "Documents" ]}) ].

(** What the loop of [_log_changes] writes. *)
Definition markers_of (tables : gset string) : string :=
  String.concat ""
    (map (fun et => if bool_decide (tables ∩ snd et ≠ ∅) then fst et else "")
         marker_table).

(** [_log_changes(sql, params)] on the text of the log, when the log
    opens.  [denied] is the number of times in a row that opening the
    log raises [PermissionError] before it opens; each time the function
    calls itself again.  When the log does not open before the
    interpreter is out of frames the calls end in [RecursionError] and
    nothing is written: this is an [error] of the operation, below. *)
Fixpoint _log_changes (denied : nat) (sql : string) (log : option string)
  : option string :=
  match denied with
  | S n => _log_changes n sql log
  | 0 => append_text (markers_of (_get_affected_tables sql)) log
  end.

(** *** The three ways to the database

    The database engine is outside the core: a call carries the answer
    that the engine gives to its statement. *)

Definition cell : Type := option Z.
Definition row : Type := list cell.

Inductive op : Type :=
(** [self._query(sql, params)] *)
| OpQuery (sql : string) (params : list param) (answer : result (list row))
(** [self._execute(sql, params)]: [error] is what [cursor.execute],
    [commit] or [_log_changes] raise, if they do; nothing is written to
    the log then *)
| OpExecute (sql : string) (params : list param) (error : option exn) (denied : nat)
(** [self._execute_many(sql, params)]: the statement runs and is logged
    for the first [done] parameter tuples, then [error] is raised, if any *)
| OpExecuteMany (sql : string) (done : nat) (error : option exn) (denied : nat).

(** All three enter [with acquire_write_lock()]. *)
Definition lock_of (o : op) : lock_kind :=
  match o with
  | OpQuery _ _ _ => WriteLock
  | OpExecute _ _ _ _ => WriteLock
  | OpExecuteMany _ _ _ _ => WriteLock
  end.

Definition set_changes_log (log : option string) (f : fs) : fs :=
  Fs (write_lock f) (read_lock f) log.

(** The body of the [with] block. *)
Definition body_of (o : op) (f : fs) : fs * outcome :=
  match o with
  | OpQuery _ _ (Ok _) => (f, Returned)
  | OpQuery _ _ (Raise e) => (f, Raised e)
  | OpExecute sql _ None denied =>
      (set_changes_log (_log_changes denied sql (changes_log f)) f, Returned)
  | OpExecute _ _ (Some e) _ => (f, Raised e)
  | OpExecuteMany sql done error denied =>
      (set_changes_log
         (Nat.iter done (_log_changes denied sql) (changes_log f)) f,
       match error with
       | Some e => Raised e
       | None => Returned
       end)
  end.

Definition op_step (o : op) : pc -> fs -> pc * fs :=
  lock_step (lock_of o) (body_of o).

(** A caller that runs alone, for [n] steps. *)
Fixpoint run_alone (n : nat) (o : op) (p : pc) (f : fs) : pc * fs :=
  match n with
  | 0 => (p, f)
  | S n' => let '(p', f') := op_step o p f in run_alone n' o p' f'
  end.

(** *** Several callers on the same files *)

Record system : Type := System {
  files : fs;
  callers : list (op * pc)
}.

(** One caller that has not finished takes one step. *)
Inductive step : system -> system -> Prop :=
| step_caller (s : system) (i : nat) (o : op) (p p' : pc) (f' : fs) :
    callers s !! i = Some (o, p) ->
    is_done p = false ->
    op_step o p (files s) = (p', f') ->
    step s (System f' (<[i := (o, p')]> (callers s))).

(** The same as a function, to run a schedule: the list of the callers
    that step, in order. *)
Definition step_at (i : nat) (s : system) : system :=
  match callers s !! i with
  | Some (o, p) =>
      if is_done p then s
      else let '(p', f') := op_step o p (files s) in
           System f' (<[i := (o, p')]> (callers s))
  | None => s
  end.

Definition run_schedule (schedule : list nat) (s : system) : system :=
  fold_left (fun s i => step_at i s) schedule s.

(** The start: some callers, each about to enter its [with] block. *)
Definition start (f : fs) (ops : list op) : system :=
  System f (map (fun o => (o, Waiting)) ops).

Definition all_done (s : system) : Prop :=
  Forall (fun c => is_done (snd c) = true) (callers s).

(** A caller is in its critical section from [yield] to the end of
    [finally]. *)
Definition holds (p : pc) : bool :=
  match p with
  | Held | Releasing _ | Removing _ => true
  | _ => false
  end.

(** *** [search] *)

(** [transposed_results[i]], where [transposed_results] is the list that
    [zip] makes of all the rows: the transposition stops at the shortest
    row. *)
Definition transposed_at (i : nat) (results : list row) : result (list cell) :=
  match mapM (fun r : row => r !! i) results with
  | Some column => Ok column
  | None => Raise IndexError
  end.

(** One element of what [search] returns: [(table, inter, ret_vals)]. *)
Definition search_entry : Type := string * gset cell * ret_spec.

(** The loop [for i, (table, ret_vals) in enumerate(zip(tables, all_ret_vals))] *)
Fixpoint search_tables (i : nat) (pairs : list (string * ret_spec))
    (results : list row) (returns : list search_entry) : result (list search_entry) :=
  match pairs with
  | [] => Ok returns
  | (table, ret_vals) :: more =>
      if String.eqb table "Documents" then search_tables (S i) more results returns
      else
        column ← transposed_at i results;
        let inter : gset cell := list_to_set column in
        search_tables (S i) more results (returns ++ [(table, inter, ret_vals)])
  end.

Section facade.
(** [self._query], as the database answers it. *)
Variable _query : string -> list param -> result (list row).

(** The loop over the compiled queries. *)
Fixpoint search_queries (queries : list compiled) (returns : list search_entry)
  : result (list search_entry) :=
  match queries with
  | [] => Ok returns
  | c :: more =>
      results ← _query (c_sql c) (c_params c);
      match results with
      | [] => search_queries more returns
      | _ =>
          returns' ← search_tables 0 (zip (c_tables c) (c_ret_vals c)) results returns;
          search_queries more returns'
      end
  end.

Definition search (query : string) : result (list search_entry) :=
  queries ← get_sql_query_from_user_input query;
  search_queries queries [].

Definition restricted_search (query where_ : string)
  : result (list cell * list string) :=
  compiled ← get_sql_query_from_user_input_restricted query where_;
  let '(sql, params, ret_vals) := compiled in
  results ← _query sql params;
  match results with
  | [] => Ok ([], [])
  | _ =>
      column ← transposed_at 0 results;
      Ok (elements (list_to_set column : gset cell), ret_vals)
  end.
End facade.

End DatabaseAccess.

(** ** The change notifier: [DataNotifier] of [src/common/main_gui.py] *)

Module DataNotifier.

Import Locks.

Record notifier : Type := Notifier {
  last_position : nat
}.

(** [__init__] *)
Definition init : notifier := Notifier 0.

(** The characters of a string, as a set. *)
Fixpoint chars (s : string) : gset ascii :=
  match s with
  | EmptyString => ∅
  | String c s' => {[ c ]} ∪ chars s'
  end.

(** [poll_for_changes]: the notifier afterwards, and what [dataChanged]
    emits, if it does.  Reading from a position at or after the end
    gives nothing and leaves the position where it is. *)
Definition poll_for_changes (n : notifier) (f : fs) : notifier * option (gset ascii) :=
  match changes_log f with
  | None => (n, None)
  | Some text =>
      let changes := Py.drop (last_position n) text in
      let n' := Notifier (Nat.max (last_position n) (String.length text)) in
      if String.eqb changes "" then (n', None)
      else (n', Some (chars changes))
  end.

End DataNotifier.

(** ** The record methods of [DatabaseAccess]: [src/common/db.py]

    The methods that read and write persons, cases and documents build
    statements and hand them to [_query] and [_execute].  The database
    engine is outside the core, so a method is the tree of the calls it
    makes: what it does next depends on what the engine answers.  The
    arguments have the types that the annotations of the source give
    them; a value that the source leaves free is a [value]. *)

Module Facade.

(** A Python value that is passed to the engine, comes back from it or
    is kept in a snapshot. *)
#[local] Unset Elimination Schemes.
Inductive value : Type :=
| VNone
| VInt (z : Z)
| VStr (s : string)
| VList (items : list value)
| VTuple (items : list value).
#[local] Set Elimination Schemes.

(** A row that the engine returns: a tuple. *)
Definition row : Type := list value.

(** What a method raises: an exception of the core, or [TypeError]. *)
Inductive raised : Type :=
| Exn (e : exn)
| TypeError.

Inductive prog (A : Type) : Type :=
(** the method returns *)
| Ret (a : A)
(** the method raises *)
| Throw (e : raised)
(** [self._query(sql, params)], then what follows the rows *)
| Query (sql : string) (params : list value) (k : list row -> prog A)
(** [self._execute(sql, params)], then what follows [cursor.lastrowid] *)
| Execute (sql : string) (params : list value) (k : option Z -> prog A)
(** [if os.path.exists(path): os.remove(path)], then what follows *)
| Unlink (path : string) (k : prog A).

Arguments Ret {A} a.
Arguments Throw {A} e.
Arguments Query {A} sql params k.
Arguments Execute {A} sql params k.
Arguments Unlink {A} path k.

Fixpoint bind {A B : Type} (p : prog A) (f : A -> prog B) : prog B :=
  match p with
  | Ret a => f a
  | Throw e => Throw e
  | Query sql params k => Query sql params (fun rows => bind (k rows) f)
  | Execute sql params k => Execute sql params (fun id => bind (k id) f)
  | Unlink path k => Unlink path (bind k f)
  end.

#[global] Instance prog_bind : MBind prog := fun A B f p => bind p f.
#[global] Instance prog_ret : MRet prog := fun A a => Ret a.

(** A step that may raise, inside a method. *)
Definition lift {A : Type} (r : result A) : prog A :=
  match r with
  | Ok a => Ret a
  | Raise e => Throw (Exn e)
  end.

(** [self._query(sql)] and [self._execute(sql, params, return_id)] *)
Definition _query (sql : string) (params : list value) : prog (list row) :=
  Query sql params Ret.

Definition _execute (sql : string) (params : list value) (return_id : bool)
  : prog (option Z) :=
  Execute sql params (fun lastrowid => Ret (if return_id then lastrowid else None)).

(** The calls against an engine.  [D] is the state of the database and
    of the edit lock files: a query leaves it as it is; a statement that
    fails leaves it as it is and the method raises what the engine
    raises.  The write marker and the change log, which every call of
    [_query] and of [_execute] goes through, are not part of [D]: they
    are the files of [DatabaseAccess.op_step]. *)
Section run.
Context {D : Type}.
Variable db_query : string -> list value -> D -> result (list row).
Variable db_execute : string -> list value -> D -> result (option Z * D).
Variable fs_unlink : string -> D -> D.

Fixpoint run {A : Type} (p : prog A) (d : D) : (A + raised) * D :=
  match p with
  | Ret a => (inl a, d)
  | Throw e => (inr e, d)
  | Query sql params k =>
      match db_query sql params d with
      | Ok rows => run (k rows) d
      | Raise e => (inr (Exn e), d)
      end
  | Execute sql params k =>
      match db_execute sql params d with
      | Ok (lastrowid, d') => run (k lastrowid) d'
      | Raise e => (inr (Exn e), d)
      end
  | Unlink path k => run k (fs_unlink path d)
  end.
End run.

(** *** Python operations on values *)

(** [for x in v]: the items, or [None] when [v] is not iterable.  A
    string gives its characters. *)
Definition py_iter (v : value) : option (list value) :=
  match v with
  | VList items | VTuple items => Some items
  | VStr s => Some (map (fun c => VStr (String c "")) (list_ascii_of_string s))
  | VNone | VInt _ => None
  end.

(** [len(v)] *)
Definition py_len (v : value) : prog nat :=
  match v with
  | VList items | VTuple items => Ret (List.length items)
  | VStr s => Ret (String.length s)
  | VNone | VInt _ => Throw TypeError
  end.

(** [v[i]] for a position [i] that is not negative *)
Definition py_item (i : nat) (v : value) : prog value :=
  match py_iter v with
  | Some items =>
      match items !! i with
      | Some x => Ret x
      | None => Throw (Exn IndexError)
      end
  | None => Throw TypeError
  end.

(** [row[i]] for a row of the engine *)
Definition cell (i : nat) (r : row) : prog value :=
  match r !! i with
  | Some x => Ret x
  | None => Throw (Exn IndexError)
  end.

(** [sep.join(v)]: every item has to be a string. *)
Fixpoint strings_of (items : list value) : option (list string) :=
  match items with
  | [] => Some []
  | VStr s :: more => option_map (cons s) (strings_of more)
  | _ :: _ => None
  end.

Definition py_join (sep : string) (v : value) : prog string :=
  match py_iter v with
  | Some items =>
      match strings_of items with
      | Some l => Ret (Py.join sep l)
      | None => Throw TypeError
      end
  | None => Throw TypeError
  end.

(** [for x in items: body(x)] *)
Fixpoint for_each {A : Type} (items : list A) (body : A -> prog unit) : prog unit :=
  match items with
  | [] => Ret tt
  | x :: more => _ ← body x; for_each more body
  end.

(** [[f(x) for x in items]], where [f] may raise *)
Fixpoint map_prog {A B : Type} (f : A -> prog B) (items : list A) : prog (list B) :=
  match items with
  | [] => Ret []
  | x :: more => y ← f x; ys ← map_prog f more; Ret (y :: ys)
  end.

(** [l.index(x)] when [x in l] *)
Fixpoint index_of (x : string) (l : list string) : option nat :=
  match l with
  | [] => None
  | y :: more => if String.eqb y x then Some 0 else option_map S (index_of x more)
  end.

(** [l.insert(i, x)]: at the end when [i] is past it *)
Definition insert_at {A : Type} (i : nat) (x : A) (l : list A) : list A :=
  take i l ++ x :: drop i l.

(** [key in allowed_columns] *)
Definition allowed (allowed_columns : list string) (key : string) : bool :=
  existsb (String.eqb key) allowed_columns.

Definition not_allowed {A : Type} (what : string) : prog A :=
  Throw (Exn (ValueError ("Attribute " +:+ what +:+ " is not allowed"))).

(** *** Persons *)

Definition get_persons (number : Z) (attrs : list string) : prog (list value) :=
  let index := index_of "cases" attrs in
  let attrs :=
    match index with
    | Some i => delete i attrs
    | None => attrs
    end in
  returns ← match attrs with
             | _ :: _ =>
                 let query :=
                   "SELECT " +:+ Py.join ", " (map (fun attr => "p." +:+ attr) attrs)
                     +:+ " FROM Persons p WHERE p.nb = " +:+ Py.str_of_int number in
                 rows ← _query query [];
                 first_row ← lift (SearchEngine.first rows);
                 Ret (map (fun x => VTuple [x]) first_row)
             | [] => Ret []
             end;
  match index with
  | Some i =>
      let cases_query :=
        "SELECT cp.case_nb FROM CasePeople cp WHERE cp.person_nb = "
          +:+ Py.str_of_int number in
      rows ← _query cases_query [];
      cases ← map_prog (cell 0) rows;
      Ret (insert_at i (VTuple [VList cases]) returns)
  | None => Ret returns
  end.

(** The end of the three [update_...] methods:
[[
    if updates:
        query = f"UPDATE <table> SET {', '.join(updates)} WHERE nb = ?"
        params.append(number)
        self._execute(query, params)
]] *)
Definition run_updates (table : string) (number : Z)
    (updates : list string) (params : list value) : prog unit :=
  match updates with
  | _ :: _ =>
      let query :=
        "UPDATE " +:+ table +:+ " SET " +:+ Py.join ", " updates +:+ " WHERE nb = ?" in
      _ ← _execute query (params ++ [VInt number]) false;
      Ret tt
  | [] => Ret tt
  end.

(** [for x in value: ...]: [TypeError] when the value is not iterable *)
Definition for_each_in (v : value) (body : value -> prog unit) : prog unit :=
  match py_iter v with
  | Some items => for_each items body
  | None => Throw TypeError
  end.

(** The loop over [kwargs.items()] of [update_persons]; the state is
    [(updates, params)]. *)
Fixpoint update_persons_loop (number : Z) (kwargs : list (string * value))
    (updates : list string) (params : list value) : prog unit :=
  match kwargs with
  | [] => run_updates "Persons" number updates params
  | (key, v) :: more =>
      if allowed ["last_name"; "first_name"; "address"; "birth_date"; "contact_info";
                  "gender"; "description"; "notes"; "can_be_lawyer"] key
      then update_persons_loop number more (updates ++ [key +:+ " = ?"]) (params ++ [v])
      else if String.eqb key "cases" then
        _ ← _execute "DELETE FROM CasePeople WHERE person_nb = ?" [VInt number] false;
        _ ← for_each_in v
              (fun case_nb =>
                 _ ← _execute "INSERT INTO CasePeople (case_nb, person_nb) VALUES (?, ?)"
                       [case_nb; VInt number] false;
                 Ret tt);
        update_persons_loop number more updates params
      else not_allowed key
  end.

Definition update_persons (number : Z) (kwargs : Dict.dict string value) : prog unit :=
  update_persons_loop number kwargs [] [].

Definition add_person (last_name first_name address birth_date contact_info gender
    description notes : string) (can_be_lawyer : bool) : prog (option Z) :=
  _execute
    ("INSERT INTO Persons "
       +:+ "(last_name, first_name, address, birth_date, contact_info, gender, description, notes, can_be_lawyer) "
       +:+ "VALUES (?, ?, ?, ?, ?, ?, ?, ?, ?)")
    [ VStr last_name; VStr first_name; VStr address; VStr birth_date;
      VStr contact_info; VStr gender; VStr description; VStr notes;
      VInt (if can_be_lawyer then 1 else 0) ]
    true.

Definition delete_person (number : Z) : prog unit :=
  _ ← _execute ("DELETE FROM Persons WHERE nb = " +:+ Py.str_of_int number) [] false;
  Ret tt.

(** *** Cases *)

(** One attribute of [get_cases]: what is appended to [returns]. *)
Definition get_cases_attr (number : Z) (attr : string) : prog value :=
  if allowed ["name"; "description"; "notes"] attr then
    rows ← _query ("SELECT c." +:+ attr +:+ " FROM Cases c WHERE c.nb = "
                     +:+ Py.str_of_int number) [];
    first_row ← lift (SearchEngine.first rows);
    Ret (VTuple first_row)
  else if String.eqb attr "persons" then
    results_query1 ← _query ("SELECT cp.person_nb FROM CasePeople cp WHERE cp.case_nb = "
                               +:+ Py.str_of_int number) [];
    results_query2 ← _query ("SELECT cp.lawyer_nb, cp.side FROM CasePeople cp WHERE cp.case_nb = "
                               +:+ Py.str_of_int number) [];
    if Nat.eqb (List.length results_query1) (List.length results_query2) then
      triples ← map_prog
                  (fun xy : row * row =>
                     x0 ← cell 0 (fst xy);
                     y0 ← cell 0 (snd xy);
                     y1 ← cell 1 (snd xy);
                     Ret (VTuple [x0; y0; y1]))
                  (zip results_query1 results_query2);
      Ret (VTuple triples)
    else Ret (VTuple [])
  else if String.eqb attr "documents" then
    rows ← _query ("SELECT cd.document_nb FROM CaseDocuments cd WHERE cd.case_nb = "
                     +:+ Py.str_of_int number) [];
    documents ← map_prog (cell 0) rows;
    Ret (VTuple documents)
  else not_allowed attr.

Definition get_cases (number : Z) (attrs : list string) : prog (list value) :=
  map_prog (get_cases_attr number) attrs.

(** [(number, *person_nb)] *)
Definition with_number (number : Z) (person_nb : value) : prog (list value) :=
  match py_iter person_nb with
  | Some items => Ret (VInt number :: items)
  | None => Throw TypeError
  end.

Fixpoint update_cases_loop (number : Z) (kwargs : list (string * value))
    (updates : list string) (params : list value) : prog unit :=
  match kwargs with
  | [] => run_updates "Cases" number updates params
  | (key, v) :: more =>
      if allowed ["name"; "description"; "notes"] key
      then update_cases_loop number more (updates ++ [key +:+ " = ?"]) (params ++ [v])
      else if String.eqb key "persons" then
        _ ← _execute "DELETE FROM CasePeople WHERE case_nb = ?" [VInt number] false;
        _ ← for_each_in v
              (fun person_nb =>
                 row_params ← with_number number person_nb;
                 _ ← _execute
                       "INSERT INTO CasePeople (case_nb, person_nb, lawyer_nb, side) VALUES (?, ?, ?, ?)"
                       row_params false;
                 Ret tt);
        update_cases_loop number more updates params
      else if String.eqb key "documents" then
        _ ← _execute "DELETE FROM CaseDocuments WHERE case_nb = ?" [VInt number] false;
        let documents :=
          match v with
          | VList items | VTuple items => items
          | _ => [v]
          end in
        _ ← for_each documents
              (fun document_nb =>
                 _ ← _execute "INSERT INTO CaseDocuments (case_nb, document_nb) VALUES (?, ?)"
                       [VInt number; document_nb] false;
                 Ret tt);
        update_cases_loop number more updates params
      else not_allowed key
  end.

Definition update_cases (number : Z) (kwargs : Dict.dict string value) : prog unit :=
  update_cases_loop number kwargs [] [].

(** [self._execute(...)] with what [return_id=True] gave as the case *)
Definition id_value (lastrowid : option Z) : value :=
  match lastrowid with
  | Some z => VInt z
  | None => VNone
  end.

Definition add_case (name description notes : string) (persons : list (Z * Z * Z))
    (documents : list value) : prog (option Z) :=
  case_nb ← _execute "INSERT INTO Cases (name, description, notes) VALUES (?, ?, ?)"
              [VStr name; VStr description; VStr notes] true;
  _ ← for_each persons
        (fun p =>
           let '(person_nb, lawyer_nb, side) := p in
           _ ← _execute
                 ("INSERT INTO CasePeople (case_nb, person_nb, lawyer_nb, side, has_external_lawyer, self_represented) "
                    +:+ "VALUES (?, ?, ?, ?, ?, ?)")
                 [ id_value case_nb; VInt person_nb; VInt lawyer_nb;
                   VInt (if Z.eqb side 0 then 0 else 1); VInt 0;
                   VInt (if Z.eqb person_nb lawyer_nb then 1 else 0) ]
                 false;
           Ret tt);
  _ ← for_each documents
        (fun document_nb =>
           _ ← _execute "INSERT INTO CaseDocuments (case_nb, document_nb) VALUES (?, ?)"
                 [id_value case_nb; document_nb] false;
           Ret tt);
  Ret case_nb.

Definition delete_case (number : Z) : prog unit :=
  _ ← _execute ("DELETE FROM Cases WHERE nb = " +:+ Py.str_of_int number) [] false;
  Ret tt.

(** *** Documents *)

Definition get_documents_attr (number : Z) (attr : string) : prog value :=
  if allowed ["name"; "description"; "notes"; "path"] attr then
    rows ← _query ("SELECT d." +:+ attr +:+ " FROM Documents d WHERE d.nb = "
                     +:+ Py.str_of_int number) [];
    first_row ← lift (SearchEngine.first rows);
    Ret (VTuple first_row)
  else if String.eqb attr "cases" then
    rows ← _query ("SELECT cd.case_nb FROM CaseDocuments cd WHERE cd.document_nb = "
                     +:+ Py.str_of_int number) [];
    cases ← map_prog (cell 0) rows;
    Ret (VTuple cases)
  else not_allowed attr.

Definition get_documents (number : Z) (attrs : list string) : prog (list value) :=
  map_prog (get_documents_attr number) attrs.

Fixpoint update_documents_loop (number : Z) (kwargs : list (string * value))
    (updates : list string) (params : list value) : prog unit :=
  match kwargs with
  | [] => run_updates "Documents" number updates params
  | (key, v) :: more =>
      if allowed ["name"; "description"; "notes"; "path"] key
      then update_documents_loop number more (updates ++ [key +:+ " = ?"]) (params ++ [v])
      else if String.eqb key "cases" then
        _ ← _execute "DELETE FROM CaseDocuments WHERE document_nb = ?" [VInt number] false;
        _ ← for_each_in v
              (fun case_nb =>
                 _ ← _execute "INSERT INTO CaseDocuments (case_nb, document_nb) VALUES (?, ?)"
                       [case_nb; VInt number] false;
                 Ret tt);
        update_documents_loop number more updates params
      else not_allowed key
  end.

Definition update_documents (number : Z) (kwargs : Dict.dict string value) : prog unit :=
  update_documents_loop number kwargs [] [].

Definition delete_document (number : Z) : prog unit :=
  _ ← _execute ("DELETE FROM Documents WHERE nb = " +:+ Py.str_of_int number) [] false;
  Ret tt.

(** *** The edit locks: [EditLockManager.release_edit_lock] *)

(** [os.path.join(self.lock_dir, f'edit_lock_{table}_{where}.lock')], for
    the [lock_dir] that [DatabaseAccess] leaves at its default *)
Definition lock_file_path (where_ : Z) (table : string) : string :=
  "./edit_locks/" +:+ "edit_lock_" +:+ table +:+ "_" +:+ Py.str_of_int where_ +:+ ".lock".

Definition release_edit_lock (where_ : Z) (table : string) : prog unit :=
  Unlink (lock_file_path where_ table) (Ret tt).

End Facade.

(** ** The record objects: [src/common/db_obj.py] *)

Module DbObj.

Import Facade.

Record obj : Type := Obj {
  nb : Z;
  _table : string;
  _excludes : list string;
  _snap_shot : Dict.dict string value;
  _edit_mode_engaged : bool;
  _edit_lock_acquired : bool
}.

Definition set_snap_shot (snap : Dict.dict string value) (o : obj) : obj :=
  Obj (nb o) (_table o) (_excludes o) snap (_edit_mode_engaged o) (_edit_lock_acquired o).

(** [BaseDBObj.__init__] *)
Definition base_init (nb : Z) (table : string) (excludes : list string)
    (_snap_shot : Dict.dict string value) : obj :=
  Obj nb table excludes _snap_shot false false.

(** [self._snap_shot[key]] *)
Definition snap (key : string) (o : obj) : prog value :=
  lift (SearchEngine.subscript id (_snap_shot o) key).

(** [_get_value]; [update] is the method of the class of the object. *)
Definition _get_value (update : obj -> prog obj) (key : string) (o : obj)
  : prog (value * obj) :=
  v ← snap key o;
  o ← match v with
       | VStr "" => update o
       | _ => Ret o
       end;
  v ← snap key o;
  Ret (v, o).

Definition _edit_value (key : string) (v : value) (o : obj) : result obj :=
  if negb (_edit_mode_engaged o)
  then Raise (ValueError "Please engage edit mode first before trying to change any values.")
  else Ok (set_snap_shot (Dict.set key v (_snap_shot o)) o).

(** [del d[k]] *)
Fixpoint del {V : Type} (k : string) (d : Dict.dict string V)
  : result (Dict.dict string V) :=
  match d with
  | [] => Raise (KeyError k)
  | (k', v) :: d' =>
      if String.eqb k k' then Ok d'
      else d'' ← del k d'; Ok ((k', v) :: d'')
  end.

(** [for exc in self._excludes: del snap_copy[exc]] *)
Fixpoint del_all {V : Type} (excludes : list string) (d : Dict.dict string V)
  : result (Dict.dict string V) :=
  match excludes with
  | [] => Ok d
  | exc :: more => d' ← del exc d; del_all more d'
  end.

(** [v[0] if len(v) == 1 else v] *)
Definition unwrap_single (v : value) : prog value :=
  n ← py_len v;
  if Nat.eqb n 1 then py_item 0 v else Ret v.

(** The refreshed snapshot
[[
    {k: v[0] if len(v) == 1 else v
     for k, v in zip(self._snap_shot.keys(), <what get_... returned>)}
]] *)
Definition refreshed (keys : list string) (returned : list value)
  : prog (Dict.dict string value) :=
  values ← map_prog unwrap_single (take (List.length keys) returned);
  Ret (Dict.of_items (zip keys values)).

(** The end of the three [finalize_edit] methods, up to the call of
    [update_...]: the snapshot without the excluded keys and with the
    notes joined. *)
Definition snap_copy (o : obj) : prog (Dict.dict string value) :=
  copy ← lift (del_all (_excludes o) (_snap_shot o));
  notes ← lift (SearchEngine.subscript id copy "notes");
  joined ← py_join (String (Py.chr 10) "") notes;
  Ret (Dict.set "notes" (VStr joined) copy).

Definition finalize_with (update_ : Z -> Dict.dict string value -> prog unit) (o : obj)
  : prog obj :=
  (* self._edit_mode_engaged = False *)
  let o := Obj (nb o) (_table o) (_excludes o) (_snap_shot o) false (_edit_lock_acquired o) in
  _ ← release_edit_lock (nb o) (_table o);
  copy ← snap_copy o;
  _ ← update_ (nb o) copy;
  (* self._edit_lock_acquired = False *)
  Ret (Obj (nb o) (_table o) (_excludes o) (_snap_shot o) false false).

(** *** [Document] *)

Module Document.
Definition init (nb : Z) : obj :=
  base_init nb "Documents" ["cases"]
    [ ("name", VStr ""); ("description", VStr ""); ("notes", VList [VStr ""]);
      ("path", VStr ""); ("cases", VList []) ].

Definition update (o : obj) : prog obj :=
  let keys := Dict.keys (_snap_shot o) in
  returned ← get_documents (nb o) keys;
  snap ← refreshed keys returned;
  Ret (set_snap_shot snap o).

Definition finalize_edit (o : obj) : prog obj := finalize_with update_documents o.

Definition delete (o : obj) : prog unit := delete_document (nb o).
End Document.

(** *** [Case] *)

Module Case.
Definition init (nb : Z) : obj :=
  base_init nb "Cases" []
    [ ("name", VStr ""); ("description", VStr ""); ("notes", VList [VStr ""]);
      ("persons", VList []); ("documents", VList []) ].

Definition update (o : obj) : prog obj :=
  let keys := Dict.keys (_snap_shot o) in
  returned ← get_cases (nb o) keys;
  snap ← refreshed keys returned;
  Ret (set_snap_shot snap o).

Definition finalize_edit (o : obj) : prog obj := finalize_with update_cases o.

Definition delete (o : obj) : prog unit := delete_case (nb o).
End Case.

(** *** [Person] *)

Module Person.
Definition init (nb : Z) : obj :=
  base_init nb "Persons" ["cases"]
    [ ("first_name", VStr ""); ("last_name", VStr ""); ("address", VStr "");
      ("birth_date", VStr ""); ("contact_info", VStr ""); ("gender", VStr "");
      ("description", VStr ""); ("notes", VList []); ("can_be_lawyer", VInt 0);
      ("cases", VList []) ].

Definition update (o : obj) : prog obj :=
  let keys := Dict.keys (_snap_shot o) in
  returned ← get_persons (nb o) keys;
  snap ← refreshed keys returned;
  Ret (set_snap_shot snap o).

(** The property [can_be_lawyer] and its setter *)
Definition can_be_lawyer (o : obj) : prog (bool * obj) :=
  vo ← _get_value update "can_be_lawyer" o;
  Ret (match fst vo with
       | VInt 1 => true
       | _ => false
       end, snd vo).

Definition set_can_be_lawyer (b : bool) (o : obj) : result obj :=
  _edit_value "can_be_lawyer" (VInt (if b then 1 else 0)) o.

Definition finalize_edit (o : obj) : prog obj := finalize_with update_persons o.

Definition delete (o : obj) : prog unit := delete_person (nb o).
End Person.

End DbObj.

(** ** The refresh of the window: [update_data] of [src/common/main_gui.py] *)

Module Gui.

Section update_dict_if_absent.
Context {K V : Type} `{EqDecision K}.
(** [obj.update()]: the object refreshed, or what the refresh raises.
    The refresh reads the database and does not write it. *)
Variable update : V -> result V.

(** [key not in new_data] *)
Definition absent (new_data : Dict.dict K V) (key : K) : bool :=
  match Dict.get key new_data with
  | Some _ => false
  | None => true
  end.

(** The second loop; the state is [original_dict]. *)
Fixpoint refresh_items (items : list (K * V)) (original_dict : Dict.dict K V)
  : result (Dict.dict K V) :=
  match items with
  | [] => Ok original_dict
  | (key, v) :: more =>
      match Dict.get key original_dict with
      | Some o =>
          o' ← update o;
          refresh_items more (Dict.set key o' original_dict)
      | None => refresh_items more (Dict.set key v original_dict)
      end
  end.

Definition update_dict_if_absent (original_dict new_data : Dict.dict K V)
  : result (Dict.dict K V) :=
  let kept := filter (fun kv => negb (absent new_data (fst kv))) original_dict in
  refresh_items new_data kept.
End update_dict_if_absent.

End Gui.

(** ** Notions that the properties are stated with *)

(** *** The matcher *)

(** The loop of a starred body, on its own. *)
Definition star_loop (greedy : bool) (body : Re.regex)
    (k : Re.mstate -> option Re.mstate) : nat -> Re.mstate -> option Re.mstate :=
  fix loop (n : nat) (st : Re.mstate) {struct n} : option Re.mstate :=
    match n with
    | 0 => k st
    | S n' =>
        let more (_ : unit) :=
          Re.run body st
            (fun st' => if Re.pos st' =? Re.pos st then None else loop n' st') in
        if greedy then
          match more tt with
          | Some st' => Some st'
          | None => k st
          end
        else
          match k st with
          | Some st' => Some st'
          | None => more tt
          end
    end.

(** A match is a span of the input. *)
Definition is_span (input : string) (m : Re.rmatch) : Prop :=
  Re.m_string m = input /\ Re.m_start m <= Re.m_end m.

(** The matches lie end to end from [a] to [b]. *)
Inductive tiles : nat -> list Re.rmatch -> nat -> Prop :=
| tiles_nil (a : nat) : tiles a [] a
| tiles_cons (m : Re.rmatch) (ms : list Re.rmatch) (b : nat) :
    tiles (Re.m_end m) ms b -> tiles (Re.m_start m) (m :: ms) b.

(** The pattern consumes the entire input: its matches lie end to end
    from the first character to the last and their texts make up the
    input. *)
Definition consumed_by (rejects : Re.regex) (input : string) : Prop :=
  let matches := Re.finditer rejects input in
  tiles 0 matches (String.length input) /\
  String.concat "" (map Re.group0 matches) = input.

(** The grammar consumes the entire input: the table pattern has a
    match and consumes it. *)
Definition consumes_entire_input (input : string) : Prop :=
  Re.finditer SearchEngine._table_rejects input <> [] /\
  consumed_by SearchEngine._table_rejects input.

(** *** Matching the text of a match again *)

(** A pattern without look-ahead. *)
Fixpoint look_free (r : Re.regex) : bool :=
  match r with
  | Re.Eps | Re.Chr _ | Re.Eos => true
  | Re.Seq r1 r2 | Re.Alt r1 r2 => look_free r1 && look_free r2
  | Re.Star _ body | Re.Grp _ body => look_free body
  | Re.Look _ => false
  end.

(** The first [n] characters of a string. *)
Fixpoint take (n : nat) (s : string) : string :=
  match n, s with
  | S n', String c s' => String c (take n' s')
  | _, _ => EmptyString
  end.

(** A state of a run on the input and the state of a run on the part of
    the input from [p] to [e] that stands at the same place. *)
Definition same_place (p e : nat) (x x' : Re.mstate) : Prop :=
  Re.pos x = Re.pos x' + p /\ Re.rest x' = take (e - Re.pos x) (Re.rest x).

(** A state further on in the same input. *)
Definition handed (st st1 : Re.mstate) : Prop :=
  Re.pos st <= Re.pos st1 /\
  Re.pos st1 + String.length (Re.rest st1) = Re.pos st + String.length (Re.rest st).

(** The run of [r] from [st'] on the part of the input between [p] and
    [e] can go the way that the run from [st] went to [st1]. *)
Definition follows (r : Re.regex) (st st1 : Re.mstate) : Prop :=
  forall p e st',
    same_place p e st st' -> Re.pos st1 <= e ->
    exists st1',
      same_place p e st1 st1' /\ handed st' st1' /\
      forall k2, k2 st1' <> None -> Re.run r st' k2 <> None.

Definition loop_follows (greedy : bool) (body : Re.regex) (st st1 : Re.mstate) : Prop :=
  forall p e st',
    same_place p e st st' -> Re.pos st1 <= e ->
    exists st1',
      same_place p e st1 st1' /\ handed st' st1' /\
      forall k2 n2, k2 st1' <> None -> String.length (Re.rest st') < n2 ->
                    star_loop greedy body k2 n2 st' <> None.

(** The text of a match, given to the pattern on its own, matches. *)
Definition rematches (r : Re.regex) (m : Re.rmatch) : Prop :=
  Re.match_ r (Re.group0 m) <> None.

(** The clause that [_parse_user_input] makes of the text of one match of
    the table pattern: the text matches the table pattern again, the
    first five groups are the main part, and the sixth group is either
    a bare bar of at most three characters, which gives no sub-terms,
    or is consumed entirely by the sub-term pattern, whose matches are
    the sub-terms. *)
Definition clause_of_match (main_match : string)
    (clause : SearchEngine.parsed_clause) : Prop :=
  exists m,
    Re.match_ SearchEngine._table_rejects main_match = Some m /\
    fst clause = SearchEngine.MainClause (Re.group 1 m) (Re.group 2 m) (Re.group 3 m)
                   (Re.group 4 m) (Re.group 5 m) /\
    let sub_string := Py.fmt (Re.group 6 m) in
    if (String.length sub_string <=? 3) && Py.contains_char "|" sub_string
    then snd clause = []
    else snd clause = map SearchEngine.term_of_groups
                        (Re.finditer SearchEngine._search_term_rejects sub_string) /\
         consumed_by SearchEngine._search_term_rejects sub_string.

(** A parse of the entire input: the grammar consumes the input and
    every match of the table pattern, in order, has its clause. *)
Definition parses_entire_input (input : string)
    (parsed : list SearchEngine.parsed_clause) : Prop :=
  consumes_entire_input input /\
  Forall2 clause_of_match
    (map Re.group0 (Re.finditer SearchEngine._table_rejects input)) parsed.

(** *** The ranked query *)

(** The searchable attributes of a group, each with its table, in the
    order of declaration. *)
Definition attributes (tables_and_columns : Dict.dict string (list string))
  : list (string * string) :=
  flat_map (fun tc => map (pair (fst tc)) (snd tc)) tables_and_columns.

(** The arms of the CASE expression that the loops of
    [_generate_full_query] build. *)
Definition case_arms (tables_and_columns : Dict.dict string (list string)) : list string :=
  fst (SearchEngine.case_tables (SearchEngine.total_columns tables_and_columns)
         tables_and_columns [] 0).

Definition when_exact (t c : string) (weight : Z) : string :=
  "WHEN " +:+ t +:+ "." +:+ c +:+ " = ? THEN " +:+ Py.str_of_int weight.

Definition when_regex (t c : string) (weight : Z) : string :=
  "WHEN " +:+ t +:+ "." +:+ c +:+ " REGEXP ? THEN " +:+ Py.str_of_int weight.

(** The arms for a list of attributes, the first of which has index [k]. *)
Fixpoint arms_from (N k : nat) (attrs : list (string * string)) : list string :=
  match attrs with
  | [] => []
  | (t, c) :: more =>
      when_exact t c (Z.of_nat N + 2 - Z.of_nat k)
        :: when_regex t c (Z.of_nat N - Z.of_nat k)
        :: arms_from N (S k) more
  end.

(** *** The sub-terms of a vague clause *)

(** The distinct elements of a list in the order in which they first
    appear, leaving out those of [seen]. *)
Fixpoint first_occurrences {A : Type} `{EqDecision A} (seen l : list A) : list A :=
  match l with
  | [] => []
  | x :: l' =>
      if decide (x ∈ seen) then first_occurrences seen l'
      else x :: first_occurrences (x :: seen) l'
  end.

(** The sub-terms of a clause that name a column: those that are not a
    bare combinator. *)
Definition named_terms (search_terms : list SearchEngine.search_term)
  : list SearchEngine.search_term :=
  filter (fun t => negb (SearchEngine.truthy (SearchEngine.t_flag t))) search_terms.

(** The value that a vague clause binds for a column: that of the last
    sub-term that names the column. *)
Definition last_value_for (column : option string)
    (search_terms : list SearchEngine.search_term) : option (option string) :=
  option_map SearchEngine.t_value
    (List.find (fun t => bool_decide (column = SearchEngine.t_column t))
       (rev (named_terms search_terms))).

(** The item that the dict comprehension makes of a sub-term. *)
Definition extra_item (t : SearchEngine.search_term)
  : option string * SearchEngine.extra_term :=
  (SearchEngine.t_column t,
   (if SearchEngine.is_str (SearchEngine.t_combinator t) "|" then "OR" else "AND",
    SearchEngine.is_str (SearchEngine.t_operator t) ":",
    SearchEngine.t_value t)).

(** The fold of [Dict.of_items], from any dictionary. *)
Definition fold_items {K V : Type} `{EqDecision K} (l : list (K * V))
    (d : Dict.dict K V) : Dict.dict K V :=
  fold_left (fun d kv => Dict.set (fst kv) (snd kv) d) l d.

(** *** Rejection *)

(** A compiled result is a rejection when it raises or holds no SQL. *)
Definition rejected (r : result (list SearchEngine.compiled)) : Prop :=
  match r with
  | Raise _ => True
  | Ok queries => Forall (fun q => SearchEngine.c_sql q = "") queries
  end.

(** *** Locks *)

(** While the marker is there, some caller is in its critical section. *)
Definition marker_has_holder (s : DatabaseAccess.system) : Prop :=
  Locks.write_lock (DatabaseAccess.files s) = true ->
  exists i o p,
    DatabaseAccess.callers s !! i = Some (o, p) /\ DatabaseAccess.holds p = true.

(** Caller [i] is alone inside its [with] block: it is between [yield]
    and the end of [finally], the marker exists, and every other caller
    waits for the marker or is done. *)
Definition alone_inside (i : nat) (s : DatabaseAccess.system) : Prop :=
  (exists o p, DatabaseAccess.callers s !! i = Some (o, p) /\ DatabaseAccess.holds p = true) /\
  Locks.write_lock (DatabaseAccess.files s) = true /\
  forall j o p,
    j <> i -> DatabaseAccess.callers s !! j = Some (o, p) ->
    p = Locks.Waiting \/ Locks.is_done p = true.

(** Caller [i] has left its block. *)
Definition has_left (i : nat) (s : DatabaseAccess.system) : Prop :=
  exists o out, DatabaseAccess.callers s !! i = Some (o, Locks.Done out).

(** A call that goes through [acquire_read_lock]. *)
Definition follows_read_lock_discipline (o : DatabaseAccess.op) : Prop :=
  forall (p : Locks.pc) (f : Locks.fs),
    DatabaseAccess.op_step o p f
    = Locks.lock_step Locks.ReadLock (DatabaseAccess.body_of o) p f.

(** *** Search results *)

Definition no_documents (returns : list DatabaseAccess.search_entry) : Prop :=
  Forall (fun entry => fst (fst entry) <> "Documents") returns.

(** A database that answers every statement with the same two rows of
    three keys. *)
Definition two_rows (sql : string) (params : list SearchEngine.param)
  : result (list DatabaseAccess.row) :=
  Ok [[Some 1%Z; Some 10%Z; Some 100%Z]; [Some 2%Z; Some 10%Z; Some 200%Z]].

(** *** Statements and their parameters *)

(** The number of placeholders [?] in a statement. *)
Fixpoint placeholders (sql : string) : nat :=
  match sql with
  | EmptyString => 0
  | String c s => (if Ascii.eqb c "?" then 1 else 0) + placeholders s
  end.

(** A name that holds no [?]. *)
Definition plain (name : string) : Prop := placeholders name = 0.

(** The sub-terms that [_generate_query] reads: those before the first
    bare combinator. *)
Fixpoint explicit_terms (terms : list SearchEngine.search_term)
  : list SearchEngine.search_term :=
  match terms with
  | [] => []
  | t :: more =>
      if SearchEngine.truthy (SearchEngine.t_flag t) then []
      else t :: explicit_terms more
  end.

(** The parameter that a value gives once stripped. *)
Definition stripped (value : option string) : SearchEngine.param :=
  option_map Py.strip value.

(** The names of a schema: its tables and their columns. *)
Definition plain_schema (d : list (string * list string)) : Prop :=
  Forall (fun tc => plain (fst tc) /\ Forall plain (snd tc)) d.

(** The sub-terms of a ranked query: the columns they name and the
    words [AND] and [OR]. *)
Definition plain_extra (extra : Dict.dict (option string) SearchEngine.extra_term) : Prop :=
  Forall (fun item => plain (Py.fmt (fst item)) /\ plain (fst (fst (snd item)))) extra.

(** The tables of a group that declare a column. *)
Definition declaring (column : option string)
    (tables_and_columns : list (string * list string)) : list (string * list string) :=
  filter (fun tc => SearchEngine.in_columns column (snd tc)) tables_and_columns.

(** A compiled query that ranks the [n] columns of the group of [t0]
    for the value of [main], with the sub-terms [terms], and returns
    [rets]. *)
Definition ranked_over (t0 : string) (n : nat) (rets : list string)
    (main : SearchEngine.main_clause) (terms : list SearchEngine.search_term)
    (q : SearchEngine.compiled) : Prop :=
  SearchEngine.c_tables q = [t0] /\
  Py.startswith (SearchEngine.c_sql q)
    ("SELECT " +:+ t0 +:+ ".nb, NULL AS relevance, CASE ") = true /\
  SearchEngine.c_params q
  = repeat (Some (".*" +:+ Py.fmt (SearchEngine.m_value main) +:+ ".*")) (3 * n)
      ++ map (fun item => snd (snd item)) (SearchEngine.normalized_extra terms) /\
  SearchEngine.c_ret_vals q = [Some rets].

(** The state of the loop of [get_sql_query_from_user_input] is sound
    when a pending join has a query to join onto. *)
Definition join_has_target (st : list SearchEngine.compiled * bool) : Prop :=
  snd st = true -> fst st <> [].

(** The main part of a clause as the first term of a join: the loop of
    the join reads [("&", *main[2:], None)]. *)
Definition main_as_term (main : SearchEngine.main_clause) : SearchEngine.search_term :=
  SearchEngine.SearchTerm (Some "&") (SearchEngine.m_column main)
    (SearchEngine.m_operator main) (SearchEngine.m_value main) None.

(** *** The change log *)

(** The three characters of the change log. *)
Definition marker_chars : gset ascii := {[ Py.chr 9; Py.chr 10; " "%char ]}.

(** No caller is in its critical section: each one waits or is done. *)
Definition nobody_holds (s : DatabaseAccess.system) : Prop :=
  Forall (fun c => snd c = Locks.Waiting \/ Locks.is_done (snd c) = true)
    (DatabaseAccess.callers s).

(** *** The record methods *)

(** A method that only asks: each call that it makes is a call of
    [_query], none is a call of [_execute] or of [release_edit_lock]. *)
Inductive read_only {A : Type} : Facade.prog A -> Prop :=
| read_only_ret (a : A) : read_only (Facade.Ret a)
| read_only_throw (e : Facade.raised) : read_only (Facade.Throw e)
| read_only_query (sql : string) (params : list Facade.value)
    (k : list Facade.row -> Facade.prog A) :
    (forall rows, read_only (k rows)) -> read_only (Facade.Query sql params k).

(** An engine with one person, number 7, who is in the cases 1 and 4;
    it takes every statement and keeps nothing. *)
Definition one_person (sql : string) (params : list Facade.value) (d : unit)
  : result (list Facade.row) :=
  if Py.startswith sql "SELECT cp.case_nb" then Ok [[Facade.VInt 1]; [Facade.VInt 4]]
  else if Py.endswith sql " = 7" then Ok [[Facade.VStr "Jane"; Facade.VStr "met twice"]]
  else Ok [].

Definition take_all (sql : string) (params : list Facade.value) (d : unit)
  : result (option Z * unit) := Ok (None, d).

Definition no_files (path : string) (d : unit) : unit := d.

(** An engine that keeps the links of the persons to the cases, as
    pairs of the numbers of a case and of a person, and has the schema
    of the repository: it deletes the links of a person, and rejects a
    link that is written without its side. *)
Definition side_is_required (sql : string) (params : list Facade.value)
    (links : list (Z * Z)) : result (option Z * list (Z * Z)) :=
  if Py.startswith sql "DELETE FROM CasePeople WHERE person_nb" then
    match params with
    | [Facade.VInt person] =>
        Ok (None, filter (fun link => negb (Z.eqb (snd link) person)) links)
    | _ => Raise (OperationalError "Incorrect number of bindings supplied")
    end
  else if Py.startswith sql "INSERT INTO CasePeople (case_nb, person_nb) VALUES" then
    Raise (IntegrityError "NOT NULL constraint failed: CasePeople.side")
  else Ok (None, links).

Definition one_person_links (sql : string) (params : list Facade.value)
    (links : list (Z * Z)) : result (list Facade.row) :=
  Ok (map (fun link => [Facade.VInt (fst link)]) links).

Definition no_files_links (path : string) (links : list (Z * Z)) : list (Z * Z) := links.

(** The columns that [get_persons] asks the table of persons for. *)
Definition person_columns (attrs : list string) : list string :=
  match Facade.index_of "cases" attrs with
  | Some i => delete i attrs
  | None => attrs
  end.

(** The three statements of [get_persons], [get_cases] and
    [get_documents] that read one row of the record. *)
Definition persons_query (number : Z) (columns : list string) : string :=
  "SELECT " +:+ Py.join ", " (map (fun attr => "p." +:+ attr) columns)
    +:+ " FROM Persons p WHERE p.nb = " +:+ Py.str_of_int number.

Definition cases_query (number : Z) (attr : string) : string :=
  "SELECT c." +:+ attr +:+ " FROM Cases c WHERE c.nb = " +:+ Py.str_of_int number.

Definition documents_query (number : Z) (attr : string) : string :=
  "SELECT d." +:+ attr +:+ " FROM Documents d WHERE d.nb = " +:+ Py.str_of_int number.

(** The assignments and the parameters of the [UPDATE] that the columns
    of [kwargs] make. *)
Definition assignments (kwargs : list (string * Facade.value)) : list string :=
  map (fun kv => fst kv +:+ " = ?") kwargs.

Definition update_statement (table : string) (kwargs : list (string * Facade.value)) : string :=
  "UPDATE " +:+ table +:+ " SET " +:+ Py.join ", " (assignments kwargs) +:+ " WHERE nb = ?".

(** All the keys are columns of the list. *)
Definition all_allowed (columns : list string) (kwargs : list (string * Facade.value)) : Prop :=
  Forall (fun kv => Facade.allowed columns (fst kv) = true) kwargs.

(** The predicate on the first character of every match of a pattern,
    when the pattern begins with a character. *)
Fixpoint leading (r : Re.regex) : option (ascii -> bool) :=
  match r with
  | Re.Chr p => Some p
  | Re.Seq r1 _ => leading r1
  | Re.Grp _ body => leading body
  | _ => None
  end.

(** A string of digits and minus signs. *)
Fixpoint numeric (s : string) : bool :=
  match s with
  | EmptyString => true
  | String c s' => (Py.isdigit c || Ascii.eqb c "-") && numeric s'
  end.

(** *** The record objects *)

(** The line feed that joins the notes. *)
Definition line_feed : string := String (Py.chr 10) "".

(** The snapshot of a person. *)
Definition person_snap_shot (first_name last_name address birth_date contact_info
    gender description notes can_be_lawyer cases : Facade.value)
  : Dict.dict string Facade.value :=
  [ ("first_name", first_name); ("last_name", last_name); ("address", address);
    ("birth_date", birth_date); ("contact_info", contact_info); ("gender", gender);
    ("description", description); ("notes", notes); ("can_be_lawyer", can_be_lawyer);
    ("cases", cases) ].

(** The snapshot of a case. *)
Definition case_snap_shot (name description notes persons documents : Facade.value)
  : Dict.dict string Facade.value :=
  [ ("name", name); ("description", description); ("notes", notes);
    ("persons", persons); ("documents", documents) ].

(** An engine with one case, which has one person and no document. *)
Definition one_case (sql : string) (params : list Facade.value) (d : unit)
  : result (list Facade.row) :=
  if Py.startswith sql "SELECT c.name" then Ok [[Facade.VStr "Estate"]]
  else if Py.startswith sql "SELECT c." then Ok [[Facade.VStr ""]]
  else if Py.startswith sql "SELECT cp.person_nb" then Ok [[Facade.VInt 7]]
  else if Py.startswith sql "SELECT cp.lawyer_nb" then Ok [[Facade.VInt 9; Facade.VInt 1]]
  else Ok [].

(** What [obj.update()] makes of an object, when it returns. *)
Definition refreshed_value {V : Type} (update : V -> result V) (o : V) : option V :=
  match update o with
  | Ok o' => Some o'
  | Raise _ => None
  end.

(** *** The statements on the persons *)

(** The columns of a person that [update_persons] writes. *)
Definition person_columns_written : list string :=
  ["last_name"; "first_name"; "address"; "birth_date"; "contact_info";
   "gender"; "description"; "notes"; "can_be_lawyer"].

(** A mutating statement on [Persons] as the facade sends it: the
    [INSERT] of [add_person], the [UPDATE] of [update_persons] for
    columns of the table, the [DELETE] of [delete_person]. *)
Inductive person_statement : string -> Prop :=
| person_inserted :
    person_statement
      ("INSERT INTO Persons "
         +:+ "(last_name, first_name, address, birth_date, contact_info, gender, description, notes, can_be_lawyer) "
         +:+ "VALUES (?, ?, ?, ?, ?, ?, ?, ?, ?)")
| person_updated (kwargs : list (string * Facade.value)) :
    kwargs <> [] ->
    all_allowed person_columns_written kwargs ->
    person_statement (update_statement "Persons" kwargs)
| person_deleted (number : Z) :
    person_statement ("DELETE FROM Persons WHERE nb = " +:+ Py.str_of_int number).


(** * Properties *)

(** ** Strings *)

Lemma append_nil_l (t : string) : "" +:+ t = t.
Proof. reflexivity. Qed.

Lemma append_cons (c : ascii) (s t : string) : String c s +:+ t = String c (s +:+ t).
Proof. reflexivity. Qed.

Lemma append_nil_r (s : string) : s +:+ "" = s.
Proof. induction s as [|c s IH]; [reflexivity | by rewrite append_cons, IH]. Qed.

Lemma append_assoc (s t u : string) : (s +:+ t) +:+ u = s +:+ (t +:+ u).
Proof. induction s as [|c s IH]; [reflexivity | by rewrite !append_cons, IH]. Qed.

Lemma length_append (s t : string) :
  String.length (s +:+ t) = String.length s + String.length t.
Proof. induction s as [|c s IH]; [reflexivity | rewrite append_cons; simpl; by rewrite IH]. Qed.

Lemma substring_zero_length (s : string) : substring 0 (String.length s) s = s.
Proof. induction s as [|c s IH]; simpl; [reflexivity | by rewrite IH]. Qed.

Lemma substring_split (s : string) (a m n : nat) :
  substring a m s +:+ substring (a + m) n s = substring a (m + n) s.
Proof.
  revert a m n. induction s as [|c s IH]; intros a m n.
  - destruct a, m, n; reflexivity.
  - destruct a as [|a].
    + destruct m as [|m]; simpl.
      * destruct n; reflexivity.
      * rewrite <- (IH 0 m n). reflexivity.
    + simpl. apply IH.
Qed.

Lemma slice_join (s : string) (a b c : nat) :
  a <= b -> b <= c -> Py.slice a b s +:+ Py.slice b c s = Py.slice a c s.
Proof.
  intros Hab Hbc. unfold Py.slice.
  replace (c - a) with ((b - a) + (c - b)) by lia.
  rewrite <- substring_split. do 2 f_equal. lia.
Qed.

Lemma slice_empty (s : string) (a : nat) : Py.slice a a s = "".
Proof.
  unfold Py.slice. rewrite Nat.sub_diag.
  revert a. induction s as [|c s IH]; intros [|a]; simpl; auto.
Qed.

(** ** The matcher only moves forward *)

Section matcher.
Import Re.

Lemma run_star greedy body st k :
  run (Star greedy body) st k
  = star_loop greedy body k (S (String.length (rest st))) st.
Proof. reflexivity. Qed.

(** What reaches the continuation is a state at or after the start. *)
Lemma run_forward (r : regex) :
  forall (st : mstate) (k : mstate -> option mstate) (res : mstate),
    run r st k = Some res ->
    exists st1, pos st <= pos st1 /\ k st1 = Some res.
Proof.
  induction r as [|p|r1 IH1 r2 IH2|r1 IH1 r2 IH2|greedy body IH|i body IH| |body IH];
    intros st k res Hrun.
  - eauto.
  - simpl in Hrun. destruct (rest st) as [|c s']; [discriminate|].
    destruct (p c); [|discriminate].
    eexists; split; [|exact Hrun]. simpl. lia.
  - simpl in Hrun. apply IH1 in Hrun as (st1 & Hle1 & Hrun).
    apply IH2 in Hrun as (st2 & Hle2 & Hrun).
    exists st2. split; [lia | assumption].
  - simpl in Hrun. destruct (run r1 st k) eqn:E1.
    + inversion Hrun; subst. eauto.
    + eauto.
  - rewrite run_star in Hrun. revert res Hrun.
    generalize (S (String.length (rest st))) as n.
    intros n. revert st. induction n as [|n IHn]; intros st res Hrun.
    + exists st. split; [lia | exact Hrun].
    + assert (Hmore : forall res',
        run body st (fun st' => if pos st' =? pos st then None
                                else star_loop greedy body k n st') = Some res' ->
        exists st1, pos st <= pos st1 /\ k st1 = Some res').
      { intros res' Hm. apply IH in Hm as (st1 & Hle & Hm).
        destruct (pos st1 =? pos st); [discriminate|].
        apply IHn in Hm as (st2 & Hle2 & Hm). exists st2. split; [lia|assumption]. }
      simpl in Hrun. destruct greedy.
      * match type of Hrun with
        | match ?m with _ => _ end = _ => remember m as tried eqn:Em in Hrun
        end.
        destruct tried as [res'|].
        -- inversion Hrun; subst. apply Hmore. symmetry. exact Em.
        -- exists st. split; [lia | exact Hrun].
      * destruct (k st) eqn:Ek.
        -- inversion Hrun; subst. exists st. split; [lia | exact Ek].
        -- apply Hmore. exact Hrun.
  - simpl in Hrun. apply IH in Hrun as (st1 & Hle & Hrun).
    eexists; split; [|exact Hrun]. simpl. lia.
  - simpl in Hrun. destruct (at_dollar (rest st)); [eauto | discriminate].
  - simpl in Hrun. destruct (run body st Some); [|discriminate].
    eexists; split; [|exact Hrun]. simpl. lia.
Qed.

Lemma match_here_span r input scan_start must_advance p s m :
  match_here r input scan_start must_advance p s = Some m ->
  m_string m = input /\ m_start m = p /\ p <= m_end m.
Proof.
  unfold match_here. intros H.
  destruct (run r _ _) as [st|] eqn:Hrun; [|discriminate].
  inversion H; subst; simpl.
  apply run_forward in Hrun as (st1 & Hle & Hk). simpl in Hle.
  destruct (must_advance && _); [discriminate|]. inversion Hk; subst. auto.
Qed.

Lemma scan_span r input scan_start must_advance s :
  forall p m,
    scan r input scan_start must_advance p s = Some m ->
    m_string m = input /\ p <= m_start m /\ m_start m <= m_end m.
Proof.
  induction s as [|c s IH]; intros p m H; simpl in H.
  - destruct (match_here _ _ _ _ _ _) eqn:E; [|discriminate].
    inversion H; subst. apply match_here_span in E as (? & ? & ?). split; [done | lia].
  - destruct (match_here _ _ _ _ _ _) eqn:E.
    + inversion H; subst. apply match_here_span in E as (? & ? & ?). split; [done | lia].
    + apply IH in H as (? & ? & ?). split; [done | lia].
Qed.

Lemma finditer_from_spans r input fuel :
  forall start must_advance,
    Forall (is_span input) (finditer_from fuel r input start must_advance).
Proof.
  induction fuel as [|fuel IH]; intros start must_advance; simpl; [constructor|].
  destruct (String.length input <? start); [constructor|].
  destruct (scan _ _ _ _ _ _) as [m|] eqn:E; [|constructor].
  constructor; [|apply IH].
  apply scan_span in E as (? & ? & ?). by split.
Qed.

Lemma finditer_spans r input : Forall (is_span input) (finditer r input).
Proof. apply finditer_from_spans. Qed.
End matcher.

(** ** Matches that lie end to end make up the input *)

Section parse.
Import Re SearchEngine.

Lemma consumed_upto_tiles (ms : list rmatch) :
  forall a b, consumed_upto a ms = Some b <-> tiles a ms b.
Proof.
  induction ms as [|m ms IH]; intros a b; simpl.
  - split.
    + intros [= ->]. constructor.
    + inversion 1. reflexivity.
  - destruct (Nat.eqb_spec (m_start m) a) as [Heq|Hne]; simpl.
    + subst a. rewrite IH. split; [by constructor | by inversion 1].
    + split; [discriminate | inversion 1; congruence].
Qed.

Lemma concat_cons (x : string) (l : list string) :
  String.concat "" (x :: l) = x +:+ String.concat "" l.
Proof.
  destruct l as [|y l]; simpl; [by rewrite append_nil_r | reflexivity].
Qed.

Lemma tiles_concat (input : string) (ms : list rmatch) :
  forall a b,
    tiles a ms b -> Forall (is_span input) ms ->
    a <= b /\ String.concat "" (map group0 ms) = Py.slice a b input.
Proof.
  induction ms as [|m ms IH]; intros a b Ht Hs.
  - inversion Ht; subst. split; [lia|]. simpl. by rewrite slice_empty.
  - inversion Ht as [|m' ms' b' Ht']; subst.
    apply Forall_cons in Hs as [[Hstr Hle] Hs'].
    destruct (IH _ _ Ht' Hs') as [Hle' Hcat].
    split; [lia|].
    change (map group0 (m :: ms)) with (group0 m :: map group0 ms).
    rewrite concat_cons, Hcat. unfold group0. rewrite Hstr.
    by apply slice_join.
Qed.

Lemma consumed_upto_whole (rejects : regex) (input : string) :
  consumed_upto 0 (finditer rejects input) = Some (String.length input) ->
  consumed_by rejects input.
Proof.
  intros Ec. apply consumed_upto_tiles in Ec. split; [exact Ec|].
  destruct (tiles_concat input _ _ _ Ec (finditer_spans rejects input)) as [_ ->].
  unfold Py.slice. rewrite Nat.sub_0_r. apply substring_zero_length.
Qed.

Lemma check_consumed_string_true (input : string) (all_matches : list string) :
  _check_consumed_string input _table_rejects = (all_matches, true) ->
  all_matches = map group0 (finditer _table_rejects input) /\
  consumes_entire_input input.
Proof.
  unfold _check_consumed_string, consumes_entire_input.
  destruct (finditer _table_rejects input) as [|m ms] eqn:E; [discriminate|].
  destruct (consumed_upto 0 (m :: ms)) as [last_end|] eqn:Ec; [|discriminate].
  intros [= <- Hlen]. apply Nat.eqb_eq in Hlen. subst last_end.
  split; [reflexivity|]. split; [discriminate|].
  rewrite <- E in Ec. by apply consumed_upto_whole.
Qed.

Lemma check_consumed_substring_true (input : string) (terms : list search_term) :
  _check_consumed_substring input _search_term_rejects = (terms, true) ->
  terms = map term_of_groups (finditer _search_term_rejects input) /\
  consumed_by _search_term_rejects input.
Proof.
  unfold _check_consumed_substring.
  destruct (finditer _search_term_rejects input) as [|m ms] eqn:E.
  - destruct (String.eqb_spec input "") as [->|Hne]; [|discriminate].
    intros [= <-]. split; [reflexivity|]. by vm_compute; split; [constructor|].
  - destruct (consumed_upto 0 (m :: ms)) as [last_end|] eqn:Ec; [|discriminate].
    intros [= <- Hlen]. apply Nat.eqb_eq in Hlen. subst last_end.
    split; [reflexivity|]. rewrite <- E in Ec. by apply consumed_upto_whole.
Qed.
End parse.

(** ** The text of a match matches again *)

Section rematch.
Import Re.

Lemma length_take (n : nat) (s : string) :
  String.length (take n s) = Nat.min n (String.length s).
Proof.
  revert n. induction s as [|c s IH]; intros [|n]; simpl; auto.
Qed.

Lemma take_substring (n : nat) (s : string) : substring 0 n s = take n s.
Proof.
  revert n. induction s as [|c s IH]; intros [|n]; simpl; auto. by rewrite IH.
Qed.

Lemma substring_drop (p n : nat) (s : string) :
  substring p n s = substring 0 n (Py.drop p s).
Proof.
  revert p n. induction s as [|c s IH]; intros [|p] n; simpl; auto.
  destruct n; reflexivity.
Qed.

Lemma handed_refl st : handed st st.
Proof. split; lia. Qed.

Lemma handed_trans st st1 st2 : handed st st1 -> handed st1 st2 -> handed st st2.
Proof. intros [? ?] [? ?]. split; lia. Qed.

Lemma star_stops greedy body k2 n2 st :
  k2 st <> None -> star_loop greedy body k2 n2 st <> None.
Proof.
  intros Hk2. destruct n2 as [|n2]; [exact Hk2|]. simpl. destruct greedy.
  - by destruct (run body st _).
  - by destruct (k2 st).
Qed.

Lemma at_dollar_take (n : nat) (s : string) :
  at_dollar s = true -> at_dollar (take n s) = true.
Proof.
  destruct s as [|c [|d s]]; simpl; try discriminate.
  - by destruct n.
  - destruct n as [|n]; [done|]. simpl. by destruct n.
Qed.

Lemma follows_here (r : regex) (st : mstate) :
  (forall st' k2, k2 st' <> None -> run r st' k2 <> None) ->
  follows r st st.
Proof.
  intros Hr p e st' Hsame _. exists st'.
  split; [exact Hsame|]. split; [apply handed_refl|]. intros k2. apply Hr.
Qed.

Lemma loop_follows_here greedy body (st : mstate) : loop_follows greedy body st st.
Proof.
  intros p e st' Hsame _. exists st'.
  split; [exact Hsame|]. split; [apply handed_refl|].
  intros k2 n2 Hk2 _. by apply star_stops.
Qed.

Lemma run_truncated (r : regex) :
  look_free r = true ->
  forall (st : mstate) (k : mstate -> option mstate) (res : mstate),
    run r st k = Some res ->
    exists st1, k st1 = Some res /\ handed st st1 /\ follows r st st1.
Proof.
  induction r as [|c|r1 IH1 r2 IH2|r1 IH1 r2 IH2|greedy body IH|i body IH| |body IH];
    intros Hfree st k res Hrun; simpl in Hfree.
  - exists st. split; [exact Hrun|]. split; [apply handed_refl|].
    apply follows_here. auto.
  - simpl in Hrun. destruct (rest st) as [|a s'] eqn:Hrest; [discriminate|].
    destruct (c a) eqn:Hc; [|discriminate].
    eexists. split; [exact Hrun|]. split.
    { unfold handed. rewrite Hrest. simpl. lia. }
    intros p e st' [Hpos Hrest'] He. simpl in He.
    rewrite Hrest in Hrest'.
    destruct (e - pos st) as [|n] eqn:Hn; [lia|]. simpl in Hrest'.
    exists (MState (S (pos st')) (take n s') (caps st')).
    split; [|split].
    + split; simpl; [lia|]. f_equal. lia.
    + unfold handed. rewrite Hrest'. simpl. lia.
    + intros k2 Hk2. simpl. by rewrite Hrest', Hc.
  - apply andb_prop in Hfree as [Hf1 Hf2]. simpl in Hrun.
    apply (IH1 Hf1) in Hrun as (st1 & Hrun & Hh1 & Hfol1).
    apply (IH2 Hf2) in Hrun as (st2 & Hrun & Hh2 & Hfol2).
    exists st2. split; [exact Hrun|]. split; [by eapply handed_trans|].
    intros p e st' Hsame He.
    destruct (Hfol1 p e st' Hsame) as (st1' & Hsame1 & Hh1' & Hr1).
    { destruct Hh2. lia. }
    destruct (Hfol2 p e st1' Hsame1 He) as (st2' & Hsame2 & Hh2' & Hr2).
    exists st2'. split; [exact Hsame2|]. split; [by eapply handed_trans|].
    intros k2 Hk2. simpl. apply Hr1. by apply Hr2.
  - apply andb_prop in Hfree as [Hf1 Hf2]. simpl in Hrun.
    destruct (run r1 st k) eqn:E1.
    + inversion Hrun; subst. apply (IH1 Hf1) in E1 as (st1 & Hk & Hh & Hfol).
      exists st1. split; [exact Hk|]. split; [exact Hh|].
      intros p e st' Hsame He.
      destruct (Hfol p e st' Hsame He) as (st1' & Hsame1 & Hh' & Hr).
      exists st1'. split; [exact Hsame1|]. split; [exact Hh'|].
      intros k2 Hk2. simpl. specialize (Hr k2 Hk2). by destruct (run r1 st' k2).
    + apply (IH2 Hf2) in Hrun as (st1 & Hk & Hh & Hfol).
      exists st1. split; [exact Hk|]. split; [exact Hh|].
      intros p e st' Hsame He.
      destruct (Hfol p e st' Hsame He) as (st1' & Hsame1 & Hh' & Hr).
      exists st1'. split; [exact Hsame1|]. split; [exact Hh'|].
      intros k2 Hk2. simpl. specialize (Hr k2 Hk2). by destruct (run r1 st' k2).
  - rewrite run_star in Hrun. specialize (IH Hfree).
    assert (Hloop : forall n st res,
      star_loop greedy body k n st = Some res ->
      exists st1, k st1 = Some res /\ handed st st1 /\ loop_follows greedy body st st1).
    { clear st res Hrun. intros n. induction n as [|n IHn]; intros st res Hrun.
      - exists st. split; [exact Hrun|]. split; [apply handed_refl|].
        apply loop_follows_here.
      - assert (Hstop : k st = Some res ->
          exists st1, k st1 = Some res /\ handed st st1 /\
                      loop_follows greedy body st st1).
        { intros Hk. exists st. split; [exact Hk|]. split; [apply handed_refl|].
          apply loop_follows_here. }
        assert (Hmore : forall res',
          run body st (fun st' => if pos st' =? pos st then None
                                  else star_loop greedy body k n st') = Some res' ->
          exists st1, k st1 = Some res' /\ handed st st1 /\
                      loop_follows greedy body st st1).
        { intros res' Hm. apply IH in Hm as (st1 & Hm & Hh1 & Hfol1).
          destruct (Nat.eqb_spec (pos st1) (pos st)) as [Heq|Hne]; [discriminate|].
          apply IHn in Hm as (st2 & Hk & Hh2 & Hfol2).
          exists st2. split; [exact Hk|]. split; [by eapply handed_trans|].
          intros p e st' Hsame He.
          destruct (Hfol1 p e st' Hsame) as (st1' & Hsame1 & Hh1' & Hr1).
          { destruct Hh2. lia. }
          destruct (Hfol2 p e st1' Hsame1 He) as (st2' & Hsame2 & Hh2' & Hr2).
          exists st2'. split; [exact Hsame2|]. split; [by eapply handed_trans|].
          intros k2 [|n2] Hk2 Hn2; [lia|].
          assert (Hbody : run body st'
                    (fun s => if pos s =? pos st' then None
                              else star_loop greedy body k2 n2 s) <> None).
          { apply Hr1. destruct Hsame as [Hp _], Hsame1 as [Hp1 _].
            destruct (Nat.eqb_spec (pos st1') (pos st')); [lia|].
            apply Hr2; [exact Hk2|]. destruct Hh1'. lia. }
          simpl. destruct greedy.
          - by destruct (run body st' _).
          - destruct (k2 st'); [discriminate | exact Hbody]. }
        simpl in Hrun. destruct greedy.
        + match type of Hrun with
          | match ?m with _ => _ end = _ => remember m as tried eqn:Em in Hrun
          end.
          destruct tried as [res'|].
          * inversion Hrun; subst. apply Hmore. symmetry. exact Em.
          * by apply Hstop.
        + destruct (k st) eqn:Ek.
          * inversion Hrun; subst. by apply Hstop.
          * by apply Hmore. }
    apply Hloop in Hrun as (st1 & Hk & Hh & Hfol).
    exists st1. split; [exact Hk|]. split; [exact Hh|].
    intros p e st' Hsame He.
    destruct (Hfol p e st' Hsame He) as (st1' & Hsame1 & Hh' & Hr).
    exists st1'. split; [exact Hsame1|]. split; [exact Hh'|].
    intros k2 Hk2. rewrite run_star. apply Hr; [exact Hk2 | lia].
  - simpl in Hrun. apply (IH Hfree) in Hrun as (st1 & Hk & Hh & Hfol).
    eexists. split; [exact Hk|]. split; [exact Hh|].
    intros p e st' Hsame He. simpl in He.
    destruct (Hfol p e st' Hsame He) as (st1' & Hsame1 & Hh' & Hr).
    exists (MState (pos st1') (rest st1') ((i, (pos st', pos st1')) :: caps st1')).
    split; [exact Hsame1|]. split; [exact Hh'|].
    intros k2 Hk2. simpl. by apply Hr.
  - simpl in Hrun. destruct (at_dollar (rest st)) eqn:Hd; [|discriminate].
    exists st. split; [exact Hrun|]. split; [apply handed_refl|].
    intros p e st' Hsame He. exists st'.
    split; [exact Hsame|]. split; [apply handed_refl|].
    intros k2 Hk2. simpl. destruct Hsame as [_ ->]. by rewrite at_dollar_take.
  - discriminate.
Qed.

Lemma drop_step (p : nat) (input : string) (c : ascii) (s : string) :
  Py.drop p input = String c s -> Py.drop (S p) input = s.
Proof.
  revert p. induction input as [|a input IH]; intros [|p] H; simpl in *;
    try discriminate.
  - by inversion H.
  - destruct p; [by destruct input; inversion H | by apply IH].
Qed.

Context (r : regex) (Hfree : look_free r = true) (input : string).

Lemma match_here_rematches scan_start must_advance p m :
  match_here r input scan_start must_advance p (Py.drop p input) = Some m ->
  rematches r m.
Proof.
  unfold match_here, rematches. intros H.
  destruct (run r _ _) as [res|] eqn:Hrun; [|discriminate].
  inversion H; subst; clear H.
  apply (run_truncated r Hfree) in Hrun as (st1 & Hk & Hh & Hfol).
  destruct (must_advance && _); [discriminate|]. inversion Hk; subst; clear Hk.
  unfold group0, Py.slice. simpl.
  set (text := substring p (pos res - p) input).
  destruct (Hfol p (pos res) (MState 0 text [])) as (st1' & _ & _ & Hr).
  { split; simpl; [lia|]. unfold text.
    by rewrite substring_drop, take_substring. }
  { lia. }
  unfold match_, match_here. simpl.
  specialize (Hr (fun st => Some st)).
  destruct (run r _ _); [discriminate|]. exfalso. by apply Hr.
Qed.

Lemma scan_rematches scan_start must_advance (s : string) :
  forall p m,
    s = Py.drop p input ->
    scan r input scan_start must_advance p s = Some m -> rematches r m.
Proof.
  induction s as [|c s IH]; intros p m Hs H; simpl in H.
  - destruct (match_here _ _ _ _ _ _) eqn:E; [|discriminate].
    inversion H; subst m. rewrite Hs in E. by eapply match_here_rematches.
  - destruct (match_here _ _ _ _ _ _) eqn:E.
    + inversion H; subst m. rewrite Hs in E. by eapply match_here_rematches.
    + apply (IH (S p)); [|exact H]. symmetry. by eapply drop_step.
Qed.

Lemma finditer_from_rematches fuel :
  forall start must_advance,
    Forall (rematches r) (finditer_from fuel r input start must_advance).
Proof.
  induction fuel as [|fuel IH]; intros start must_advance; simpl; [constructor|].
  destruct (String.length input <? start); [constructor|].
  destruct (scan _ _ _ _ _ _) as [m|] eqn:E; [|constructor].
  constructor; [|apply IH]. by eapply scan_rematches.
Qed.

Lemma finditer_rematches : Forall (rematches r) (finditer r input).
Proof. apply finditer_from_rematches. Qed.
End rematch.

(** ** C5: a parse consumes the whole input *)

Section whole_parse.
Import Re SearchEngine.

Lemma table_pattern_look_free : look_free _table_rejects = true.
Proof. reflexivity. Qed.

Lemma parse_matches_clauses (main_matches : list string) :
  forall parsed_results parsed,
    Forall (fun text => match_ _table_rejects text <> None) main_matches ->
    parse_matches main_matches parsed_results = Some parsed ->
    exists clauses,
      parsed = parsed_results ++ clauses /\
      Forall2 clause_of_match main_matches clauses.
Proof.
  induction main_matches as [|text more IH]; intros acc parsed Hre H; simpl in H.
  - inversion H; subst. exists []. split; [by rewrite app_nil_r | constructor].
  - apply Forall_cons in Hre as [Hm Hre].
    destruct (match_ _table_rejects text) as [m|] eqn:Em; [|done].
    set (sub_string := Py.fmt (group 6 m)) in *.
    destruct ((String.length sub_string <=? 3) && Py.contains_char "|" sub_string)
      eqn:Hbar; simpl in H.
    + apply (IH _ _ Hre) in H as (clauses & -> & Hall).
      eexists (_ :: clauses). split; [by rewrite <- app_assoc|].
      constructor; [|exact Hall]. exists m. split; [exact Em|].
      split; [reflexivity|]. cbv zeta. fold sub_string. by rewrite Hbar.
    + destruct (_check_consumed_substring sub_string _search_term_rejects)
        as [search_terms consumed] eqn:Ec.
      destruct consumed; simpl in H; [|discriminate].
      apply check_consumed_substring_true in Ec as [-> Hsub].
      apply (IH _ _ Hre) in H as (clauses & -> & Hall).
      eexists (_ :: clauses). split; [by rewrite <- app_assoc|].
      constructor; [|exact Hall]. exists m. split; [exact Em|].
      split; [reflexivity|]. cbv zeta. fold sub_string. rewrite Hbar. by split.
Qed.

(** C5.  When [_parse_user_input] returns a list of clauses, the grammar
    has consumed the entire input: the matches of the table pattern lie
    end to end from the first character to the last and their texts,
    put together, are the input; every one of the matches, in order,
    has its clause in the list, none is left out; and the sub-terms of
    a clause consume all that follows its main part.  So an input of
    which a part is left unconsumed gets [None], never the parse of a
    part of it. *)
Theorem parse_consumes_entire_input (user_input : string) (parsed : list parsed_clause) :
  _parse_user_input user_input = Some parsed ->
  parses_entire_input user_input parsed.
Proof.
  unfold _parse_user_input.
  destruct (_check_consumed_string user_input _table_rejects)
    as [main_matches consumed] eqn:E.
  destruct consumed; simpl; [|discriminate].
  apply check_consumed_string_true in E as [-> Hwhole].
  intros H. split; [exact Hwhole|].
  apply parse_matches_clauses in H as (clauses & -> & Hall); [exact Hall|].
  apply Forall_map.
  exact (finditer_rematches _table_rejects table_pattern_look_free user_input).
Qed.

Lemma parse_consumes_entire_input_witness :
  _parse_user_input "user[first_name]{last_name}=Doe & {gender}:Female"
  = Some [ (MainClause (Some "user") (Some "first_name") (Some "last_name")
              (Some "=") (Some "Doe "),
            [SearchTerm (Some "&") (Some "gender") (Some ":") (Some "Female") None]) ]
  /\ parses_entire_input "user[first_name]{last_name}=Doe & {gender}:Female"
       [ (MainClause (Some "user") (Some "first_name") (Some "last_name")
            (Some "=") (Some "Doe "),
          [SearchTerm (Some "&") (Some "gender") (Some ":") (Some "Female") None]) ].
Proof.
  assert (H : _parse_user_input "user[first_name]{last_name}=Doe & {gender}:Female"
              = Some [ (MainClause (Some "user") (Some "first_name") (Some "last_name")
                          (Some "=") (Some "Doe "),
                        [SearchTerm (Some "&") (Some "gender") (Some ":") (Some "Female") None]) ])
    by (vm_compute; reflexivity).
  split; [exact H | exact (parse_consumes_entire_input _ _ H)].
Defined.

(** The other way round: an input that is not consumed whole has no parse. *)
Corollary unconsumed_input_has_no_parse (user_input : string) :
  ~ consumes_entire_input user_input -> _parse_user_input user_input = None.
Proof.
  intros Hno. unfold _parse_user_input.
  destruct (_check_consumed_string user_input _table_rejects)
    as [main_matches consumed] eqn:E.
  destruct consumed; simpl; [|reflexivity].
  exfalso. apply Hno. by eapply check_consumed_string_true.
Qed.

(** A clause followed by something the grammar does not know: the
    clause alone would parse, the whole does not. *)
Example partial_match_rejected :
  _parse_user_input "user:Jane" <> None /\ _parse_user_input "user:Jane !" = None.
Proof. split; [vm_compute; discriminate | vm_compute; reflexivity]. Qed.
End whole_parse.

Section ranked_query.
Import Re SearchEngine.

(** ** C2 *)

Lemma bind_ok {A B : Type} (a : A) (k : A -> result B) : (x ← Ok a; k x) = k a.
Proof. reflexivity. Qed.

Lemma case_columns_spec (N : nat) (t : string) (cols : list string) :
  forall acc k,
    case_columns N t cols acc k
    = (acc ++ arms_from N k (map (pair t) cols), k + List.length cols).
Proof.
  induction cols as [|c cols IH]; intros acc k; simpl.
  - rewrite app_nil_r. f_equal. lia.
  - rewrite IH, <- app_assoc. replace (k + 1) with (S k) by lia.
    simpl. f_equal. lia.
Qed.

Lemma arms_from_app (N : nat) (l1 l2 : list (string * string)) :
  forall k, arms_from N k (l1 ++ l2)
            = arms_from N k l1 ++ arms_from N (k + List.length l1) l2.
Proof.
  induction l1 as [|[t c] l1 IH]; intros k; simpl.
  - by rewrite Nat.add_0_r.
  - rewrite IH. replace (k + S (List.length l1)) with (S k + List.length l1) by lia.
    reflexivity.
Qed.

Lemma case_tables_spec (N : nat) (d : Dict.dict string (list string)) :
  forall acc k,
    case_tables N d acc k
    = (acc ++ arms_from N k (attributes d), k + List.length (attributes d)).
Proof.
  induction d as [|[t cols] d IH]; intros acc k; simpl.
  - rewrite app_nil_r. f_equal. lia.
  - rewrite case_columns_spec, IH.
    rewrite <- app_assoc, arms_from_app, !length_app, !length_map.
    f_equal. lia.
Qed.

Lemma total_columns_attributes (d : Dict.dict string (list string)) :
  total_columns d = List.length (attributes d).
Proof.
  unfold total_columns, Dict.values.
  assert (H : forall n, fold_left (fun n cols => n + List.length cols) (map snd d) n
                        = n + List.length (attributes d)).
  { induction d as [|[t cols] d IH]; intros n; simpl; [lia|].
    rewrite IH, length_app, length_map. lia. }
  apply (H 0).
Qed.

Lemma case_arms_spec (d : Dict.dict string (list string)) :
  case_arms d = arms_from (total_columns d) 0 (attributes d).
Proof. unfold case_arms. by rewrite case_tables_spec. Qed.

Lemma arms_from_length (N : nat) (attrs : list (string * string)) :
  forall k, List.length (arms_from N k attrs) = 2 * List.length attrs.
Proof.
  induction attrs as [|[t c] attrs IH]; intros k; simpl; [reflexivity|].
  rewrite IH. lia.
Qed.

Lemma arms_from_lookup (N : nat) (attrs : list (string * string)) :
  forall k i t c,
    attrs !! i = Some (t, c) ->
    arms_from N k attrs !! (2 * i)
      = Some (when_exact t c (Z.of_nat N + 2 - Z.of_nat (k + i))) /\
    arms_from N k attrs !! (2 * i + 1)
      = Some (when_regex t c (Z.of_nat N - Z.of_nat (k + i))).
Proof.
  induction attrs as [|[t0 c0] attrs IH]; intros k i t c Hi; [discriminate|].
  destruct i as [|i]; simpl in Hi.
  - inversion Hi; subst. rewrite Nat.add_0_r. simpl. auto.
  - replace (2 * S i) with (S (S (2 * i))) by lia.
    replace (S (S (2 * i)) + 1) with (S (S (2 * i + 1))) by lia.
    simpl arms_from. simpl lookup.
    replace (k + S i) with (S k + i) by lia. by apply IH.
Qed.

(** The text and the parameters that [_generate_full_query] returns. *)
Lemma generate_full_query_ok (main_table : string) (cols : list string)
    (more : Dict.dict string (list string)) (term : option string)
    (extra : Dict.dict (option string) extra_term) :
  let d := (main_table, cols) :: more in
  exists body,
    _generate_full_query d term extra
    = Ok ("SELECT " +:+ main_table +:+ ".nb, NULL AS relevance, CASE "
            +:+ Py.join " " (case_arms d) +:+ " ELSE 0 END AS relevance "
            +:+ body +:+ " ORDER BY relevance DESC",
          repeat (Some (".*" +:+ Py.fmt term +:+ ".*")) (3 * total_columns d)
            ++ map (fun item => snd (snd item)) extra).
Proof.
  intros d. unfold _generate_full_query.
  change (Dict.keys d) with (main_table :: Dict.keys more).
  cbv beta iota. unfold mbind, result_bind. cbv beta iota zeta.
  fold (case_arms d).
  match goal with
  | |- exists body, Ok (_ +:+ " " +:+ _ +:+ " " +:+ ?fc +:+ " WHERE " +:+ ?wc +:+ _, _) = _ =>
      exists (fc +:+ " WHERE " +:+ wc); generalize fc as from_clause; generalize wc as where_clause
  end.
  generalize (Py.join " " (case_arms d)) as arms.
  intros arms where_clause from_clause. f_equal. f_equal.
  - rewrite !append_assoc. reflexivity.
  - do 2 f_equal. lia.
Qed.

(** C2 (amended).  For every group, however many tables and searchable
    attributes it has, the ranked query of a vague clause is
    [SELECT main.nb, NULL AS relevance, CASE arms ELSE 0 END AS relevance ...
    ORDER BY relevance DESC], with two arms for each attribute, in the
    order of declaration: for the attribute at position [i] the exact
    match has weight [totalColumns + 2 - i] and the regex match has weight
    [totalColumns - i]. *)
Theorem relevance_case_weights (d : Dict.dict string (list string))
    (term : option string) (extra : Dict.dict (option string) extra_term) :
  d <> [] ->
  exists query params main_table body,
    _generate_full_query d term extra = Ok (query, params) /\
    query = "SELECT " +:+ main_table +:+ ".nb, NULL AS relevance, CASE "
              +:+ Py.join " " (case_arms d) +:+ " ELSE 0 END AS relevance "
              +:+ body +:+ " ORDER BY relevance DESC" /\
    List.length (case_arms d) = 2 * total_columns d /\
    forall (i : nat) (t c : string),
      attributes d !! i = Some (t, c) ->
      case_arms d !! (2 * i)
        = Some ("WHEN " +:+ t +:+ "." +:+ c +:+ " = ? THEN "
                  +:+ Py.str_of_int (Z.of_nat (total_columns d) + 2 - Z.of_nat i)) /\
      case_arms d !! (2 * i + 1)
        = Some ("WHEN " +:+ t +:+ "." +:+ c +:+ " REGEXP ? THEN "
                  +:+ Py.str_of_int (Z.of_nat (total_columns d) - Z.of_nat i)).
Proof.
  intros Hd. destruct d as [|[main_table cols] more]; [congruence|].
  destruct (generate_full_query_ok main_table cols more term extra) as [body Hq].
  eexists _, _, main_table, body. split; [exact Hq|]. split; [reflexivity|].
  rewrite case_arms_spec. split.
  - by rewrite arms_from_length, total_columns_attributes.
  - intros i t c Hi.
    exact (arms_from_lookup (total_columns ((main_table, cols) :: more)) _ 0 i t c Hi).
Qed.

Lemma relevance_case_weights_witness :
  let d := [("Cases", ["name"; "description"; "notes"])] in
  d <> [] /\
  exists query params main_table body,
    _generate_full_query d (Some "x") [] = Ok (query, params) /\
    query = "SELECT " +:+ main_table +:+ ".nb, NULL AS relevance, CASE "
              +:+ Py.join " " (case_arms d) +:+ " ELSE 0 END AS relevance "
              +:+ body +:+ " ORDER BY relevance DESC" /\
    List.length (case_arms d) = 2 * total_columns d /\
    forall (i : nat) (t c : string),
      attributes d !! i = Some (t, c) ->
      case_arms d !! (2 * i)
        = Some ("WHEN " +:+ t +:+ "." +:+ c +:+ " = ? THEN "
                  +:+ Py.str_of_int (Z.of_nat (total_columns d) + 2 - Z.of_nat i)) /\
      case_arms d !! (2 * i + 1)
        = Some ("WHEN " +:+ t +:+ "." +:+ c +:+ " REGEXP ? THEN "
                  +:+ Py.str_of_int (Z.of_nat (total_columns d) - Z.of_nat i)).
Proof.
  intros d. split; [discriminate|].
  apply (relevance_case_weights d (Some "x") []). discriminate.
Defined.

(** C2, as the specification has it, fails on the group [case]: with
    three attributes the exact match on the first one would weigh
    [3 * 2 + 2 - 0 = 8]; the compiled arm weighs 5. *)
Lemma exact_weight_counterexample :
  let d := [("Cases", ["name"; "description"; "notes"])] in
  total_columns d = 3 /\
  attributes d !! 0 = Some ("Cases", "name") /\
  case_arms d !! (2 * 0) = Some "WHEN Cases.name = ? THEN 5" /\
  case_arms d !! (2 * 0)
    <> Some ("WHEN Cases.name = ? THEN " +:+ Py.str_of_int (3 * 2 + 2 - 0)) /\
  exists q,
    get_sql_query_from_user_input "case:x" = Ok [q] /\
    Py.startswith (c_sql q)
      "SELECT Cases.nb, NULL AS relevance, CASE WHEN Cases.name = ? THEN 5 WHEN Cases.name REGEXP ? THEN 3 "
    = true.
Proof.
  intros d. split; [reflexivity|]. split; [reflexivity|].
  split; [vm_compute; reflexivity|]. split; [vm_compute; discriminate|].
  eexists. split; vm_compute; reflexivity.
Qed.

End ranked_query.

Section vague_clauses.
Import SearchEngine.

(** ** Dictionaries *)

Section dict_facts.
Context {K V : Type} `{EqDecision K}.
Implicit Types (d : Dict.dict K V) (l : list (K * V)).

Lemma dict_set_fresh k v d :
  k ∉ Dict.keys d -> Dict.set k v d = d ++ [(k, v)].
Proof.
  induction d as [|[k' v'] d IH]; intros Hk; simpl; [reflexivity|].
  unfold Dict.keys in Hk. simpl in Hk. apply not_elem_of_cons in Hk as [Hne Hk].
  destruct (decide (k = k')); [congruence|]. by rewrite IH.
Qed.

Lemma dict_set_keys_present k v d :
  k ∈ Dict.keys d -> Dict.keys (Dict.set k v d) = Dict.keys d.
Proof.
  induction d as [|[k' v'] d IH]; intros Hk; simpl.
  - by apply elem_of_nil in Hk.
  - destruct (decide (k = k')); [reflexivity|].
    unfold Dict.keys in *. simpl in *. rewrite IH; [reflexivity|].
    apply elem_of_cons in Hk as [?|?]; [congruence | assumption].
Qed.

Lemma dict_get_set k k' v d :
  Dict.get k' (Dict.set k v d) = if decide (k' = k) then Some v else Dict.get k' d.
Proof.
  induction d as [|[k0 v0] d IH]; simpl.
  - destruct (decide (k' = k)); reflexivity.
  - destruct (decide (k = k0)) as [->|Hne]; simpl.
    + destruct (decide (k' = k0)); reflexivity.
    + destruct (decide (k' = k0)) as [->|Hne'].
      * destruct (decide (k0 = k)); [congruence | reflexivity].
      * exact IH.
Qed.

Lemma dict_get_app k d1 d2 :
  Dict.get k (d1 ++ d2)
  = match Dict.get k d1 with
    | Some v => Some v
    | None => Dict.get k d2
    end.
Proof.
  induction d1 as [|[k' v'] d1 IH]; simpl; [reflexivity|].
  destruct (decide (k = k')); [reflexivity | exact IH].
Qed.

Lemma first_occurrences_ext (s1 s2 l' : list K) :
  (forall x, x ∈ s1 <-> x ∈ s2) ->
  first_occurrences s1 l' = first_occurrences s2 l'.
Proof.
  revert s1 s2. induction l' as [|x l' IH]; intros s1 s2 Hs; simpl; [reflexivity|].
  destruct (decide (x ∈ s1)) as [H1|H1], (decide (x ∈ s2)) as [H2|H2].
  - by apply IH.
  - by apply Hs in H1.
  - by apply Hs in H2.
  - f_equal. apply IH. intros y. rewrite !elem_of_cons. by rewrite Hs.
Qed.

(** The keys of a dictionary built from items: one for each distinct
    key, in the order of first appearance. *)
Lemma fold_items_keys l :
  forall d,
    Dict.keys (fold_items l d)
    = Dict.keys d ++ first_occurrences (Dict.keys d) (map fst l).
Proof.
  induction l as [|[k v] l IH]; intros d; simpl.
  - by rewrite app_nil_r.
  - rewrite IH. destruct (decide (k ∈ Dict.keys d)) as [Hin|Hnin].
    + by rewrite dict_set_keys_present.
    + rewrite dict_set_fresh by assumption.
      unfold Dict.keys. rewrite map_app. simpl. rewrite <- app_assoc. simpl.
      do 2 f_equal. apply first_occurrences_ext.
      intros x. rewrite elem_of_app, !elem_of_cons, elem_of_nil. tauto.
Qed.

(** The value at a key is that of the last item with the key. *)
Lemma fold_items_get k l :
  forall d,
    Dict.get k (fold_items l d)
    = match Dict.get k (rev l) with
      | Some v => Some v
      | None => Dict.get k d
      end.
Proof.
  induction l as [|[k' v'] l IH]; intros d; simpl; [reflexivity|].
  rewrite IH, dict_get_app, dict_get_set. simpl.
  destruct (Dict.get k (rev l)); [reflexivity|].
  destruct (decide (k = k')); reflexivity.
Qed.

(** Items with distinct keys are kept as they are. *)
Lemma fold_items_nodup l :
  forall d,
    NoDup (Dict.keys d ++ map fst l) -> fold_items l d = d ++ l.
Proof.
  induction l as [|[k v] l IH]; intros d Hnd; simpl.
  - by rewrite app_nil_r.
  - simpl in Hnd. assert (Hk : k ∉ Dict.keys d).
    { apply NoDup_app in Hnd as (_ & Hdis & _). intros Hin.
      apply (Hdis k Hin). by left. }
    rewrite dict_set_fresh by assumption. rewrite IH.
    + by rewrite <- app_assoc.
    + unfold Dict.keys. rewrite map_app. simpl. by rewrite <- app_assoc.
Qed.

Lemma of_items_keys l :
  Dict.keys (Dict.of_items l) = first_occurrences [] (map fst l).
Proof. apply (fold_items_keys l []). Qed.

Lemma of_items_get k l :
  Dict.get k (Dict.of_items l) = Dict.get k (rev l).
Proof.
  unfold Dict.of_items. fold (fold_items l []). rewrite fold_items_get.
  by destruct (Dict.get k (rev l)).
Qed.

Lemma of_items_nodup l : NoDup (map fst l) -> Dict.of_items l = l.
Proof. intros Hnd. by apply (fold_items_nodup l []). Qed.
End dict_facts.

(** ** C3 *)

Lemma normalized_extra_items (terms : list search_term) :
  normalized_extra terms = Dict.of_items (map extra_item (named_terms terms)).
Proof. reflexivity. Qed.

Lemma dict_get_items (column : option string) (l : list search_term) :
  option_map (fun e : extra_term => snd e) (Dict.get column (map extra_item l))
  = option_map t_value (List.find (fun t => bool_decide (column = t_column t)) l).
Proof.
  induction l as [|t l IH]; simpl; [reflexivity|].
  destruct (decide (column = t_column t)) as [Heq|Hne].
  - rewrite bool_decide_eq_true_2 by assumption. reflexivity.
  - rewrite bool_decide_eq_false_2 by assumption. exact IH.
Qed.

Lemma normalized_extra_keys (terms : list search_term) :
  Dict.keys (normalized_extra terms)
  = first_occurrences [] (map t_column (named_terms terms)).
Proof.
  rewrite normalized_extra_items, of_items_keys, map_map. reflexivity.
Qed.

Lemma normalized_extra_value (terms : list search_term) (column : option string) :
  option_map (fun e : extra_term => snd e) (Dict.get column (normalized_extra terms))
  = last_value_for column terms.
Proof.
  rewrite normalized_extra_items, of_items_get, <- map_rev. apply dict_get_items.
Qed.

Lemma normalized_extra_distinct (terms : list search_term) :
  NoDup (map t_column (named_terms terms)) ->
  map (fun item => snd (snd item)) (normalized_extra terms)
  = map t_value (named_terms terms).
Proof.
  intros Hnd. rewrite normalized_extra_items, of_items_nodup.
  - rewrite map_map. reflexivity.
  - rewrite map_map. exact Hnd.
Qed.

(** A vague clause over one of the three groups compiles, to a ranked
    query over the first table of the group. *)
Lemma generate_vague (table : list string) (main : main_clause)
    (terms : list search_term) :
  table ∈ Dict.values _map ->
  m_column main = None ->
  exists (t0 : string) (columns : list (list string)) (tail : string),
    first table = Ok t0 /\
    Dict.get table _full_map = Some columns /\
    generate table main terms
    = Ok ("SELECT " +:+ t0 +:+ ".nb, NULL AS relevance, CASE " +:+ tail,
          repeat (Some (".*" +:+ Py.fmt (m_value main) +:+ ".*"))
            (3 * List.length (concat columns))
            ++ map (fun item => snd (snd item)) (normalized_extra terms)).
Proof.
  intros Htable Hcol. unfold generate. rewrite Hcol.
  change (Dict.values _map)
    with [["Persons"; "CasePeople"]; ["Cases"]; ["Documents"]] in Htable.
  repeat (apply elem_of_cons in Htable as [->|Htable]);
    [ | | | by apply elem_of_nil in Htable ].
  all: match goal with
       | |- context [subscript show_tuple _full_map ?t] =>
           let cols := eval vm_compute in (Dict.get t _full_map) in
           match cols with
           | Some ?c =>
               change (subscript show_tuple _full_map t) with (Ok (A:=list (list string)) c);
               rewrite bind_ok;
               let d := eval vm_compute in (Dict.of_items (zip t c)) in
               change (Dict.of_items (zip t c)) with d;
               match d with
               | (?mt, ?cs) :: ?more =>
                   destruct (generate_full_query_ok mt cs more (m_value main)
                               (normalized_extra terms)) as [body Hq];
                   exists mt, c,
                     (Py.join " " (case_arms d) +:+ " ELSE 0 END AS relevance "
                        +:+ body +:+ " ORDER BY relevance DESC");
                   split; [reflexivity | split; [reflexivity | exact Hq]]
               end
           end
       end.
Qed.

Lemma dict_get_values {K V : Type} `{EqDecision K} (k : K) (v : V) (d : Dict.dict K V) :
  Dict.get k d = Some v -> v ∈ Dict.values d.
Proof.
  induction d as [|[k' v'] d IH]; simpl; [discriminate|].
  destruct (decide (k = k')).
  - intros [= ->]. by left.
  - intros Hget. right. by apply IH.
Qed.

(** C3 (amended).  For every vague clause over a group with [N] searchable
    columns in total, the parameters that the compiler generates for the
    clause are [3 * N] copies of the literal [.*term.*], where the term is
    the value of the clause as the parser captured it, followed by one
    value for each distinct column that the chained sub-terms name, in the
    order in which the columns first appear; the value for a column is
    that of the last sub-term naming it.  When the sub-terms name
    distinct columns these are the values of the sub-terms, in the order of
    the input.  These are the parameters of the compiled query of a
    clause that names its group and is not merged into the query of the
    clause before it. *)
Theorem vague_clause_params (table : list string) (main : main_clause)
    (terms : list search_term) :
  table ∈ Dict.values _map ->
  m_column main = None ->
  exists (query : string) (columns : list (list string)),
    let params :=
      repeat (Some (".*" +:+ Py.fmt (m_value main) +:+ ".*"))
        (3 * List.length (concat columns))
        ++ map (fun item => snd (snd item)) (normalized_extra terms) in
    Dict.get table _full_map = Some columns /\
    generate table main terms = Ok (query, params) /\
    Dict.keys (normalized_extra terms)
    = first_occurrences [] (map t_column (named_terms terms)) /\
    (forall column,
        option_map (fun e : extra_term => snd e)
          (Dict.get column (normalized_extra terms))
        = last_value_for column terms) /\
    (NoDup (map t_column (named_terms terms)) ->
     map (fun item => snd (snd item)) (normalized_extra terms)
     = map t_value (named_terms terms)) /\
    (forall (g : string) (returns : list compiled),
        m_group main = Some g ->
        Dict.get g _map = Some table ->
        exists (q : compiled) (concatenate_tables : bool),
          compile_clause (returns, false) (main, terms)
          = Ok (returns ++ [q], concatenate_tables) /\
          c_sql q = query /\ c_params q = params).
Proof.
  intros Htable Hcol.
  destruct (generate_vague table main terms Htable Hcol)
    as (t0 & columns & tail & Hfirst & Hfull & Hgen).
  eexists _, columns. cbv zeta.
  split; [exact Hfull|]. split; [exact Hgen|].
  split; [apply normalized_extra_keys|].
  split; [intros column; apply normalized_extra_value|].
  split; [apply normalized_extra_distinct|].
  intros g returns Hg Hmap.
  unfold compile_clause, map_get. rewrite Hg, Hmap, Hgen, Hfirst.
  cbn [mbind result_bind fst snd].
  eexists _, _. split; [reflexivity|]. split; reflexivity.
Qed.

Lemma vague_clause_params_witness :
  let table := ["Cases"] in
  let main := MainClause (Some "case") None None (Some ":") (Some "theft ") in
  let terms := [ SearchTerm (Some "&") (Some "name") (Some "=") (Some "Case 1 ") None;
                 SearchTerm (Some "|") (Some "notes") (Some ":") (Some "urgent") None ] in
  (table ∈ Dict.values _map /\ m_column main = None /\
   NoDup (map t_column (named_terms terms)) /\
   m_group main = Some "case" /\ Dict.get "case" _map = Some table) /\
  exists (q : compiled) (concatenate_tables : bool),
    compile_clause ([], false) (main, terms) = Ok ([] ++ [q], concatenate_tables) /\
    c_params q = repeat (Some ".*theft .*") 9 ++ [Some "Case 1 "; Some "urgent"].
Proof.
  intros table main terms.
  assert (Ht : table ∈ Dict.values _map) by (vm_compute; set_solver).
  assert (Hc : m_column main = None) by reflexivity.
  assert (Hn : NoDup (map t_column (named_terms terms))).
  { apply (bool_decide_unpack _). vm_compute. reflexivity. }
  assert (Hg : m_group main = Some "case") by reflexivity.
  assert (Hm : Dict.get "case" _map = Some table) by reflexivity.
  split; [by repeat split|].
  destruct (vague_clause_params table main terms Ht Hc)
    as (query & columns & Hfull & _ & _ & _ & Hdistinct & Hcompile).
  destruct (Hcompile "case" [] Hg Hm) as (q & flag & Hq & _ & Hparams).
  exists q, flag. split; [exact Hq|].
  rewrite Hparams, (Hdistinct Hn).
  vm_compute in Hfull. injection Hfull as Hcols. rewrite <- Hcols. reflexivity.
Defined.

(** C3, as the specification has it, fails when two sub-terms name the
    same column: the dictionary of the sub-terms keeps one value for the
    column, the last.  It also fails for a vague clause that follows a
    bare [&]: the clause is merged into the query of the clause before
    it, which gets the value of the clause as one more parameter. *)
Lemma duplicate_column_counterexample :
  (let input := "user:Jane&{notes}:a&{notes}:b" in
   exists main terms q,
     _parse_user_input input = Some [(main, terms)] /\
     m_group main = Some "user" /\ m_column main = None /\
     m_value main = Some "Jane" /\
     map t_value terms = [Some "a"; Some "b"] /\
     get_sql_query_from_user_input input = Ok [q] /\
     c_params q = repeat (Some ".*Jane.*") (3 * 12) ++ [Some "b"] /\
     c_params q <> repeat (Some ".*Jane.*") (3 * 12) ++ map t_value terms) /\
  (let input := "user{first_name}=Jane & case:theft" in
   exists first_clause main q,
     _parse_user_input input = Some [first_clause; (main, [])] /\
     m_group main = Some "case" /\ m_column main = None /\
     m_value main = Some "theft" /\
     get_sql_query_from_user_input input = Ok [q] /\
     c_tables q = ["Persons"; "Cases"] /\
     c_params q = [Some "Jane"; Some "theft"]).
Proof.
  split.
  - intros input. eexists _, _, _.
    split; [vm_compute; reflexivity|].
    split; [reflexivity|]. split; [reflexivity|]. split; [reflexivity|].
    split; [reflexivity|].
    split; [vm_compute; reflexivity|].
    split; [vm_compute; reflexivity | vm_compute; discriminate].
  - intros input. eexists _, _, _.
    split; [vm_compute; reflexivity|].
    split; [reflexivity|]. split; [reflexivity|]. split; [reflexivity|].
    split; [vm_compute; reflexivity|].
    split; reflexivity.
Qed.

(** ** C8 *)

(** C8.  For the empty input the compiler returns the "select
    everything" form: one compiled query over the three groups, with no
    parameter and with the default return attributes of each group. *)
Theorem empty_input_selects_everything :
  get_sql_query_from_user_input ""
  = Ok [ Compiled ["Persons"; "Cases"; "Documents"]
           "SELECT Persons.nb, Cases.nb, Documents.nb FROM Persons FULL OUTER JOIN Cases FULL OUTER JOIN Documents"
           []
           [ Dict.get ["Persons"; "CasePeople"] _returns_map;
             Dict.get ["Cases"] _returns_map;
             Dict.get ["Documents"] _returns_map ] ]
  /\ Dict.get ["Persons"; "CasePeople"] _returns_map
     = Some ["first_name"; "last_name"; "can_be_lawyer"]
  /\ Dict.get ["Cases"] _returns_map = Some ["name"]
  /\ Dict.get ["Documents"] _returns_map = Some ["name"].
Proof. repeat split; vm_compute; reflexivity. Qed.

(** The empty input is no clause of the grammar: the form comes from the
    special case, not from the parser. *)
Lemma empty_input_does_not_parse : _parse_user_input "" = None.
Proof. vm_compute. reflexivity. Qed.

(** ** C9 *)

Lemma fan_out_unfold (main : main_clause) (terms : list search_term)
    (table : list string) (more : list (list string)) (returns : list compiled) :
  fan_out main terms (table :: more) returns
  = (ret_val ← (if truthy (m_returns main)
                 then match m_group main with
                      | Some g => Ok (Some (Py.split ";" g))
                      | None => Raise AttributeError
                      end
                 else Ok (Dict.get table _returns_map));
     query ← generate table main terms;
     t0 ← first table;
     fan_out main terms more
       (returns ++ [Compiled [t0] (fst query) (snd query) [ret_val]])).
Proof. reflexivity. Qed.

Lemma unknown_group_not_in_map (g : string) :
  g <> "user" -> g <> "case" -> g <> "docu" -> Dict.get g _map = None.
Proof.
  intros H1 H2 H3. unfold _map. simpl.
  repeat (destruct (decide _); [congruence|]). reflexivity.
Qed.

(** C9 (amended).  A clause that names a group outside [user], [case],
    [docu] is handled as a clause that names no group.  Without a column
    it is compiled against each of the three groups, in the order
    Persons, Cases, Documents; with a column the look-up of the group
    raises [KeyError] and nothing is compiled. *)
Theorem unknown_group_fans_out (g : string) (main : main_clause)
    (terms : list search_term) (returns : list compiled) (concatenate_tables : bool) :
  m_group main = Some g ->
  g <> "user" -> g <> "case" -> g <> "docu" ->
  match m_column main with
  | None =>
      exists q1 q2 q3 concatenate_tables',
        compile_clause (returns, concatenate_tables) (main, terms)
        = Ok (returns ++ [q1; q2; q3], concatenate_tables') /\
        c_tables q1 = ["Persons"] /\ c_tables q2 = ["Cases"] /\
        c_tables q3 = ["Documents"] /\
        Py.startswith (c_sql q1) "SELECT Persons.nb, " = true /\
        Py.startswith (c_sql q2) "SELECT Cases.nb, " = true /\
        Py.startswith (c_sql q3) "SELECT Documents.nb, " = true
  | Some _ =>
      compile_clause (returns, concatenate_tables) (main, terms) = Raise (KeyError g)
  end.
Proof.
  intros Hg H1 H2 H3.
  pose proof (unknown_group_not_in_map g H1 H2 H3) as Hmap.
  unfold compile_clause, map_get. rewrite Hg, Hmap.
  change (Dict.values _map)
    with [["Persons"; "CasePeople"]; ["Cases"]; ["Documents"]].
  destruct (m_column main) as [column|] eqn:Hcol.
  - rewrite fan_out_unfold, Hg.
    unfold generate, _generate_query. rewrite Hcol, Hg.
    unfold subscript. rewrite Hmap.
    destruct (truthy (m_returns main)); reflexivity.
  - destruct (generate_vague ["Persons"; "CasePeople"] main terms)
      as (t1 & c1 & s1 & F1 & _ & G1); [vm_compute; set_solver | exact Hcol |].
    destruct (generate_vague ["Cases"] main terms)
      as (t2 & c2 & s2 & F2 & _ & G2); [vm_compute; set_solver | exact Hcol |].
    destruct (generate_vague ["Documents"] main terms)
      as (t3 & c3 & s3 & F3 & _ & G3); [vm_compute; set_solver | exact Hcol |].
    inversion F1; subst t1. inversion F2; subst t2. inversion F3; subst t3.
    destruct (truthy (m_returns main)) eqn:Ht.
    all: rewrite fan_out_unfold, Hg, Ht, G1; cbn [mbind result_bind first fst snd].
    all: rewrite fan_out_unfold, Hg, Ht, G2; cbn [mbind result_bind first fst snd].
    all: rewrite fan_out_unfold, Hg, Ht, G3; cbn [mbind result_bind first fst snd fan_out].
    all: rewrite <- !app_assoc; cbn [app].
    all: eexists _, _, _, _; split; [reflexivity|]; repeat split.
Qed.

Lemma unknown_group_fans_out_witness :
  let main := MainClause (Some "foo") None None (Some ":") (Some "Jane") in
  (m_group main = Some "foo" /\ "foo" <> "user" /\ "foo" <> "case" /\ "foo" <> "docu") /\
  exists q1 q2 q3 concatenate_tables',
    compile_clause ([], false) (main, [])
    = Ok ([] ++ [q1; q2; q3], concatenate_tables') /\
    c_tables q1 = ["Persons"] /\ c_tables q2 = ["Cases"] /\
    c_tables q3 = ["Documents"] /\
    Py.startswith (c_sql q1) "SELECT Persons.nb, " = true /\
    Py.startswith (c_sql q2) "SELECT Cases.nb, " = true /\
    Py.startswith (c_sql q3) "SELECT Documents.nb, " = true.
Proof.
  intros main. split; [repeat split; discriminate|].
  apply (unknown_group_fans_out "foo" main [] [] false); [reflexivity | discriminate ..].
Defined.

(** C9, as the specification has it, fails: a query that names the
    unknown group [foo] is compiled, against every group. *)
Lemma unknown_group_counterexample :
  exists main q1 q2 q3,
    _parse_user_input "foo:Jane" = Some [(main, [])] /\
    m_group main = Some "foo" /\
    Dict.get "foo" _map = None /\
    get_sql_query_from_user_input "foo:Jane" = Ok [q1; q2; q3] /\
    c_tables q1 = ["Persons"] /\ c_tables q2 = ["Cases"] /\
    c_tables q3 = ["Documents"] /\
    ~ rejected (get_sql_query_from_user_input "foo:Jane").
Proof.
  eexists _, _, _, _.
  split; [vm_compute; reflexivity|].
  split; [reflexivity|]. split; [reflexivity|].
  split; [vm_compute; reflexivity|].
  split; [reflexivity|]. split; [reflexivity|]. split; [reflexivity|].
  intros H. vm_compute in H. inversion H as [|? ? Hsql _]. discriminate Hsql.
Qed.

(** With a column, the unknown group stops the compilation. *)
Example unknown_group_with_column :
  get_sql_query_from_user_input "foo{name}:Jane" = Raise (KeyError "foo").
Proof. vm_compute. reflexivity. Qed.

End vague_clauses.

Section lock_coordinator.
Import Locks DatabaseAccess.

(** ** The lock coordinator *)

(** The body of a call leaves the two markers as they are. *)
Lemma body_keeps_markers (o : op) (f : fs) :
  write_lock (fst (body_of o f)) = write_lock f /\
  read_lock (fst (body_of o f)) = read_lock f.
Proof.
  destruct o as [sql params [rows|e] | sql params [e|] denied | sql done error denied];
    simpl; auto.
Qed.

(** Entering [Held] writes the write marker. *)
Lemma acquiring_creates_marker (o : op) (f : fs) :
  op_step o Acquiring f = (Held, set_write_lock true f).
Proof. destruct o; reflexivity. Qed.

(** The step by which a caller finishes leaves the write marker absent. *)
Lemma finishing_clears_marker (o : op) (p p' : pc) (f f' : fs) :
  is_done p = false ->
  op_step o p f = (p', f') ->
  is_done p' = true ->
  write_lock f' = false.
Proof.
  intros Hp Hstep Hp'. unfold op_step in Hstep.
  replace (lock_of o) with WriteLock in Hstep by (by destruct o).
  destruct p as [| | |out|out|out]; simpl in Hstep.
  - destruct (write_lock f); inversion Hstep; subst; discriminate.
  - inversion Hstep; subst; discriminate.
  - destruct (body_of o f). inversion Hstep; subst; discriminate.
  - destruct (write_lock f) eqn:E; inversion Hstep; subst; [discriminate | exact E].
  - destruct (write_lock f) eqn:E; inversion Hstep; subst; [reflexivity | exact E].
  - discriminate.
Qed.

(** A caller that finds the marker absent and runs alone goes through
    the five steps: the marker is there while the body runs and gone at
    the end, whether the body returns or raises. *)
Lemma run_alone_completes (o : op) (f : fs) :
  write_lock f = false ->
  run_alone 2 o Waiting f = (Held, set_write_lock true f) /\
  run_alone 5 o Waiting f
  = (Done (snd (body_of o (set_write_lock true f))),
     set_write_lock false (fst (body_of o (set_write_lock true f)))).
Proof.
  intros Hf. unfold run_alone, op_step.
  replace (lock_of o) with WriteLock by (by destruct o).
  simpl. rewrite Hf. simpl. split; [reflexivity|].
  pose proof (body_keeps_markers o (set_write_lock true f)) as [Hw _].
  destruct (body_of o (set_write_lock true f)) as [f1 out]. simpl in *.
  rewrite Hw. simpl. rewrite Hw. reflexivity.
Qed.

(** *** Several callers *)

Lemma step_keeps_holder (s s' : system) :
  step s s' -> marker_has_holder s -> marker_has_holder s'.
Proof.
  intros [s0 i o p p' f' Hi Hnd Hstep] Hinv Hlock. simpl in *.
  assert (Hlen : i < List.length (callers s0)) by (by eapply lookup_lt_Some).
  assert (Hhere : holds p' = true ->
          exists j o' q, <[i:=(o, p')]> (callers s0) !! j = Some (o', q) /\ holds q = true).
  { intros Hh. exists i, o, p'. split; [by apply list_lookup_insert_eq | exact Hh]. }
  assert (Hother : holds p = false -> write_lock (files s0) = true ->
          exists j o' q, <[i:=(o, p')]> (callers s0) !! j = Some (o', q) /\ holds q = true).
  { intros Hp Hl. destruct (Hinv Hl) as (j & o' & q & Hj & Hq).
    exists j, o', q. split; [|exact Hq].
    rewrite list_lookup_insert_ne; [exact Hj|]. intros ->.
    rewrite Hi in Hj. inversion Hj; subst. congruence. }
  unfold op_step in Hstep.
  replace (lock_of o) with WriteLock in Hstep by (by destruct o).
  destruct p as [| | |out|out|out]; simpl in Hstep.
  - destruct (write_lock (files s0)) eqn:E; inversion Hstep; subst.
    + by apply Hother.
    + congruence.
  - inversion Hstep; subst. by apply Hhere.
  - destruct (body_of o (files s0)) as [f1 out]. inversion Hstep; subst. by apply Hhere.
  - destruct (write_lock (files s0)) eqn:E; inversion Hstep; subst.
    + by apply Hhere.
    + congruence.
  - destruct (write_lock (files s0)) eqn:E; inversion Hstep; subst; simpl in Hlock; congruence.
  - discriminate.
Qed.

Lemma reachable_keeps_holder (s s' : system) :
  rtc step s s' -> marker_has_holder s -> marker_has_holder s'.
Proof. induction 1; eauto using step_keeps_holder. Qed.

Lemma start_has_holder (f : fs) (ops : list op) :
  write_lock f = false -> marker_has_holder (start f ops).
Proof. intros Hf Hl. simpl in Hl. congruence. Qed.

Lemma all_done_no_marker (s : system) :
  marker_has_holder s -> all_done s -> write_lock (files s) = false.
Proof.
  intros Hinv Hdone. destruct (write_lock (files s)) eqn:E; [|reflexivity].
  destruct (Hinv E) as (i & o & p & Hi & Hp).
  unfold all_done in Hdone. rewrite Forall_lookup in Hdone.
  specialize (Hdone i (o, p) Hi). simpl in Hdone.
  destruct p; simpl in *; congruence.
Qed.

(** A schedule is a run of the system. *)
Lemma step_at_rtc (i : nat) (s : system) : rtc step s (step_at i s).
Proof.
  unfold step_at. destruct (callers s !! i) as [[o p]|] eqn:Hi; [|apply rtc_refl].
  destruct (is_done p) eqn:Hp; [apply rtc_refl|].
  destruct (op_step o p (files s)) as [p' f'] eqn:Hs.
  apply rtc_once. by econstructor.
Qed.

Lemma run_schedule_rtc (schedule : list nat) :
  forall s, rtc step s (run_schedule schedule s).
Proof.
  induction schedule as [|i schedule IH]; intros s; simpl; [apply rtc_refl|].
  etrans; [apply step_at_rtc | apply IH].
Qed.

(** The steps of a caller in its [with] block, while the marker is
    there. *)
Lemma held_keeps_marker (o : op) (f : fs) :
  write_lock f = true ->
  op_step o Held f = (Releasing (snd (body_of o f)), fst (body_of o f)) /\
  write_lock (fst (body_of o f)) = true.
Proof.
  intros Hf. pose proof (body_keeps_markers o f) as [Hw _].
  unfold op_step. replace (lock_of o) with WriteLock by (by destruct o). simpl.
  destruct (body_of o f) as [f1 out]. simpl in *. split; [reflexivity | congruence].
Qed.

Lemma releasing_removes_marker (o : op) (out : outcome) (f : fs) :
  write_lock f = true ->
  op_step o (Releasing out) f = (Removing out, f) /\
  op_step o (Removing out) f = (Done out, set_write_lock false f).
Proof.
  intros Hf. unfold op_step. replace (lock_of o) with WriteLock by (by destruct o).
  simpl. by rewrite Hf.
Qed.

Lemma run_alone_stages (o : op) (f : fs) :
  write_lock f = false ->
  let held := set_write_lock true f in
  let out := snd (body_of o held) in
  let after := fst (body_of o held) in
  run_alone 2 o Waiting f = (Held, held) /\
  run_alone 3 o Waiting f = (Releasing out, after) /\
  run_alone 4 o Waiting f = (Removing out, after) /\
  run_alone 5 o Waiting f = (Done out, set_write_lock false after) /\
  write_lock after = true.
Proof.
  intros Hf. cbv zeta.
  pose proof (body_keeps_markers o (set_write_lock true f)) as [Hw _].
  unfold run_alone, op_step.
  replace (lock_of o) with WriteLock by (by destruct o).
  simpl. rewrite Hf. simpl.
  destruct (body_of o (set_write_lock true f)) as [f1 out1]. simpl in *.
  rewrite Hw. simpl. rewrite Hw. by repeat split.
Qed.

(** C4.  The step that enters [Held] creates the write marker: the
    marker exists after it.  The marker exists while the wrapped
    statement runs and after it, whether the statement returned or
    raised, and the two steps of [finally] remove it: the marker is
    absent after the step that ends the call, whatever the outcome.  A
    call that runs alone and finds the marker absent has the marker from
    [yield] to [os.remove] and has removed it at the end, also when the
    statement raises.  When several callers share the files, the marker
    is absent once all of them are done. *)
Theorem write_lock_released :
  (forall (o : op) (f : fs),
      exists f',
        op_step o Acquiring f = (Held, f') /\ write_lock f' = true /\
        read_lock f' = read_lock f /\ changes_log f' = changes_log f) /\
  (forall (o : op) (f : fs),
      write_lock f = true ->
      exists out f',
        op_step o Held f = (Releasing out, f') /\ write_lock f' = true) /\
  (forall (o : op) (out : outcome) (f : fs),
      write_lock f = true ->
      op_step o (Releasing out) f = (Removing out, f) /\
      exists f',
        op_step o (Removing out) f = (Done out, f') /\ write_lock f' = false /\
        read_lock f' = read_lock f /\ changes_log f' = changes_log f) /\
  (forall (o : op) (p p' : pc) (f f' : fs),
      is_done p = false -> op_step o p f = (p', f') -> is_done p' = true ->
      write_lock f' = false) /\
  (forall (o : op) (f : fs),
      write_lock f = false ->
      exists out f2 f3 f5,
        run_alone 2 o Waiting f = (Held, f2) /\ write_lock f2 = true /\
        out = snd (body_of o f2) /\
        run_alone 3 o Waiting f = (Releasing out, f3) /\ write_lock f3 = true /\
        run_alone 4 o Waiting f = (Removing out, f3) /\
        run_alone 5 o Waiting f = (Done out, f5) /\ write_lock f5 = false) /\
  (forall (sql : string) (params : list SearchEngine.param) (e : exn) (denied : nat)
      (f : fs),
      write_lock f = false ->
      exists f',
        run_alone 5 (OpExecute sql params (Some e) denied) Waiting f
        = (Done (Raised e), f') /\
        write_lock f' = false /\ changes_log f' = changes_log f) /\
  (forall (f : fs) (ops : list op) (s : system),
      write_lock f = false ->
      rtc step (start f ops) s ->
      all_done s ->
      write_lock (files s) = false).
Proof.
  split.
  { intros o f. exists (set_write_lock true f).
    rewrite acquiring_creates_marker. by repeat split. }
  split.
  { intros o f Hf. destruct (held_keeps_marker o f Hf) as [Hstep Hw]. eauto. }
  split.
  { intros o out f Hf. destruct (releasing_removes_marker o out f Hf) as [H1 H2].
    split; [exact H1|]. exists (set_write_lock false f). by repeat split. }
  split; [exact finishing_clears_marker|].
  split.
  { intros o f Hf.
    destruct (run_alone_stages o f Hf) as (H2 & H3 & H4 & H5 & Hw).
    exists (snd (body_of o (set_write_lock true f))), (set_write_lock true f),
      (fst (body_of o (set_write_lock true f))),
      (set_write_lock false (fst (body_of o (set_write_lock true f)))).
    by repeat split. }
  split.
  { intros sql params e denied f Hf.
    destruct (run_alone_stages (OpExecute sql params (Some e) denied) f Hf)
      as (_ & _ & _ & H5 & _).
    eexists. split; [exact H5|]. by split. }
  intros f ops s Hf Hreach Hdone.
  apply all_done_no_marker; [|exact Hdone].
  eapply reachable_keeps_holder; [exact Hreach | by apply start_has_holder].
Qed.

Lemma write_lock_released_witness :
  let f := Fs false None None in
  let failing := OpExecute "UPDATE Persons SET first_name = ? WHERE nb = ?"
                   [Some "Jane"; Some "7"] (Some (OperationalError "database is locked")) 0 in
  let ops := [ failing; OpQuery "SELECT nb FROM Persons" [] (Ok [[Some 7%Z]]) ] in
  let s := run_schedule [0; 1; 0; 1; 0; 0; 0; 1; 1] (start f ops) in
  (write_lock f = false /\ rtc step (start f ops) s /\ all_done s) /\
  map snd (callers s)
  = [Done (Raised (OperationalError "database is locked")); Done Returned] /\
  write_lock (files s) = false /\
  exists out f2 f3 f5,
    run_alone 2 failing Waiting f = (Held, f2) /\ write_lock f2 = true /\
    out = snd (body_of failing f2) /\
    run_alone 3 failing Waiting f = (Releasing out, f3) /\ write_lock f3 = true /\
    run_alone 4 failing Waiting f = (Removing out, f3) /\
    run_alone 5 failing Waiting f = (Done out, f5) /\ write_lock f5 = false.
Proof.
  intros f failing ops s.
  assert (Hf : write_lock f = false) by reflexivity.
  assert (Hr : rtc step (start f ops) s) by apply run_schedule_rtc.
  assert (Hd : all_done s) by (vm_compute; repeat constructor).
  destruct write_lock_released as (_ & _ & _ & _ & Halone & _ & Hall).
  split; [by repeat split|]. split; [vm_compute; reflexivity|].
  split; [exact (Hall f ops s Hf Hr Hd) | exact (Halone failing f Hf)].
Defined.

(** ** C1: how the facade reads *)

Lemma blocked_stays_blocked (s : system) (i : nat) (o : op) :
  callers s !! i = Some (o, Waiting) ->
  write_lock (files s) = true ->
  step_at i s = s.
Proof.
  intros Hi Hl. unfold step_at. rewrite Hi. simpl. unfold op_step.
  replace (lock_of o) with WriteLock by (by destruct o). simpl. rewrite Hl.
  destruct s as [f cs]. simpl in *. f_equal. by apply list_insert_id.
Qed.

(** A caller that finds the marker absent and takes two steps before
    any other caller moves is alone inside its block. *)
Lemma first_in_is_alone (f : fs) (ops : list op) (i : nat) (o : op) :
  ops !! i = Some o ->
  write_lock f = false ->
  let s := run_schedule [i; i] (start f ops) in
  alone_inside i s /\
  callers s !! i = Some (o, Held) /\
  forall j other, j <> i -> ops !! j = Some other -> callers s !! j = Some (other, Waiting).
Proof.
  intros Hi Hf.
  assert (Hstart : callers (start f ops) !! i = Some (o, Waiting)).
  { unfold start. simpl. by rewrite list_lookup_fmap, Hi. }
  assert (Hlen : i < List.length (map (fun o => (o, Waiting)) ops)).
  { rewrite length_map. by eapply lookup_lt_Some. }
  assert (Hs : run_schedule [i; i] (start f ops)
               = System (set_write_lock true f)
                   (<[i:=(o, Held)]> (<[i:=(o, Acquiring)]> (map (fun o => (o, Waiting)) ops)))).
  { unfold run_schedule. simpl. unfold step_at at 2. rewrite Hstart. simpl.
    unfold op_step. replace (lock_of o) with WriteLock by (by destruct o). simpl.
    rewrite Hf. unfold step_at. simpl.
    rewrite list_lookup_insert_eq by exact Hlen. simpl.
    replace (lock_of o) with WriteLock by (by destruct o). reflexivity. }
  cbv zeta. rewrite Hs. cbn [callers files].
  assert (Hat : <[i:=(o, Held)]> (<[i:=(o, Acquiring)]> (map (fun o => (o, Waiting)) ops)) !! i
                = Some (o, Held)).
  { apply list_lookup_insert_eq. by rewrite length_insert. }
  assert (Hothers : forall j, j <> i ->
             <[i:=(o, Held)]> (<[i:=(o, Acquiring)]> (map (fun o => (o, Waiting)) ops)) !! j
             = (fun o => (o, Waiting)) <$> ops !! j).
  { intros j Hj. rewrite !list_lookup_insert_ne by congruence. apply list_lookup_fmap. }
  split; [|split].
  - split; [|split].
    + exists o, Held. by split.
    + reflexivity.
    + intros j o' p Hj Hlook. simpl in Hlook. rewrite (Hothers j Hj) in Hlook.
      destruct (ops !! j); inversion Hlook. by left.
  - exact Hat.
  - intros j other Hj Hother. rewrite (Hothers j Hj), Hother. reflexivity.
Qed.

(** While a caller is alone inside its block a step leaves the others
    where they are, and leaves the caller alone inside unless it is the
    step by which the caller ends. *)
Lemma alone_step (i : nat) (s s' : system) :
  step s s' ->
  alone_inside i s ->
  (alone_inside i s' \/ has_left i s') /\
  forall j, j <> i -> callers s' !! j = callers s !! j.
Proof.
  intros [s0 k o p p' f' Hk Hnd Hstep] ((oi & pi & Hi & Hholds) & Hlock & Hothers).
  simpl in *.
  assert (Hlen : k < List.length (callers s0)) by (by eapply lookup_lt_Some).
  destruct (decide (k = i)) as [->|Hne].
  - rewrite Hi in Hk. inversion Hk; subst oi pi.
    assert (Hrest : forall j, j <> i -> <[i:=(o, p')]> (callers s0) !! j = callers s0 !! j).
    { intros j Hj. by rewrite list_lookup_insert_ne by congruence. }
    split; [|exact Hrest].
    assert (Hkeep : holds p' = true -> write_lock f' = true ->
                    alone_inside i (System f' (<[i:=(o, p')]> (callers s0)))).
    { intros Hp' Hf'. split; [|split].
      - exists o, p'. split; [by apply list_lookup_insert_eq | exact Hp'].
      - exact Hf'.
      - intros j o' q Hj Hlook. simpl in Hlook. rewrite (Hrest j Hj) in Hlook.
        by eapply Hothers. }
    destruct p as [| | |out|out|out]; try discriminate.
    + destruct (held_keeps_marker o (files s0) Hlock) as [Hs Hw].
      rewrite Hs in Hstep. inversion Hstep; subst. left. by apply Hkeep.
    + destruct (releasing_removes_marker o out (files s0) Hlock) as [Hs _].
      rewrite Hs in Hstep. inversion Hstep; subst. left. by apply Hkeep.
    + destruct (releasing_removes_marker o out (files s0) Hlock) as [_ Hs].
      rewrite Hs in Hstep. inversion Hstep; subst. right.
      exists o, out. simpl. by apply list_lookup_insert_eq.
  - destruct (Hothers k o p Hne Hk) as [->|Hdone]; [|congruence].
    assert (Hs : op_step o Waiting (files s0) = (Waiting, files s0)).
    { unfold op_step. replace (lock_of o) with WriteLock by (by destruct o).
      simpl. by rewrite Hlock. }
    rewrite Hs in Hstep. inversion Hstep; subst.
    rewrite (list_insert_id _ _ _ Hk).
    split; [|reflexivity]. left. split; [|split]; [by exists oi, pi | exact Hlock | exact Hothers].
Qed.

(** A caller that has left stays so. *)
Lemma left_stays_left (i : nat) (s s' : system) :
  step s s' -> has_left i s -> has_left i s'.
Proof.
  intros [s0 k o p p' f' Hk Hnd Hstep] (oi & out & Hi). simpl in *.
  exists oi, out. simpl. rewrite list_lookup_insert_ne; [exact Hi|].
  intros ->. rewrite Hi in Hk. inversion Hk; subst. discriminate.
Qed.

Lemma alone_until_left (i : nat) (s s' : system) :
  rtc step s s' ->
  alone_inside i s ->
  has_left i s' \/
  (alone_inside i s' /\ forall j, j <> i -> callers s' !! j = callers s !! j).
Proof.
  intros Hrun Halone. revert s' Hrun. apply rtc_ind_r.
  - right. by split.
  - intros s1 s2 Hrun Hstep IH. destruct IH as [Hleft|[Hal Hsame]].
    + left. by eapply left_stays_left.
    + destruct (alone_step i s1 s2 Hstep Hal) as [[Hal'|Hleft] Hsame'].
      * right. split; [exact Hal'|]. intros j Hj. by rewrite Hsame', Hsame.
      * by left.
Qed.

(** C1 (amended).  Every read of the facade goes through
    [acquire_write_lock]: it waits as long as the write marker exists,
    whoever wrote it, then creates the write marker itself and never
    writes the read marker.  While the marker exists, every caller that
    polls, a read as well as a write, stays waiting.  A read that finds
    the marker absent and creates it before any other caller has passed
    the test is alone inside its block: until the read has removed the
    marker, whatever the callers do, the marker exists and every other
    caller is where it was, waiting.  A read that runs alone leaves the
    files as it found them. *)
Theorem query_takes_write_lock (sql : string) (params : list SearchEngine.param)
    (answer : result (list row)) :
  let o := OpQuery sql params answer in
  (forall (p : pc) (f : fs), op_step o p f = lock_step WriteLock (body_of o) p f) /\
  (forall (f : fs),
      op_step o Waiting f = if write_lock f then (Waiting, f) else (Acquiring, f)) /\
  (forall (f : fs),
      exists f', op_step o Acquiring f = (Held, f') /\ write_lock f' = true /\
                 read_lock f' = read_lock f) /\
  (forall (p : pc) (f : fs), read_lock (snd (op_step o p f)) = read_lock f) /\
  (forall (s : system) (j : nat) (other : op),
      callers s !! j = Some (other, Waiting) ->
      write_lock (files s) = true ->
      step_at j s = s) /\
  (forall (f : fs) (ops : list op) (i : nat),
      ops !! i = Some o ->
      write_lock f = false ->
      let s := run_schedule [i; i] (start f ops) in
      callers s !! i = Some (o, Held) /\
      write_lock (files s) = true /\
      forall s',
        rtc step s s' ->
        ~ has_left i s' ->
        write_lock (files s') = true /\
        forall j other,
          j <> i -> ops !! j = Some other -> callers s' !! j = Some (other, Waiting)) /\
  (forall (f : fs),
      write_lock f = false ->
      run_alone 5 o Waiting f
      = (Done match answer with
              | Ok _ => Returned
              | Raise e => Raised e
              end, f)).
Proof.
  intros o. split; [reflexivity|]. split; [reflexivity|].
  split; [intros f; exists (set_write_lock true f); by repeat split|].
  split.
  { intros p f. destruct p as [| | |out|out|out]; simpl.
    - by destruct (write_lock f).
    - reflexivity.
    - by destruct answer.
    - by destruct (write_lock f).
    - by destruct (write_lock f).
    - reflexivity. }
  split; [exact (fun s j other => blocked_stays_blocked s j other)|].
  split.
  { intros f ops i Hi Hf s.
    destruct (first_in_is_alone f ops i o Hi Hf) as (Halone & Hheld & Hwait).
    fold s in Halone, Hheld, Hwait.
    split; [exact Hheld|]. split; [exact (proj1 (proj2 Halone))|].
    intros s' Hrun Hnot.
    destruct (alone_until_left i s s' Hrun Halone) as [Hleft|[Hal Hsame]]; [done|].
    split; [exact (proj1 (proj2 Hal))|].
    intros j other Hj Hother. rewrite (Hsame j Hj). by apply Hwait. }
  intros f Hf. destruct (run_alone_stages o f Hf) as (_ & _ & _ & H5 & _).
  rewrite H5. destruct f as [w r c]. simpl in Hf. subst w.
  by destruct answer.
Qed.

Lemma query_takes_write_lock_witness :
  let o := OpQuery "SELECT nb FROM Persons" [] (Ok [[Some 1%Z]; [Some 2%Z]]) in
  let other := OpQuery "SELECT nb FROM Cases" [] (Ok []) in
  let f := Fs false (Some " ") (Some "") in
  let s := run_schedule [0; 0] (start f [o; other]) in
  let s' := run_schedule [1; 0; 1; 1; 0; 1] s in
  (write_lock f = false /\ rtc step s s' /\ ~ has_left 0 s') /\
  callers s !! 0 = Some (o, Held) /\
  write_lock (files s') = true /\
  callers s' !! 1 = Some (other, Waiting) /\
  run_alone 5 o Waiting f = (Done Returned, f).
Proof.
  intros o other f s s'.
  assert (Hf : write_lock f = false) by reflexivity.
  assert (Hrun : rtc step s s') by apply run_schedule_rtc.
  assert (Hnot : ~ has_left 0 s').
  { intros (o' & out & H). vm_compute in H. discriminate H. }
  destruct (query_takes_write_lock "SELECT nb FROM Persons" [] (Ok [[Some 1%Z]; [Some 2%Z]]))
    as (_ & _ & _ & _ & _ & Halone & Hfiles).
  destruct (Halone f [o; other] 0 eq_refl Hf) as (Hheld & _ & Hwhile).
  destruct (Hwhile s' Hrun Hnot) as [Hlock Hwait].
  split; [by repeat split|]. split; [exact Hheld|]. split; [exact Hlock|].
  split; [exact (Hwait 1 other ltac:(discriminate) eq_refl) | exact (Hfiles f Hf)].
Defined.

(** C1, as the specification has it, fails: of two reads the first
    writes the write marker and leaves the read marker alone, and the
    second waits for it, as long as it polls. *)
Lemma read_lock_discipline_counterexample :
  let read1 := OpQuery "SELECT nb FROM Persons" [] (Ok []) in
  let read2 := OpQuery "SELECT nb FROM Cases" [] (Ok []) in
  let idle := Fs false None None in
  let s := run_schedule [0; 0] (start idle [read1; read2]) in
  ~ follows_read_lock_discipline read1 /\
  callers s = [(read1, Held); (read2, Waiting)] /\
  write_lock (files s) = true /\
  read_lock (files s) = None /\
  forall n : nat, run_schedule (repeat 1 n) s = s.
Proof.
  intros read1 read2 idle s.
  split.
  { intros H. specialize (H Acquiring idle). vm_compute in H. discriminate H. }
  split; [reflexivity|]. split; [reflexivity|]. split; [reflexivity|].
  induction n as [|n IH]; [reflexivity|].
  simpl. rewrite (blocked_stays_blocked s 1 read2); [exact IH | reflexivity | reflexivity].
Qed.

End lock_coordinator.

Section change_log.
Import Locks DatabaseAccess DataNotifier.

(** ** The change log and the notifier *)

Lemma drop_append (a b : string) : Py.drop (String.length a) (a +:+ b) = b.
Proof. induction a as [|c a IH]; [by destruct b | exact IH]. Qed.

Lemma drop_length (a : string) : Py.drop (String.length a) a = "".
Proof. induction a as [|c a IH]; [reflexivity | exact IH]. Qed.

Lemma log_changes_retries (denied : nat) (sql : string) (log : option string) :
  _log_changes denied sql log = _log_changes 0 sql log.
Proof. induction denied as [|n IH]; [reflexivity | exact IH]. Qed.

Lemma persons_marker_only (sql : string) :
  _get_affected_tables sql = {[ "Persons" ]} ->
  markers_of (_get_affected_tables sql) = persons_marker.
Proof. intros ->. vm_compute. reflexivity. Qed.

(** The statements that the facade sends for a person are classified as
    touching [Persons] and nothing else. *)
Example person_statements :
  _get_affected_tables
    "INSERT INTO Persons (last_name, first_name, address, birth_date, contact_info, gender, description, notes, can_be_lawyer) VALUES (?, ?, ?, ?, ?, ?, ?, ?, ?)"
  = {[ "Persons" ]} /\
  _get_affected_tables "UPDATE Persons SET first_name = ?, notes = ? WHERE nb = ?"
  = {[ "Persons" ]} /\
  _get_affected_tables "DELETE FROM Persons WHERE nb = 17" = {[ "Persons" ]}.
Proof. repeat split; vm_compute; reflexivity. Qed.

(** A notifier that starts on a log with a history emits the history
    first: the markers of all the groups that were ever touched. *)
Example first_poll_reads_history :
  poll_for_changes init
    (Fs false None (Some (cases_marker +:+ cases_marker +:+ documents_marker)))
  = (Notifier 3, Some {[ Py.chr 9; " "%char ]}).
Proof. vm_compute. reflexivity. Qed.

End change_log.

(** ** C6: the REGEXP predicate *)

Lemma prefix_append (a b : string) : String.prefix a (a +:+ b) = true.
Proof.
  induction a as [|c a IH]; [by destruct b|]. simpl.
  destruct (ascii_dec c c); [exact IH | congruence].
Qed.

Lemma substring_append_l (a b : string) :
  substring 0 (String.length a) (a +:+ b) = a.
Proof. induction a as [|c a IH]; [by destruct b | simpl; by rewrite IH]. Qed.

Lemma substring_append_r (a b : string) :
  substring (String.length a) (String.length b) (a +:+ b) = b.
Proof.
  induction a as [|c a IH]; [apply substring_zero_length | exact IH].
Qed.

Lemma endswith_append (a b : string) : Py.endswith (a +:+ b) b = true.
Proof.
  unfold Py.endswith. rewrite length_append.
  replace (String.length b <=? String.length a + String.length b) with true
    by (symmetry; apply Nat.leb_le; lia).
  replace (String.length a + String.length b - String.length b)
    with (String.length a) by lia.
  rewrite substring_append_r. simpl. apply String.eqb_refl.
Qed.

Lemma removeprefix_append (a b : string) : Py.removeprefix (a +:+ b) a = b.
Proof.
  unfold Py.removeprefix, Py.startswith. rewrite prefix_append, length_append.
  replace (String.length a + String.length b - String.length a)
    with (String.length b) by lia.
  apply substring_append_r.
Qed.

Lemma removesuffix_append (a b : string) : Py.removesuffix (a +:+ b) b = a.
Proof.
  unfold Py.removesuffix. rewrite endswith_append, length_append.
  replace (String.length a + String.length b - String.length b)
    with (String.length a) by lia.
  apply substring_append_l.
Qed.

Lemma substring_append_skip (a b : string) (n m : nat) :
  substring (String.length a + n) m (a +:+ b) = substring n m b.
Proof. induction a as [|c a IH]; [reflexivity | exact IH]. Qed.

(** What [startswith] and [endswith] say of a string. *)
Lemma startswith_spec (p w : string) :
  Py.startswith p w = true -> p = w +:+ Py.removeprefix p w.
Proof.
  intros Hp. unfold Py.removeprefix. rewrite Hp. unfold Py.startswith in Hp.
  revert p Hp. induction w as [|a w IH]; intros p Hp.
  - simpl. rewrite Nat.sub_0_r. symmetry. apply substring_zero_length.
  - destruct p as [|b p]; [discriminate|]. simpl in Hp.
    destruct (ascii_dec a b) as [->|]; [|discriminate].
    simpl. rewrite append_cons. f_equal. by apply IH.
Qed.

Lemma endswith_spec (p w : string) :
  Py.endswith p w = true -> p = Py.removesuffix p w +:+ w.
Proof.
  intros Hp. unfold Py.removesuffix. rewrite Hp. unfold Py.endswith in Hp.
  apply andb_prop in Hp as [Hlen Heq].
  apply Nat.leb_le in Hlen. apply String.eqb_eq in Heq.
  transitivity (substring 0 (String.length p - String.length w) p
                +:+ substring (0 + (String.length p - String.length w)) (String.length w) p);
    [|simpl; by rewrite Heq].
  rewrite substring_split.
  replace (String.length p - String.length w + String.length w) with (String.length p) by lia.
  symmetry. apply substring_zero_length.
Qed.

Lemma endswith_inner (w r : string) :
  Py.endswith (w +:+ r) w = true ->
  String.length w <= String.length r ->
  Py.endswith r w = true.
Proof.
  unfold Py.endswith. rewrite length_append. intros Hp Hlen.
  apply andb_prop in Hp as [_ Heq].
  replace (String.length w + String.length r - String.length w)
    with (String.length w + (String.length r - String.length w)) in Heq by lia.
  rewrite substring_append_skip in Heq. rewrite Heq.
  by replace (String.length w <=? String.length r) with true
    by (symmetry; apply Nat.leb_le; lia).
Qed.

(** A string that begins and ends with [w] and is long enough for both
    is [w], something, [w]. *)
Lemma wrapped_long (w p : string) :
  Py.startswith p w = true ->
  Py.endswith p w = true ->
  2 * String.length w <= String.length p ->
  p = w +:+ Py.removesuffix (Py.removeprefix p w) w +:+ w.
Proof.
  intros Hs He Hlen. pose proof (startswith_spec p w Hs) as Hp.
  set (r := Py.removeprefix p w) in *.
  assert (Hr : String.length w <= String.length r).
  { apply (f_equal String.length) in Hp. rewrite length_append in Hp. lia. }
  rewrite Hp in He. apply endswith_inner in He; [|exact Hr].
  rewrite Hp at 1. f_equal. by apply endswith_spec.
Qed.

(** The two strings that begin and end with the wrapper and are too
    short for both. *)
Lemma wrapped_short_star (p : string) :
  Py.startswith p ".*" = true ->
  Py.endswith p ".*" = true ->
  String.length p < 4 ->
  p = ".*".
Proof.
  intros Hs He Hlen. pose proof (startswith_spec p ".*" Hs) as Hp.
  destruct (Py.removeprefix p ".*") as [|c [|d r]]; rewrite Hp in *.
  - reflexivity.
  - vm_compute in He. discriminate He.
  - simpl in Hlen. lia.
Qed.

Lemma wrapped_short_quote (p : string) :
  Py.startswith p "'" = true ->
  String.length p < 2 ->
  p = "'".
Proof.
  intros Hs Hlen. pose proof (startswith_spec p "'" Hs) as Hp.
  destruct (Py.removeprefix p "'") as [|c r]; rewrite Hp in *.
  - reflexivity.
  - simpl in Hlen. lia.
Qed.

Section worded.
Import Regexp.

(** The definitions of the words are right: [inner_of w p] is the
    text between [w] and [w]. *)
Lemma strip_front_spec (w p rest : string) :
  strip_front w p = Some rest <-> p = w +:+ rest.
Proof.
  revert p. induction w as [|a w IH]; intros p; simpl.
  - split; [by inversion 1 | by intros ->].
  - destruct p as [|b p]; [split; discriminate|].
    destruct (Ascii.eqb_spec a b) as [->|Hne].
    + rewrite IH. split; [by intros -> | by inversion 1].
    + split; [discriminate | inversion 1; congruence].
Qed.

Lemma list_of_append (a b : string) :
  list_ascii_of_string (a +:+ b) = list_ascii_of_string a ++ list_ascii_of_string b.
Proof. induction a as [|c a IH]; simpl; [reflexivity | by rewrite IH]. Qed.

Lemma string_of_app (l1 l2 : list ascii) :
  string_of_list_ascii (l1 ++ l2) = string_of_list_ascii l1 +:+ string_of_list_ascii l2.
Proof. induction l1 as [|c l1 IH]; simpl; [reflexivity | by rewrite IH]. Qed.

Lemma reverse_append (a b : string) : reverse (a +:+ b) = reverse b +:+ reverse a.
Proof. unfold reverse. by rewrite list_of_append, rev_app_distr, string_of_app. Qed.

Lemma reverse_involutive (s : string) : reverse (reverse s) = s.
Proof.
  unfold reverse.
  by rewrite list_ascii_of_string_of_list_ascii, rev_involutive, string_of_list_ascii_of_string.
Qed.

Lemma strip_back_spec (w p rest : string) :
  strip_back w p = Some rest <-> p = rest +:+ w.
Proof.
  unfold strip_back. split.
  - destruct (strip_front (reverse w) (reverse p)) as [s|] eqn:E; [|discriminate].
    intros Hs. inversion Hs; subst rest. apply strip_front_spec in E.
    rewrite <- (reverse_involutive p), E, reverse_append. by rewrite reverse_involutive.
  - intros ->. rewrite reverse_append.
    rewrite (proj2 (strip_front_spec (reverse w) _ (reverse rest)) eq_refl).
    simpl. by rewrite reverse_involutive.
Qed.

Lemma inner_of_spec (w p inner : string) :
  inner_of w p = Some inner <-> p = w +:+ inner +:+ w.
Proof.
  unfold inner_of. split.
  - destruct (strip_front w p) as [remains|] eqn:E; [|discriminate].
    intros Hb. apply strip_front_spec in E. apply strip_back_spec in Hb. by subst.
  - intros ->. rewrite (proj2 (strip_front_spec w _ (inner +:+ w)) eq_refl).
    by apply strip_back_spec.
Qed.

(** What the tests and the stripping of the code give on a wrapped
    string. *)
Lemma wrapped_tests (w inner : string) :
  Py.startswith (w +:+ inner +:+ w) w && Py.endswith (w +:+ inner +:+ w) w = true /\
  Py.removesuffix (Py.removeprefix (w +:+ inner +:+ w) w) w = inner.
Proof.
  split.
  - unfold Py.startswith. rewrite prefix_append. simpl.
    rewrite <- append_assoc. apply endswith_append.
  - by rewrite removeprefix_append, removesuffix_append.
Qed.

(** The tests of the code fail on a string that is not wrapped, but for
    the wrapper itself. *)
Lemma unwrapped_star (p : string) :
  inner_of ".*" p = None -> p <> ".*" ->
  Py.startswith p ".*" && Py.endswith p ".*" = false.
Proof.
  intros Hnone Hp.
  destruct (Py.startswith p ".*") eqn:Hs; [|reflexivity].
  destruct (Py.endswith p ".*") eqn:He; [|reflexivity]. exfalso.
  destruct (le_lt_dec 4 (String.length p)) as [Hlen|Hlen].
  - pose proof (wrapped_long ".*" p Hs He Hlen) as Hw.
    apply inner_of_spec in Hw. congruence.
  - by apply Hp, wrapped_short_star.
Qed.

Lemma unwrapped_quote (p : string) :
  inner_of "'" p = None -> p <> "'" ->
  Py.startswith p "'" && Py.endswith p "'" = false.
Proof.
  intros Hnone Hp.
  destruct (Py.startswith p "'") eqn:Hs; [|reflexivity].
  destruct (Py.endswith p "'") eqn:He; [|reflexivity]. exfalso.
  destruct (le_lt_dec 2 (String.length p)) as [Hlen|Hlen].
  - pose proof (wrapped_long "'" p Hs He Hlen) as Hw.
    apply inner_of_spec in Hw. congruence.
  - by apply Hp, wrapped_short_quote.
Qed.

Context `{PyRe}.

(** What [_regexp] does with a pattern and a text, when the value is
    not NULL. *)
Lemma regexp_on_text (p : string) (v : sql_value) (text : string) :
  display v = Some text ->
  _regexp p v
  = match (if Py.startswith p ".*" && Py.endswith p ".*" then
             let new_pattern := Py.removesuffix (Py.removeprefix p ".*") ".*" in
             if Py.startswith new_pattern "'" && Py.endswith new_pattern "'" then
               re_fullmatch (Py.removesuffix (Py.removeprefix new_pattern "'") "'") text
             else re_search true new_pattern text
           else if Py.startswith p "'" && Py.endswith p "'" then
             re_fullmatch (Py.removesuffix (Py.removeprefix p "'") "'") text
           else re_search false p text) with
    | Ok matched => matched
    | Raise _ => false
    end.
Proof.
  destruct v; simpl; intros Hv; inversion Hv; subst text; reflexivity.
Qed.

Lemma quoted_or_not (p : string) (text : string) (otherwise : regexp_mode) :
  p <> "'" ->
  (if Py.startswith p "'" && Py.endswith p "'" then
     re_fullmatch (Py.removesuffix (Py.removeprefix p "'") "'") text
   else perform otherwise text)
  = perform match inner_of "'" p with
            | Some inner => FullMatch inner
            | None => otherwise
            end text.
Proof.
  intros Hp. destruct (inner_of "'" p) as [inner|] eqn:E.
  - apply inner_of_spec in E. subst p.
    destruct (wrapped_tests "'" inner) as [Ht Hu]. by rewrite Ht, Hu.
  - by rewrite (unwrapped_quote p E Hp).
Qed.

(** C6 (amended).  [_regexp] is the predicate of the specification,
    whatever [re.search] and [re.fullmatch] answer, on every pattern but
    three: NULL gives false; any other value is matched as its display
    string; a pattern that is [.*], something, [.*] is stripped of the
    wrapper and, if what remains is a quote, something, a quote, matched
    in full on what the quotes hold, otherwise searched without regard
    to case; a pattern that is a quote, something, a quote is matched in
    full; any other pattern is searched; and an exception gives false.
    The three patterns are the wrappers on their own.  The code takes a
    string that begins and ends with the wrapper for wrapped, also when
    the beginning and the end are the same characters: the lone quote
    and [.*'.*] are matched in full on the empty pattern, where the
    specification has a search for the quote, and the lone [.*] is
    searched as the empty pattern without regard to case, where the
    specification has a plain search for [.*]. *)
Theorem regexp_agrees_but_for_lone_wrappers :
  (forall (p : string) (v : sql_value),
      p <> "'" -> p <> ".*'.*" -> p <> ".*" ->
      _regexp p v = regexp_as_worded p v) /\
  (forall (w p inner : string), inner_of w p = Some inner <-> p = w +:+ inner +:+ w) /\
  (forall (p : string) (v : sql_value) (text : string),
      p = "'" \/ p = ".*'.*" ->
      display v = Some text ->
      _regexp p v = match re_fullmatch "" text with
                    | Ok matched => matched
                    | Raise _ => false
                    end) /\
  (forall (v : sql_value) (text : string),
      display v = Some text ->
      _regexp ".*" v = match re_search true "" text with
                       | Ok matched => matched
                       | Raise _ => false
                       end) /\
  (forall p : string, _regexp p SqlNull = false) /\
  mode_as_worded "'" = SearchPlain "'" /\
  mode_as_worded ".*'.*" = SearchIgnoreCase "'" /\
  mode_as_worded ".*" = SearchPlain ".*".
Proof.
  split.
  { intros p v Hq Hqq Hs. unfold regexp_as_worded.
    destruct (display v) as [text|] eqn:Hv; [|by destruct v].
    rewrite (regexp_on_text p v text Hv).
    match goal with
    | |- match ?a with _ => _ end = match ?b with _ => _ end =>
        assert (Hsame : a = b); [|by rewrite Hsame]
    end.
    unfold mode_as_worded.
    destruct (inner_of ".*" p) as [remains|] eqn:E.
    - apply inner_of_spec in E. subst p.
      destruct (wrapped_tests ".*" remains) as [Ht Hu]. rewrite Ht. cbv zeta. rewrite Hu.
      apply (quoted_or_not remains text (SearchIgnoreCase remains)).
      intros ->. by apply Hqq.
    - rewrite (unwrapped_star p E Hs).
      by apply (quoted_or_not p text (SearchPlain p)). }
  split; [exact inner_of_spec|].
  split.
  { intros p v text [->| ->] Hv; by rewrite (regexp_on_text _ v text Hv). }
  split; [intros v text Hv; by rewrite (regexp_on_text _ v text Hv)|].
  split; [reflexivity|].
  by repeat split.
Qed.

(** An exception never leaves [_regexp]. *)
Lemma regexp_exception_is_no_match (p : string) (v : sql_value) (e : exn) :
  (forall ignore_case pattern text, re_search ignore_case pattern text = Raise e) ->
  (forall pattern text, re_fullmatch pattern text = Raise e) ->
  _regexp p v = false.
Proof.
  intros Hs Hf. unfold _regexp, catch_false.
  destruct v; simpl; try reflexivity.
  all: repeat match goal with
         | |- context [if ?b then _ else _] => destruct b; simpl
         end.
  all: by rewrite ?Hs, ?Hf.
Qed.
End worded.

Lemma regexp_agrees_but_for_lone_wrappers_witness :
  @Regexp._regexp Regexp.literal_re ".*'Doe'.*" (Regexp.SqlText "Doe")
  = @Regexp.regexp_as_worded Regexp.literal_re ".*'Doe'.*" (Regexp.SqlText "Doe") /\
  @Regexp._regexp Regexp.literal_re "4" (Regexp.SqlInteger 42)
  = @Regexp.regexp_as_worded Regexp.literal_re "4" (Regexp.SqlInteger 42).
Proof.
  destruct (@regexp_agrees_but_for_lone_wrappers Regexp.literal_re) as [Hagree _].
  split; apply Hagree; discriminate.
Defined.

(** C6, as the specification has it, fails on the lone quote: the code
    takes it for a pattern wrapped in quotes and matches the empty
    pattern in full, which fails on a text that is not empty, where the
    specification has a search for the quote, which is found in the
    text.  The same holds for the vague search for a quote, [.*'.*]. *)
Lemma lone_quote_counterexample :
  @Regexp._regexp Regexp.literal_re "'" (Regexp.SqlText "it's") = false /\
  @Regexp.regexp_as_worded Regexp.literal_re "'" (Regexp.SqlText "it's") = true /\
  @Regexp._regexp Regexp.literal_re ".*'.*" (Regexp.SqlText "it's") = false /\
  @Regexp.regexp_as_worded Regexp.literal_re ".*'.*" (Regexp.SqlText "it's") = true.
Proof. repeat split; vm_compute; reflexivity. Qed.

(** ** C10: what [search] returns *)

Section search.
Import SearchEngine DatabaseAccess.

Lemma search_tables_no_documents (results : list row) (pairs : list (string * ret_spec)) :
  forall (i : nat) (returns returns' : list search_entry),
    no_documents returns ->
    search_tables i pairs results returns = Ok returns' ->
    no_documents returns'.
Proof.
  induction pairs as [|[table ret_vals] pairs IH]; intros i returns returns' Hnd Hs;
    simpl in Hs.
  - by inversion Hs; subst.
  - destruct (String.eqb_spec table "Documents") as [Heq|Hne].
    + eapply IH; eassumption.
    + destruct (transposed_at i results) as [column|e]; [|discriminate].
      simpl in Hs. eapply IH; [|exact Hs].
      apply Forall_app. split; [exact Hnd|]. by repeat constructor.
Qed.

Lemma search_queries_no_documents (_query : string -> list param -> result (list row))
    (queries : list compiled) :
  forall (returns returns' : list search_entry),
    no_documents returns ->
    search_queries _query queries returns = Ok returns' ->
    no_documents returns'.
Proof.
  induction queries as [|c queries IH]; intros returns returns' Hnd Hs; simpl in Hs.
  - by inversion Hs; subst.
  - destruct (_query (c_sql c) (c_params c)) as [results|e]; [|discriminate].
    simpl in Hs. destruct results as [|r results].
    + eapply IH; eassumption.
    + destruct (search_tables 0 _ _ _) as [returns1|e] eqn:Ht; [|discriminate].
      simpl in Hs. eapply IH; [|exact Hs].
      eapply search_tables_no_documents; eassumption.
Qed.

(** C10.  Whatever the query and whatever the database answers, no
    element of the tuple that [search] returns is for the table
    [Documents]. *)
Theorem search_never_returns_documents
    (_query : string -> list param -> result (list row)) (query : string)
    (returns : list search_entry) :
  search _query query = Ok returns ->
  no_documents returns.
Proof.
  unfold search. intros Hs.
  destruct (get_sql_query_from_user_input query) as [queries|e]; [|discriminate].
  simpl in Hs. eapply search_queries_no_documents; [|exact Hs]. constructor.
Qed.

Lemma search_never_returns_documents_witness :
  search two_rows ""
  = Ok [ ("Persons", {[ Some 1%Z; Some 2%Z ]},
          Some ["first_name"; "last_name"; "can_be_lawyer"]);
         ("Cases", {[ Some 10%Z ]}, Some ["name"]) ]
  /\ no_documents
       [ ("Persons", {[ Some 1%Z; Some 2%Z ]} : gset cell,
          Some ["first_name"; "last_name"; "can_be_lawyer"]);
         ("Cases", {[ Some 10%Z ]}, Some ["name"]) ].
Proof.
  assert (H : search two_rows ""
              = Ok [ ("Persons", {[ Some 1%Z; Some 2%Z ]},
                      Some ["first_name"; "last_name"; "can_be_lawyer"]);
                     ("Cases", {[ Some 10%Z ]}, Some ["name"]) ])
    by (vm_compute; reflexivity).
  split; [exact H | exact (search_never_returns_documents two_rows "" _ H)].
Defined.

(** A search in the documents alone comes back empty, whatever the
    database holds. *)
Example document_search_is_empty : search two_rows "docu:contract" = Ok [].
Proof. vm_compute. reflexivity. Qed.
End search.

(** ** Placeholders and parameters *)

Section placeholders.
Import SearchEngine.

Lemma placeholders_append (s t : string) :
  placeholders (s +:+ t) = placeholders s + placeholders t.
Proof.
  induction s as [|c s IH]; [by rewrite append_nil_l|].
  rewrite append_cons. simpl. rewrite IH. lia.
Qed.

Lemma placeholders_join (sep : string) (l : list string) :
  placeholders (Py.join sep l)
  = sum_list (map placeholders l) + (List.length l - 1) * placeholders sep.
Proof.
  unfold Py.join. induction l as [|x l IH]; [reflexivity|].
  destruct l as [|y l].
  - simpl. lia.
  - change (String.concat sep (x :: y :: l))
      with (x +:+ sep +:+ String.concat sep (y :: l)).
    rewrite !placeholders_append, IH. simpl. lia.
Qed.

Lemma placeholders_concat (l : list string) :
  placeholders (String.concat "" l) = sum_list (map placeholders l).
Proof.
  pose proof (placeholders_join "" l) as H. unfold Py.join in H.
  rewrite H. simpl. lia.
Qed.

Lemma placeholders_substring (s : string) :
  forall a n, placeholders (substring a n s) <= placeholders s.
Proof.
  induction s as [|c s IH]; intros [|a] [|n]; simpl; try lia.
  - specialize (IH 0 n). lia.
  - specialize (IH a 0). lia.
  - specialize (IH a (S n)). lia.
Qed.

Lemma placeholders_lower (s : string) : placeholders (Py.lower s) = placeholders s.
Proof.
  induction s as [|c s IH]; [reflexivity|]. simpl. rewrite IH. f_equal.
  destruct c as [[] [] [] [] [] [] [] []]; reflexivity.
Qed.

Lemma plain_removesuffix (s suffix : string) :
  plain s -> plain (Py.removesuffix s suffix).
Proof.
  unfold plain, Py.removesuffix. intros H. destruct (Py.endswith s suffix); [|exact H].
  pose proof (placeholders_substring s 0 (String.length s - String.length suffix)). lia.
Qed.

Lemma plain_uint (d : Decimal.uint) : plain (NilEmpty.string_of_uint d).
Proof. induction d; simpl; try reflexivity; exact IHd. Qed.

Lemma plain_str_of_int (z : Z) : plain (Py.str_of_int z).
Proof.
  unfold Py.str_of_int, NilZero.string_of_int, NilZero.string_of_uint.
  destruct (Z.to_int z) as [d|d]; destruct d;
    solve [reflexivity | apply (plain_uint (_ d)) | apply plain_uint
          | exact (plain_uint (Decimal.D0 d)) ].
Qed.

Lemma sum_list_append (l1 l2 : list nat) :
  sum_list (l1 ++ l2) = sum_list l1 + sum_list l2.
Proof. induction l1 as [|x l1 IH]; simpl; [reflexivity | rewrite IH; lia]. Qed.

Lemma sum_list_ones {A : Type} (f : A -> nat) (l : list A) :
  Forall (fun x => f x = 1) l -> sum_list (map f l) = List.length l.
Proof. induction 1 as [|x l Hx _ IH]; simpl; [reflexivity | lia]. Qed.

Lemma sum_list_zeros {A : Type} (f : A -> nat) (l : list A) :
  Forall (fun x => f x = 0) l -> sum_list (map f l) = 0.
Proof. induction 1 as [|x l Hx _ IH]; simpl; [reflexivity | lia]. Qed.

Lemma plain_table_of_column (column : option string) (d : list (string * list string)) :
  plain_schema d -> plain (table_of_column column d).
Proof.
  unfold table_of_column. intros Hd.
  assert (H : forall t, plain t ->
    plain (fold_left (fun table tc => if in_columns column (snd tc) then fst tc else table)
             d t)).
  { induction Hd as [|[t cols] d [Ht _] _ IH]; intros t0 Ht0; simpl; [exact Ht0|].
    apply IH. by destruct (in_columns column cols). }
  by apply H.
Qed.

Lemma plain_left_join (main_table k : string) :
  plain main_table -> plain k -> plain (left_join main_table k).
Proof.
  unfold plain, left_join. intros Hm Hk.
  pose proof (plain_removesuffix (Py.lower main_table) "s") as Hs.
  unfold plain in Hs. rewrite placeholders_lower in Hs. specialize (Hs Hm).
  rewrite !placeholders_append, Hm, Hk, Hs. reflexivity.
Qed.

Lemma arms_placeholders (N : nat) (attrs : list (string * string)) :
  Forall (fun tc => plain (fst tc) /\ plain (snd tc)) attrs ->
  forall k, sum_list (map placeholders (arms_from N k attrs)) = 2 * List.length attrs.
Proof.
  induction 1 as [|[t c] attrs [Ht Hc] _ IH]; intros k; [reflexivity|].
  cbn [arms_from map sum_list List.length fst snd] in *. rewrite IH.
  unfold when_exact, when_regex, plain in *.
  rewrite !placeholders_append, Ht, Hc, !plain_str_of_int. simpl. lia.
Qed.

Lemma plain_attributes (d : list (string * list string)) :
  plain_schema d ->
  Forall (fun tc => plain (fst tc) /\ plain (snd tc)) (attributes d).
Proof.
  unfold attributes. induction 1 as [|[t cols] d [Ht Hcols] _ IH]; simpl; [constructor|].
  apply Forall_app. split; [|exact IH].
  apply Forall_map. eapply Forall_impl; [exact Hcols|]. intros c Hc. by split.
Qed.

Lemma where_placeholders (d : list (string * list string)) :
  plain_schema d ->
  sum_list (map placeholders
    (flat_map (fun tc => map (fun column => fst tc +:+ "." +:+ column +:+ " REGEXP ?")
                           (snd tc)) d))
  = List.length (attributes d).
Proof.
  unfold attributes. induction 1 as [|[t cols] d [Ht Hcols] _ IH]; simpl; [reflexivity|].
  rewrite !map_app, sum_list_append, IH, length_app, !length_map. f_equal.
  rewrite map_map. rewrite sum_list_ones; [reflexivity|].
  eapply Forall_impl; [exact Hcols|]. intros c Hc. simpl in *.
  unfold plain in *. rewrite !placeholders_append, Ht, Hc. reflexivity.
Qed.

Lemma additional_placeholders (d : Dict.dict string (list string))
    (extra : Dict.dict (option string) extra_term) :
  plain_schema d -> plain_extra extra ->
  sum_list (map placeholders (map (additional_condition d) extra)) = List.length extra.
Proof.
  intros Hd Hextra. rewrite map_map. apply sum_list_ones.
  eapply Forall_impl; [exact Hextra|].
  intros [column [[logic operator] value]] [Hc Hl]. simpl in *.
  pose proof (plain_table_of_column column d Hd) as Ht.
  unfold plain in *.
  destruct operator; rewrite !placeholders_append, Hl, Ht, Hc; reflexivity.
Qed.

(** X1.  The ranked query of a vague clause binds every parameter that
    it is given: when the names of the schema and of the sub-terms hold no
    [?], the statement that [_generate_full_query] returns has as many
    placeholders as it has parameters, and that number is three for each
    column of the group plus one for each sub-term. *)
Theorem ranked_query_placeholders (d : Dict.dict string (list string))
    (term : option string) (extra : Dict.dict (option string) extra_term)
    (query : string) (params : list param) :
  plain_schema d -> plain_extra extra ->
  _generate_full_query d term extra = Ok (query, params) ->
  placeholders query = List.length params /\
  List.length params = 3 * total_columns d + List.length extra.
Proof.
  intros Hd Hextra. unfold _generate_full_query.
  destruct (match Dict.keys d with k :: _ => Ok k | [] => Raise StopIteration end)
    as [main_table|e] eqn:Hmt; [|discriminate].
  assert (Hkeys : exists keys, Dict.keys d = main_table :: keys).
  { destruct (Dict.keys d) as [|k keys]; [discriminate|]. inversion Hmt. by exists keys. }
  destruct Hkeys as [keys Hkeys].
  unfold mbind, result_bind. cbv beta iota zeta. intros [= <- <-].
  assert (Hks : Forall plain (Dict.keys d)).
  { unfold Dict.keys. apply Forall_map. eapply Forall_impl; [exact Hd|]. by intros ? [? _]. }
  assert (Hmain : plain main_table).
  { rewrite Hkeys in Hks. by apply Forall_cons in Hks as [H _]. }
  assert (Hfrom : placeholders (String.concat ""
      (map (fun k => if String.eqb k main_table then "" else left_join main_table k)
         (Dict.keys d))) = 0).
  { rewrite placeholders_concat, map_map. apply sum_list_zeros.
    eapply Forall_impl; [exact Hks|]. intros k Hk. simpl.
    destruct (String.eqb k main_table); [reflexivity|]. by apply plain_left_join. }
  pose proof (additional_placeholders d extra Hd Hextra) as Hadd.
  pose proof (where_placeholders d Hd) as Hwhere.
  pose proof (arms_placeholders (total_columns d) (attributes d) (plain_attributes d Hd) 0)
    as Harms.
  rewrite <- case_arms_spec in Harms. unfold case_arms in Harms.
  rewrite <- total_columns_attributes in *.
  set (awc := Py.join " " (map (additional_condition d) extra)).
  assert (Hawc : placeholders awc = List.length extra).
  { unfold awc. rewrite placeholders_join, Hadd. simpl. lia. }
  set (wc := Py.join " OR " _).
  assert (Hwc : placeholders wc = total_columns d).
  { unfold wc. rewrite placeholders_join, Hwhere. simpl. lia. }
  set (arms := Py.join " " _).
  assert (Hjoin : placeholders arms = 2 * total_columns d).
  { unfold arms. rewrite placeholders_join, Harms. simpl. lia. }
  set (joins := if 1 <? List.length d then _ else "").
  assert (Hjoins : placeholders joins = 0).
  { unfold joins. by destruct (1 <? List.length d). }
  assert (Hlen : List.length
            (repeat (Some (".*" +:+ Py.fmt term +:+ ".*"))
               (total_columns d * 2 + total_columns d)
             ++ map (fun item => snd (snd item)) extra)
          = 3 * total_columns d + List.length extra).
  { rewrite length_app, repeat_length, length_map. unfold extra_term. lia. }
  split; [|exact Hlen].
  transitivity (3 * total_columns d + List.length extra); [|symmetry; exact Hlen].
  unfold plain in Hmain.
  destruct (String.eqb_spec awc "") as [Heq|Hne]; simpl negb; cbv iota.
  - rewrite Heq in Hawc. simpl in Hawc.
    rewrite !placeholders_append, Hmain, Hjoin, Hjoins, Hwc. simpl. lia.
  - rewrite !placeholders_append, Hmain, Hjoin, Hjoins, Hwc, Hawc. simpl. lia.
Qed.

Lemma ranked_query_placeholders_witness :
  let d := [("Cases", ["name"; "description"; "notes"])] in
  let extra := [(Some "notes", ("AND", true, Some "x"))] in
  exists query params,
    _generate_full_query d (Some "theft") extra = Ok (query, params) /\
    placeholders query = List.length params /\
    List.length params = 3 * total_columns d + List.length extra.
Proof.
  intros d extra.
  assert (Hd : plain_schema d) by (repeat constructor).
  assert (Hextra : plain_extra extra) by (repeat constructor).
  eexists _, _. split; [vm_compute; reflexivity|].
  exact (ranked_query_placeholders d (Some "theft") extra _ _ Hd Hextra eq_refl).
Defined.

(** *** A clause with an explicit column *)

Lemma query_terms_spec (tcs : list (string * list string)) (terms : list search_term) :
  forall conditions params conditions' params',
    query_terms tcs terms conditions params = Ok (conditions', params') ->
    params' = params ++ map stripped (map t_value (explicit_terms terms)) /\
    Forall (fun t => is_Some (t_value t)) (explicit_terms terms) /\
    (plain_schema tcs ->
     Forall (fun t => plain (Py.fmt (t_column t))) (explicit_terms terms) ->
     sum_list (map placeholders conditions')
     = sum_list (map placeholders conditions) + List.length (explicit_terms terms)) /\
    List.length conditions' = List.length conditions + List.length (explicit_terms terms).
Proof.
  induction terms as [|t terms IH]; intros conds params conds' params' H; simpl in H.
  - inversion H; subst. simpl. rewrite app_nil_r.
    split; [reflexivity|]. split; [constructor|]. split; [intros; lia | lia].
  - simpl. destruct (truthy (t_flag t)).
    + inversion H; subst. simpl. rewrite app_nil_r.
      split; [reflexivity|]. split; [constructor|]. split; [intros; lia | lia].
    + destruct (t_value t) as [value|] eqn:Hv; [|discriminate].
      cbn [strip_value mbind result_bind] in H.
      apply IH in H as (-> & Hall & Hcount & Hlen).
      split; [by simpl; rewrite Hv, <- app_assoc|].
      split; [constructor; [by rewrite Hv | exact Hall]|].
      split; [|rewrite Hlen, length_app; simpl; lia].
      intros Htcs Hcols. apply Forall_cons in Hcols as [Hc Hcols].
      rewrite (Hcount Htcs Hcols), map_app, sum_list_append. simpl.
      pose proof (plain_table_of_column (t_column t) tcs Htcs) as Ht.
      unfold plain in *.
      set (condition := if is_str (t_operator t) ":" then _ else _).
      assert (Hcond : placeholders condition = 1).
      { unfold condition.
        destruct (is_str (t_operator t) ":");
          by rewrite !placeholders_append, Ht, Hc. }
      destruct (is_str (t_combinator t) "&"), (is_str (t_combinator t) "|");
        rewrite ?placeholders_append, Hcond; simpl; lia.
Qed.

(** X2.  When [_generate_query] returns for a clause with an explicit
    column, its parameters are the stripped value of the clause followed by
    the stripped values of the sub-terms up to the first bare combinator,
    and each of these values is present; when the columns named hold no [?],
    the statement has as many placeholders as it has parameters. *)
Theorem explicit_query_params (main : main_clause) (terms : list search_term)
    (query : string) (params : list param) :
  _generate_query main terms = Ok (query, params) ->
  params = map stripped (m_value main :: map t_value (explicit_terms terms)) /\
  Forall is_Some (m_value main :: map t_value (explicit_terms terms)) /\
  (plain (Py.fmt (m_column main)) ->
   Forall (fun t => plain (Py.fmt (t_column t))) (explicit_terms terms) ->
   placeholders query = List.length params).
Proof.
  unfold _generate_query. intros H.
  destruct (m_group main) as [g|]; [|discriminate].
  unfold subscript in H.
  destruct (Dict.get g _map) as [tables|] eqn:Hg; [|discriminate].
  cbn [mbind result_bind] in H.
  destruct (Dict.get tables _full_map) as [columns|] eqn:Hfull; [|discriminate].
  cbn [mbind result_bind] in H.
  destruct (m_value main) as [value|] eqn:Hv; [|discriminate].
  cbn [strip_value mbind result_bind] in H.
  destruct (first tables) as [t0|] eqn:Ht0; [|discriminate].
  cbn [mbind result_bind] in H.
  destruct (query_terms _ _ _ _) as [[conditions params']|] eqn:Hq; [|discriminate].
  cbn [mbind result_bind fst snd] in H. inversion H; subst; clear H.
  apply query_terms_spec in Hq as (-> & Hall & Hcount & Hlen).
  split; [reflexivity|].
  split; [constructor; [done | by apply Forall_map]|].
  intros Hc Hcols.
  assert (Hschema : plain_schema (zip tables columns) /\
                    placeholders ("SELECT " +:+ t0 +:+ ".nb"
                      +:+ (" FROM " +:+ t0
                             +:+ String.concat "" (map (left_join t0) (tail tables)))
                      +:+ " WHERE ") = 0).
  { unfold _map in Hg. simpl in Hg.
    repeat (destruct (decide _) in Hg;
            [inversion Hg; subst tables; inversion Hfull; subst columns;
             inversion Ht0; subst t0; split; [repeat constructor | reflexivity]|]).
    discriminate. }
  destruct Hschema as [Hschema Hprefix].
  specialize (Hcount Hschema Hcols).
  rewrite placeholders_append, Hprefix, placeholders_join, Hcount, Hlen.
  rewrite length_app, !length_map. simpl.
  pose proof (plain_table_of_column (m_column main) _ Hschema) as Ht.
  unfold plain in *.
  destruct (is_str (m_operator main) ":");
    rewrite !placeholders_append, Ht, Hc; simpl; lia.
Qed.

Lemma explicit_query_params_witness :
  let main := MainClause (Some "user") None (Some "first_name") (Some "=") (Some "Jane ") in
  let terms := [ SearchTerm (Some "&") (Some "gender") (Some ":") (Some " Female") None;
                 SearchTerm None None None None (Some "&");
                 SearchTerm (Some "|") (Some "notes") (Some ":") (Some "x") None ] in
  exists query,
    _generate_query main terms = Ok (query, [Some "Jane"; Some "Female"]) /\
    placeholders query = 2.
Proof.
  intros main terms. eexists.
  assert (H : _generate_query main terms
              = Ok ("SELECT Persons.nb FROM Persons LEFT JOIN CasePeople ON Persons.nb = CasePeople.person_nb WHERE Persons.first_name = ? AND Persons.gender REGEXP ?",
                    [Some "Jane"; Some "Female"])) by (vm_compute; reflexivity).
  split; [exact H|].
  destruct (explicit_query_params main terms _ _ H) as (_ & _ & Hcount).
  apply Hcount; [reflexivity | repeat constructor].
Defined.
End placeholders.

(** ** The compiler of queries *)

Section compiler.
Import Re SearchEngine.

Lemma table_of_column_snoc (column : option string)
    (tcs : list (string * list string)) (tc : string * list string) :
  table_of_column column (tcs ++ [tc])
  = if in_columns column (snd tc) then fst tc else table_of_column column tcs.
Proof. unfold table_of_column. by rewrite fold_left_app. Qed.

(** X3.  The table that the loop of [_generate_query] and of
    [_generate_full_query] qualifies a column with is the last table of the
    group that declares the column, and the empty name when no table of the
    group declares it. *)
Theorem table_of_column_last_declaring (column : option string)
    (tcs : list (string * list string)) :
  table_of_column column tcs
  = match last (declaring column tcs) with
    | Some tc => fst tc
    | None => ""
    end.
Proof.
  unfold declaring.
  induction tcs as [|tc tcs IH] using rev_ind; [reflexivity|].
  rewrite table_of_column_snoc, filter_app.
  destruct (in_columns column (snd tc)) eqn:Hin.
  - rewrite filter_cons_True by (by rewrite Hin). by rewrite filter_nil, last_snoc.
  - rewrite filter_cons_False by (rewrite Hin; exact id).
    by rewrite filter_nil, app_nil_r.
Qed.

(** *** A bare term *)

(** X4.  A clause that names no group, no return attributes and no
    column is compiled against each of the three groups: three ranked
    queries are appended to the compiled ones, over the 12 columns of the
    persons, the 3 of the cases and the 4 of the documents, in this order,
    each with the default return attributes of its group. *)
Theorem bare_term_searches_every_group (main : main_clause)
    (terms : list search_term) (returns : list compiled) (concatenate_tables : bool) :
  m_group main = None -> m_returns main = None -> m_column main = None ->
  exists q1 q2 q3 concatenate_tables',
    compile_clause (returns, concatenate_tables) (main, terms)
    = Ok (returns ++ [q1; q2; q3], concatenate_tables') /\
    ranked_over "Persons" 12 ["first_name"; "last_name"; "can_be_lawyer"] main terms q1 /\
    ranked_over "Cases" 3 ["name"] main terms q2 /\
    ranked_over "Documents" 4 ["name"] main terms q3.
Proof.
  intros Hg Hret Hcol.
  unfold compile_clause, map_get. rewrite Hg.
  change (Dict.values _map)
    with [["Persons"; "CasePeople"]; ["Cases"]; ["Documents"]].
  destruct (generate_vague ["Persons"; "CasePeople"] main terms)
    as (t1 & c1 & s1 & F1 & C1 & G1); [vm_compute; set_solver | exact Hcol |].
  destruct (generate_vague ["Cases"] main terms)
    as (t2 & c2 & s2 & F2 & C2 & G2); [vm_compute; set_solver | exact Hcol |].
  destruct (generate_vague ["Documents"] main terms)
    as (t3 & c3 & s3 & F3 & C3 & G3); [vm_compute; set_solver | exact Hcol |].
  inversion F1; subst t1. inversion F2; subst t2. inversion F3; subst t3.
  inversion C1; subst c1. inversion C2; subst c2. inversion C3; subst c3.
  rewrite fan_out_unfold, Hret, G1; cbn [truthy mbind result_bind first fst snd].
  rewrite fan_out_unfold, Hret, G2; cbn [truthy mbind result_bind first fst snd].
  rewrite fan_out_unfold, Hret, G3; cbn [truthy mbind result_bind first fst snd fan_out].
  rewrite <- !app_assoc; cbn [app].
  eexists _, _, _, _. split; [reflexivity|].
  repeat split; cbn [c_sql];
    match goal with
    | |- Py.startswith (?a +:+ ?b +:+ ?c +:+ ?d) _ = true =>
        replace (a +:+ b +:+ c +:+ d) with ((a +:+ b +:+ c) +:+ d)
          by (by rewrite !append_assoc)
    end; apply prefix_append.
Qed.

Lemma bare_term_searches_every_group_witness :
  exists q1 q2 q3,
    _parse_user_input "Jane" = Some [(MainClause None None None None (Some "Jane"), [])] /\
    get_sql_query_from_user_input "Jane" = Ok [q1; q2; q3] /\
    c_tables q1 = ["Persons"] /\ c_tables q2 = ["Cases"] /\ c_tables q3 = ["Documents"] /\
    List.length (c_params q1) = 36 /\ List.length (c_params q2) = 9 /\
    List.length (c_params q3) = 12.
Proof.
  set (main := MainClause None None None None (Some "Jane")).
  destruct (bare_term_searches_every_group main [] [] false eq_refl eq_refl eq_refl)
    as (q1 & q2 & q3 & c & Hc & (T1 & _ & P1 & _) & (T2 & _ & P2 & _) & (T3 & _ & P3 & _)).
  exists q1, q2, q3.
  assert (Hparse : _parse_user_input "Jane" = Some [(main, [])])
    by (vm_compute; reflexivity).
  split; [exact Hparse|].
  split.
  { unfold get_sql_query_from_user_input. rewrite Hparse.
    cbn [compile_clauses mbind result_bind]. rewrite Hc. reflexivity. }
  rewrite P1, P2, P3. repeat split; assumption.
Defined.

(** *** An input that does not parse *)

(** X5.  An input that is not empty and that the parser rejects is
    compiled to the one query whose statement is empty and whose return
    attributes are empty, and [search] then returns no entry when the engine
    answers the empty statement with no row.  The restricted compiler
    returns the empty statement for every group of the map, and
    [restricted_search] then returns the two empty lists. *)
Theorem unparsed_input_finds_nothing
    (_query : string -> list param -> result (list DatabaseAccess.row))
    (input : string) :
  _parse_user_input input = None -> input <> "" ->
  get_sql_query_from_user_input input = Ok no_match /\
  (_query "" [] = Ok [] -> DatabaseAccess.search _query input = Ok []) /\
  (forall where_ table,
      Dict.get where_ _map = Some table ->
      get_sql_query_from_user_input_restricted input where_ = Ok ("", [], []) /\
      (_query "" [] = Ok [] ->
       DatabaseAccess.restricted_search _query input where_ = Ok ([], []))).
Proof.
  intros Hparse Hne.
  assert (Hc : get_sql_query_from_user_input input = Ok no_match).
  { unfold get_sql_query_from_user_input. rewrite Hparse.
    by destruct (String.eqb_spec input ""). }
  split; [exact Hc|]. split.
  - intros Hq. unfold DatabaseAccess.search. rewrite Hc.
    cbn [mbind result_bind no_match DatabaseAccess.search_queries c_sql c_params].
    rewrite Hq. reflexivity.
  - intros where_ table Hw.
    assert (Hr : get_sql_query_from_user_input_restricted input where_ = Ok ("", [], [])).
    { unfold get_sql_query_from_user_input_restricted, subscript.
      rewrite Hparse, Hw. cbn [mbind result_bind].
      by destruct (String.eqb_spec input ""). }
    split; [exact Hr|]. intros Hq.
    unfold DatabaseAccess.restricted_search. rewrite Hr.
    cbn [mbind result_bind]. rewrite Hq. reflexivity.
Qed.

Lemma unparsed_input_finds_nothing_witness :
  let db (sql : string) (params : list param) : result (list DatabaseAccess.row) := Ok [] in
  get_sql_query_from_user_input "user:Jane !" = Ok no_match /\
  DatabaseAccess.search db "user:Jane !" = Ok [] /\
  DatabaseAccess.restricted_search db "user:Jane !" "case" = Ok ([], []).
Proof.
  intros db.
  assert (Hparse : _parse_user_input "user:Jane !" = None) by (vm_compute; reflexivity).
  assert (Hne : "user:Jane !" <> "") by discriminate.
  destruct (unparsed_input_finds_nothing db "user:Jane !" Hparse Hne) as (H1 & H2 & H3).
  split; [exact H1|]. split; [exact (H2 eq_refl)|].
  destruct (H3 "case" ["Cases"] eq_refl) as [_ H4]. exact (H4 eq_refl).
Defined.

(** *** The restricted compiler *)

Lemma in_map_cases (g : string) (tables : list string) :
  Dict.get g _map = Some tables ->
  tables = ["Persons"; "CasePeople"] \/ tables = ["Cases"] \/ tables = ["Documents"].
Proof.
  unfold _map. simpl.
  repeat (destruct (decide _); [intros [= <-]; auto|]). discriminate.
Qed.

Lemma generate_query_prefix (main : main_clause) (terms : list search_term)
    (query : string) (params : list param) :
  _generate_query main terms = Ok (query, params) ->
  exists g tables t0,
    m_group main = Some g /\ Dict.get g _map = Some tables /\ first tables = Ok t0 /\
    Py.startswith query ("SELECT " +:+ t0 +:+ ".nb") = true.
Proof.
  unfold _generate_query. intros H.
  destruct (m_group main) as [g|]; [|discriminate].
  unfold subscript in H.
  destruct (Dict.get g _map) as [tables|] eqn:Hg; [|discriminate].
  cbn [mbind result_bind] in H.
  destruct (Dict.get tables _full_map) as [columns|]; [|discriminate].
  cbn [mbind result_bind] in H.
  destruct (strip_value (m_value main)) as [value|]; [|discriminate].
  cbn [mbind result_bind] in H.
  destruct (first tables) as [t0|] eqn:Ht0; [|discriminate].
  cbn [mbind result_bind] in H.
  destruct (query_terms _ _ _ _) as [cp|]; [|discriminate].
  cbn [mbind result_bind] in H. inversion H; subst; clear H.
  exists g, tables, t0. repeat split; try done.
  rewrite !append_assoc.
  replace ("SELECT " +:+ t0 +:+ ".nb" +:+ " FROM " +:+ t0 +:+
             String.concat "" (map (left_join t0) (tail tables)) +:+ " WHERE " +:+
             Py.join " " (fst cp))
    with (("SELECT " +:+ t0 +:+ ".nb") +:+ " FROM " +:+ t0 +:+
             String.concat "" (map (left_join t0) (tail tables)) +:+ " WHERE " +:+
             Py.join " " (fst cp))
    by (by rewrite !append_assoc).
  apply prefix_append.
Qed.

(** X6.  Whatever the restricted compiler returns for a group, the
    group is one of the map, and the statement is empty, is [SELECT nb FROM]
    the main table of the group, or begins with [SELECT] and the number of
    the main table of the group: no other group is selected from. *)
Theorem restricted_compiles_own_group (input where_ : string)
    (sql : string) (params : list param) (ret_vals : list string) :
  get_sql_query_from_user_input_restricted input where_ = Ok (sql, params, ret_vals) ->
  exists table t0,
    Dict.get where_ _map = Some table /\ first table = Ok t0 /\
    (sql = "" \/ sql = "SELECT nb FROM " +:+ t0 \/
     Py.startswith sql ("SELECT " +:+ t0 +:+ ".nb") = true).
Proof.
  unfold get_sql_query_from_user_input_restricted.
  destruct (subscript id _map where_) as [table|e] eqn:Hs;
    cbn [mbind result_bind]; [|discriminate].
  assert (Hw : Dict.get where_ _map = Some table).
  { unfold subscript in Hs. destruct (Dict.get where_ _map); by inversion Hs. }
  assert (Ht0 : exists t0, first table = Ok t0).
  { destruct (in_map_cases _ _ Hw) as [->|[->| ->]]; by eexists. }
  destruct Ht0 as [t0 Ht0]. intros H. exists table, t0.
  split; [exact Hw|]. split; [exact Ht0|].
  revert H. destruct (_parse_user_input input) as [parsed|].
  - destruct (1 <? List.length parsed); [intros H; inversion H; auto|].
    destruct (first parsed) as [[main terms]|] eqn:Hfirst; [|discriminate].
    cbn [mbind result_bind]. intros H.
    destruct (match m_group main with
              | Some g => t ← subscript id _map g; Ok (bool_decide (t = table))
              | None => Ok true
              end) as [same|] eqn:Hsame; [|discriminate].
    cbn [mbind result_bind] in H. destruct same; [|inversion H; auto].
    destruct (match m_returns main with
              | Some r => Ok (Py.split ";" r)
              | None => subscript show_tuple _returns_map table
              end) as [ret_val|]; [|discriminate].
    cbn [mbind result_bind] in H.
    destruct (m_column main) as [column|] eqn:Hcol.
    + destruct (_generate_query main terms) as [[query ps]|] eqn:Hq; [|discriminate].
      cbn [mbind result_bind fst snd] in H. inversion H; subst query ps ret_val; clear H.
      apply generate_query_prefix in Hq as (g & tables & t0' & Hg & Hmap & Ht0' & Hpre).
      rewrite Hg in Hsame. unfold subscript in Hsame. rewrite Hmap in Hsame.
      cbn [mbind result_bind] in Hsame. injection Hsame as Hdec.
      apply bool_decide_eq_true in Hdec. subst tables.
      rewrite Ht0 in Ht0'. inversion Ht0'; subst t0'. auto.
    + destruct (generate_vague table main terms) as (t0' & columns & tail & Ht0' & _ & Hgen).
      { eapply dict_get_values. exact Hw. }
      { exact Hcol. }
      unfold generate in Hgen. rewrite Hcol in Hgen. rewrite Hgen in H.
      cbn [mbind result_bind fst snd] in H. inversion H; subst; clear H.
      rewrite Ht0 in Ht0'. inversion Ht0'; subst t0'. right. right.
      replace ("SELECT " +:+ t0 +:+ ".nb, NULL AS relevance, CASE " +:+ tail)
        with (("SELECT " +:+ t0 +:+ ".nb") +:+ ", NULL AS relevance, CASE " +:+ tail).
      * apply prefix_append.
      * rewrite !append_assoc. reflexivity.
  - intros H. destruct (String.eqb input "").
    + rewrite Ht0 in H. cbn [mbind result_bind] in H.
      destruct (subscript show_tuple _returns_map table); [|discriminate].
      cbn [mbind result_bind] in H. inversion H; auto.
    + inversion H; auto.
Qed.

Lemma restricted_compiles_own_group_witness :
  let sql := "SELECT Cases.nb FROM Cases WHERE Cases.name = ?" in
  get_sql_query_from_user_input_restricted "case{name}=Theft" "case"
  = Ok (sql, [Some "Theft"], ["name"]) /\
  exists table t0,
    Dict.get "case" _map = Some table /\ first table = Ok t0 /\
    (sql = "" \/ sql = "SELECT nb FROM " +:+ t0 \/
     Py.startswith sql ("SELECT " +:+ t0 +:+ ".nb") = true).
Proof.
  intros sql.
  assert (H : get_sql_query_from_user_input_restricted "case{name}=Theft" "case"
              = Ok (sql, [Some "Theft"], ["name"])) by (vm_compute; reflexivity).
  split; [exact H | exact (restricted_compiles_own_group _ _ _ _ _ H)].
Defined.

(** X7.  The restricted compiler raises [KeyError] on a single clause
    that names a group which the map does not hold: it looks the group up
    with [self._map[main[0]]], where the unrestricted compiler takes such a
    group for none. *)
Theorem restricted_unknown_group_raises (input where_ g : string) (table : list string)
    (main : main_clause) (terms : list search_term) :
  Dict.get where_ _map = Some table ->
  _parse_user_input input = Some [(main, terms)] ->
  m_group main = Some g ->
  Dict.get g _map = None ->
  get_sql_query_from_user_input_restricted input where_ = Raise (KeyError g).
Proof.
  intros Hw Hparse Hg Hmap.
  unfold get_sql_query_from_user_input_restricted, subscript.
  rewrite Hw, Hparse. cbn [mbind result_bind List.length first Nat.ltb Nat.leb].
  by rewrite Hg, Hmap.
Qed.

Lemma restricted_unknown_group_raises_witness :
  get_sql_query_from_user_input_restricted "foo:Jane" "user" = Raise (KeyError "foo").
Proof.
  apply (restricted_unknown_group_raises "foo:Jane" "user" "foo" ["Persons"; "CasePeople"]
           (MainClause (Some "foo") None None (Some ":") (Some "Jane")) []);
    [reflexivity | vm_compute; reflexivity | reflexivity | reflexivity].
Defined.
(** *** A clause joined onto the one before it *)

Lemma joined_conditions_values (tcs : list (string * list string))
    (main : main_clause) (terms : list search_term) :
  snd (joined_conditions tcs main terms)
  = map t_value (named_terms (main_as_term main :: terms)).
Proof.
  unfold joined_conditions, named_terms. fold (main_as_term main).
  generalize (main_as_term main :: terms) as l. intros l.
  match goal with
  | |- snd (fold_left ?f l ([], [])) = _ =>
      assert (H : forall acc,
        snd (fold_left f l acc)
        = snd acc ++ map t_value (filter (fun t => negb (truthy (t_flag t))) l))
  end.
  { induction l as [|t l IH]; intros acc; simpl; [by rewrite app_nil_r|].
    rewrite IH. destruct (negb (truthy (t_flag t))) eqn:Hf.
    - rewrite filter_cons_True by (by rewrite Hf). simpl. by rewrite <- app_assoc.
    - rewrite filter_cons_False by (rewrite Hf; exact id). reflexivity. }
  by rewrite H.
Qed.

(** X8.  A clause of a known group that follows a pending join is
    merged into the query compiled last: no query is added, and the merged
    query has the tables, the parameters and the return attributes of the
    previous one followed by the main table of the group of the clause, by
    the values of the clause and of its sub-terms that name a column, and by
    the default return attributes of the group. *)
Theorem joined_clause_extends_previous (returns : list compiled)
    (main : main_clause) (terms : list search_term) (table : list string)
    (st' : list compiled * bool) :
  map_get (m_group main) = Some table ->
  compile_clause (returns, true) (main, terms) = Ok st' ->
  exists rest prev merged t0,
    returns = rest ++ [prev] /\ first table = Ok t0 /\
    fst st' = rest ++ [merged] /\
    c_tables merged = c_tables prev ++ [t0] /\
    c_params merged
    = c_params prev ++ map t_value (named_terms (main_as_term main :: terms)) /\
    c_ret_vals merged
    = c_ret_vals prev ++ [Some (default [] (Dict.get table _returns_map))].
Proof.
  intros Hmap. unfold compile_clause. rewrite Hmap.
  destruct (generate table main terms) as [query|]; cbn [mbind result_bind]; [|discriminate].
  destruct (subscript show_tuple _full_map table) as [columns|];
    cbn [mbind result_bind]; [|discriminate].
  pose proof (joined_conditions_values (zip table columns) main terms) as Hvalues.
  destruct (joined_conditions (zip table columns) main terms) as [where_tup value_tup].
  simpl in Hvalues. subst value_tup.
  induction returns as [|prev rest _] using rev_ind; [discriminate|].
  rewrite last_snoc, removelast_last. cbn [mbind result_bind].
  destruct (first table) as [t0|]; cbn [mbind result_bind]; [|discriminate].
  destruct (_join_query (c_sql prev) t0 where_tup) as [joined|];
    cbn [mbind result_bind]; [|discriminate].
  intros [= <-]. eexists rest, prev, _, t0. repeat split.
Qed.

Lemma joined_clause_extends_previous_witness :
  let prev := Compiled ["Persons"]
                "SELECT Persons.nb FROM Persons LEFT JOIN CasePeople ON Persons.nb = CasePeople.person_nb WHERE Persons.first_name = ?"
                [Some "Jane"] [Some ["first_name"; "last_name"; "can_be_lawyer"]] in
  let main := MainClause (Some "case") (Some "notes") (Some "name") (Some "=") (Some " Theft ") in
  exists st' rest prev' merged t0,
    compile_clause ([prev], true) (main, []) = Ok st' /\
    [prev] = rest ++ [prev'] /\ first ["Cases"] = Ok t0 /\
    fst st' = rest ++ [merged] /\
    c_tables merged = c_tables prev' ++ [t0] /\
    c_params merged = c_params prev' ++ map t_value (named_terms (main_as_term main :: [])) /\
    c_ret_vals merged
    = c_ret_vals prev' ++ [Some (default [] (Dict.get ["Cases"] _returns_map))].
Proof.
  intros prev main.
  destruct (compile_clause ([prev], true) (main, [])) as [st'|e] eqn:H;
    [|vm_compute in H; discriminate].
  destruct (joined_clause_extends_previous [prev] main [] ["Cases"] st' eq_refl H)
    as (rest & prev' & merged & t0 & H').
  exists st', rest, prev', merged, t0. split; [reflexivity | exact H'].
Defined.

(** *** What the compiler never raises *)

Lemma query_terms_raises (tcs : list (string * list string)) (terms : list search_term) :
  forall conditions params e,
    query_terms tcs terms conditions params = Raise e -> e = AttributeError.
Proof.
  induction terms as [|t terms IH]; intros conds params e H; simpl in H; [discriminate|].
  destruct (truthy (t_flag t)); [discriminate|].
  destruct (t_value t); cbn [strip_value mbind result_bind] in H.
  - by eapply IH.
  - by inversion H.
Qed.

Lemma generate_query_raises (main : main_clause) (terms : list search_term) (e : exn) :
  _generate_query main terms = Raise e -> e <> IndexError.
Proof.
  unfold _generate_query. intros H.
  destruct (m_group main) as [g|]; [|by inversion H].
  unfold subscript in H.
  destruct (Dict.get g _map) as [tables|] eqn:Hg; [|by inversion H].
  cbn [mbind result_bind] in H.
  destruct (Dict.get tables _full_map) as [columns|]; [|by inversion H].
  cbn [mbind result_bind] in H.
  destruct (m_value main) as [value|]; [|by inversion H].
  cbn [strip_value mbind result_bind] in H.
  assert (Ht0 : exists t0, first tables = Ok t0).
  { destruct (in_map_cases _ _ Hg) as [->|[->| ->]]; by eexists. }
  destruct Ht0 as [t0 Ht0]. rewrite Ht0 in H. cbn [mbind result_bind] in H.
  destruct (query_terms _ _ _ _) as [cp|e'] eqn:Hq; [discriminate|].
  cbn [mbind result_bind] in H. inversion H; subst e'.
  apply query_terms_raises in Hq. by subst e.
Qed.

Lemma generate_raises (table : list string) (main : main_clause)
    (terms : list search_term) (e : exn) :
  generate table main terms = Raise e -> e <> IndexError.
Proof.
  unfold generate. destruct (m_column main); [apply generate_query_raises|].
  unfold subscript. destruct (Dict.get table _full_map) as [columns|];
    cbn [mbind result_bind]; [|by intros [= <-]].
  unfold _generate_full_query.
  destruct (Dict.keys (Dict.of_items (zip table columns)));
    cbn [mbind result_bind]; [by intros [= <-] | discriminate].
Qed.

Lemma join_query_raises (query join_table : string) (join_parameters : list string)
    (e : exn) :
  _join_query query join_table join_parameters = Raise e -> e <> IndexError.
Proof.
  unfold _join_query. intros H.
  destruct (search from_pattern query); cbn [mbind result_bind] in H; [|by inversion H].
  destruct (search select_pattern query); cbn [mbind result_bind] in H; [|by inversion H].
  unfold subscript in H.
  destruct (search where_pattern _);
    (destruct (Dict.get _ _join_table_map) as [paths|];
     cbn [mbind result_bind] in H; [|by inversion H]);
    (destruct (Dict.get join_table paths);
     cbn [mbind result_bind] in H; [discriminate | by inversion H]).
Qed.

Lemma fan_out_sound (main : main_clause) (terms : list search_term)
    (tables : list (list string)) :
  Forall (fun table => table <> []) tables ->
  forall returns,
    (forall e, fan_out main terms tables returns = Raise e -> e <> IndexError) /\
    (forall returns', fan_out main terms tables returns = Ok returns' ->
                      exists more, returns' = returns ++ more /\
                                   List.length more = List.length tables).
Proof.
  induction 1 as [|table tables Htable _ IH]; intros returns.
  { split; [discriminate|]. intros returns' [= <-]. exists []. by rewrite app_nil_r. }
  rewrite fan_out_unfold.
  destruct (if truthy (m_returns main) then _ else _) as [ret_val|e0] eqn:Hret;
    cbn [mbind result_bind].
  2:{ split; [|discriminate]. intros e [= <-].
      destruct (truthy (m_returns main)); [|discriminate].
      destruct (m_group main); [discriminate | by inversion Hret]. }
  destruct (generate table main terms) as [query|e0] eqn:Hgen; cbn [mbind result_bind].
  2:{ split; [|discriminate]. intros e [= <-]. by eapply generate_raises. }
  destruct table as [|t0 table]; [done|]. cbn [first mbind result_bind].
  destruct (IH (returns ++ [Compiled [t0] (fst query) (snd query) [ret_val]]))
    as [Hraise Hok].
  split; [exact Hraise|]. intros returns' Hf.
  destruct (Hok returns' Hf) as (more & -> & Hlen).
  eexists (_ :: more). split; [by rewrite <- app_assoc | simpl; by rewrite Hlen].
Qed.

Lemma compile_clause_sound (st : list compiled * bool) (clause : parsed_clause) :
  join_has_target st ->
  (forall e, compile_clause st clause = Raise e -> e <> IndexError) /\
  (forall st', compile_clause st clause = Ok st' -> fst st' <> []).
Proof.
  destruct st as [returns concatenate_tables], clause as [main terms].
  unfold join_has_target. cbn [fst snd]. intros Hinv. unfold compile_clause.
  destruct (map_get (m_group main)) as [table|] eqn:Hmap.
  - assert (Htable : exists t0 columns,
              first table = Ok t0 /\ subscript show_tuple _full_map table = Ok columns).
    { unfold map_get in Hmap. destruct (m_group main) as [g|]; [|discriminate].
      destruct (in_map_cases _ _ Hmap) as [->|[->| ->]]; by eexists _, _. }
    destruct Htable as (t0 & columns & Ht0 & Hcolumns).
    destruct (generate table main terms) as [query|e0] eqn:Hgen; cbn [mbind result_bind].
    2:{ split; [|discriminate]. intros e [= <-]. by eapply generate_raises. }
    destruct concatenate_tables.
    + rewrite Hcolumns. cbn [mbind result_bind].
      destruct (joined_conditions (zip table columns) main terms) as [where_tup value_tup].
      destruct returns as [|c returns _] using rev_ind; [by destruct Hinv|].
      rewrite last_snoc, removelast_last, Ht0. cbn [mbind result_bind].
      destruct (_join_query (c_sql c) t0 where_tup) as [joined|e0] eqn:Hjoin;
        cbn [mbind result_bind].
      * split; [discriminate|]. intros st' [= <-]. cbn [fst].
        intros Hnil. by apply app_eq_nil in Hnil as [_ ?].
      * split; [|discriminate]. intros e [= <-]. by eapply join_query_raises.
    + rewrite Ht0. cbn [mbind result_bind].
      split; [discriminate|]. intros st' [= <-]. cbn [fst].
      intros Hnil. by apply app_eq_nil in Hnil as [_ ?].
  - destruct (fan_out_sound main terms (Dict.values _map)) with (returns := returns)
      as [Hraise Hok].
    { repeat constructor; discriminate. }
    destruct (fan_out main terms (Dict.values _map) returns) as [returns'|e0] eqn:Hf;
      cbn [mbind result_bind].
    + split; [discriminate|]. intros st' [= <-]. cbn [fst].
      destruct (Hok returns' eq_refl) as (more & -> & Hlen).
      destruct more; [discriminate Hlen|].
      intros Hnil. by apply app_eq_nil in Hnil as [_ ?].
    + split; [|discriminate]. intros e [= <-]. by apply Hraise.
Qed.

Lemma compile_clauses_sound (parsed : list parsed_clause) :
  forall st,
    join_has_target st ->
    (forall e, compile_clauses parsed st = Raise e -> e <> IndexError) /\
    (forall st', compile_clauses parsed st = Ok st' -> parsed <> [] -> fst st' <> []).
Proof.
  induction parsed as [|clause parsed IH]; intros st Hinv; simpl.
  { split; [discriminate | done]. }
  destruct (compile_clause_sound st clause Hinv) as [Hraise Hok].
  destruct (compile_clause st clause) as [st1|e0]; cbn [mbind result_bind].
  2:{ split; [|discriminate]. intros e [= <-]. by apply Hraise. }
  specialize (Hok st1 eq_refl).
  destruct (IH st1) as [Hraise' Hok']; [by intros _|].
  split; [exact Hraise'|]. intros st' Hc _.
  destruct parsed as [|clause' parsed]; [by inversion Hc; subst|].
  by apply Hok'.
Qed.

Lemma parsed_nonempty (input : string) (parsed : list parsed_clause) :
  _parse_user_input input = Some parsed -> parsed <> [].
Proof.
  unfold _parse_user_input.
  destruct (_check_consumed_string input _table_rejects)
    as [main_matches consumed] eqn:E.
  destruct consumed; simpl; [|discriminate].
  apply check_consumed_string_true in E as [-> [Hne _]].
  intros H. apply parse_matches_clauses in H as (clauses & -> & Hall).
  - destruct (finditer _table_rejects input); [done|].
    inversion Hall; subst. discriminate.
  - apply Forall_map.
    exact (finditer_rematches _table_rejects table_pattern_look_free input).
Qed.

(** X9.  [get_sql_query_from_user_input] never raises [IndexError],
    so that [returns[-1]] of a pending join always finds a query, and it
    never returns an empty tuple of queries. *)
Theorem compiler_has_join_target (input : string) :
  get_sql_query_from_user_input input <> Raise IndexError /\
  forall queries, get_sql_query_from_user_input input = Ok queries -> queries <> [].
Proof.
  unfold get_sql_query_from_user_input.
  destruct (_parse_user_input input) as [parsed|] eqn:Hparse.
  - destruct (compile_clauses_sound parsed ([], false)) as [Hraise Hok]; [done|].
    destruct (compile_clauses parsed ([], false)) as [st|e]; cbn [mbind result_bind].
    + split; [discriminate|]. intros queries [= <-].
      apply Hok; [reflexivity | by eapply parsed_nonempty].
    + split; [|discriminate]. intros [= ->]. by eapply Hraise.
  - destruct (String.eqb input ""); split; try discriminate.
    + vm_compute. intros queries [= <-]. discriminate.
    + intros queries [= <-]. discriminate.
Qed.
End compiler.

(** ** The lock coordinator under interleaving *)

Section races.
Import Locks DatabaseAccess.

Lemma op_step_write (o : op) : op_step o = lock_step WriteLock (body_of o).
Proof. unfold op_step. by destruct o. Qed.

Lemma step_at_spec (i : nat) (s : system) (o : op) (p : pc) :
  callers s !! i = Some (o, p) ->
  is_done p = false ->
  files (step_at i s) = snd (op_step o p (files s)) /\
  callers (step_at i s) !! i = Some (o, fst (op_step o p (files s))) /\
  forall j, j <> i -> callers (step_at i s) !! j = callers s !! j.
Proof.
  intros Hi Hp. unfold step_at. rewrite Hi, Hp.
  destruct (op_step o p (files s)) as [p' f']. simpl.
  split; [reflexivity|]. split.
  - apply list_lookup_insert_eq. by eapply lookup_lt_Some.
  - intros j Hj. by apply list_lookup_insert_ne.
Qed.

(** X10.  The write lock does not exclude two callers that both test
    for the marker before either writes it: when the callers [i] and [j]
    wait and the marker is absent, the schedule [i, j, i, j] leaves both of
    them inside their [with] block. *)
Theorem write_lock_race (s : system) (i j : nat) (o1 o2 : op) :
  i <> j ->
  callers s !! i = Some (o1, Waiting) ->
  callers s !! j = Some (o2, Waiting) ->
  write_lock (files s) = false ->
  let s' := run_schedule [i; j; i; j] s in
  callers s' !! i = Some (o1, Held) /\
  callers s' !! j = Some (o2, Held) /\
  write_lock (files s') = true.
Proof.
  intros Hij Hi Hj Hl. cbn [run_schedule fold_left].
  destruct (step_at_spec i s o1 Waiting Hi eq_refl) as (F1 & I1 & O1).
  rewrite op_step_write in F1, I1. simpl in F1, I1. rewrite Hl in F1, I1. simpl in F1, I1.
  set (s1 := step_at i s) in *.
  assert (J1 : callers s1 !! j = Some (o2, Waiting)) by (by rewrite O1).
  destruct (step_at_spec j s1 o2 Waiting J1 eq_refl) as (F2 & J2 & O2).
  rewrite op_step_write in F2, J2. simpl in F2, J2. rewrite F1, Hl in F2, J2.
  simpl in F2, J2.
  set (s2 := step_at j s1) in *.
  assert (I2 : callers s2 !! i = Some (o1, Acquiring)) by (by rewrite O2).
  destruct (step_at_spec i s2 o1 Acquiring I2 eq_refl) as (F3 & I3 & O3).
  rewrite op_step_write in F3, I3. simpl in F3, I3.
  set (s3 := step_at i s2) in *.
  assert (J3 : callers s3 !! j = Some (o2, Acquiring)) by (by rewrite O3).
  destruct (step_at_spec j s3 o2 Acquiring J3 eq_refl) as (F4 & J4 & O4).
  rewrite op_step_write in F4, J4. simpl in F4, J4.
  set (s4 := step_at j s3) in *.
  split; [by rewrite O4|]. split; [exact J4|]. by rewrite F4.
Qed.

Lemma write_lock_race_witness :
  let read := OpQuery "SELECT nb FROM Persons" [] (Ok []) in
  let write := OpExecute "DELETE FROM Persons WHERE nb = 3" [] None 0 in
  let s := start (Fs false None None) [read; write] in
  let s' := run_schedule [0; 1; 0; 1] s in
  callers s' !! 0 = Some (read, Held) /\
  callers s' !! 1 = Some (write, Held) /\
  write_lock (files s') = true.
Proof.
  intros read write s.
  apply (write_lock_race s 0 1 read write); [discriminate | reflexivity ..].
Defined.

(** X11.  When two callers leave their [with] block while the marker
    exists and both test for it before either removes it, the first removes
    it and ends as its body ended, and the [os.remove] of the second raises
    [FileNotFoundError], which replaces the outcome of its body. *)
Theorem release_race_raises (s : system) (i j : nat) (o1 o2 : op) (out1 out2 : outcome) :
  i <> j ->
  callers s !! i = Some (o1, Releasing out1) ->
  callers s !! j = Some (o2, Releasing out2) ->
  write_lock (files s) = true ->
  let s' := run_schedule [i; j; i; j] s in
  callers s' !! i = Some (o1, Done out1) /\
  callers s' !! j = Some (o2, Done (Raised FileNotFoundError)) /\
  write_lock (files s') = false.
Proof.
  intros Hij Hi Hj Hl. cbn [run_schedule fold_left].
  destruct (step_at_spec i s o1 _ Hi eq_refl) as (F1 & I1 & O1).
  rewrite op_step_write in F1, I1. simpl in F1, I1. rewrite Hl in F1, I1. simpl in F1, I1.
  set (s1 := step_at i s) in *.
  assert (J1 : callers s1 !! j = Some (o2, Releasing out2)) by (by rewrite O1).
  destruct (step_at_spec j s1 o2 _ J1 eq_refl) as (F2 & J2 & O2).
  rewrite op_step_write in F2, J2. simpl in F2, J2. rewrite F1, Hl in F2, J2.
  simpl in F2, J2.
  set (s2 := step_at j s1) in *.
  assert (I2 : callers s2 !! i = Some (o1, Removing out1)) by (by rewrite O2).
  destruct (step_at_spec i s2 o1 _ I2 eq_refl) as (F3 & I3 & O3).
  rewrite op_step_write in F3, I3. simpl in F3, I3. rewrite F2, Hl in F3, I3.
  simpl in F3, I3.
  set (s3 := step_at i s2) in *.
  assert (J3 : callers s3 !! j = Some (o2, Removing out2)) by (by rewrite O3).
  destruct (step_at_spec j s3 o2 _ J3 eq_refl) as (F4 & J4 & O4).
  rewrite op_step_write in F4, J4. simpl in F4, J4. rewrite F3 in F4, J4.
  simpl in F4, J4.
  set (s4 := step_at j s3) in *.
  split; [by rewrite O4|]. split; [exact J4|]. by rewrite F4.
Qed.

Lemma release_race_raises_witness :
  let read := OpQuery "SELECT nb FROM Persons" [] (Ok []) in
  let write := OpExecute "DELETE FROM Persons WHERE nb = 3" [] None 0 in
  let s := run_schedule [0; 1; 0; 1; 0; 1] (start (Fs false None None) [read; write]) in
  let s' := run_schedule [0; 1; 0; 1] s in
  rtc step (start (Fs false None None) [read; write]) s /\
  callers s' !! 0 = Some (read, Done Returned) /\
  callers s' !! 1 = Some (write, Done (Raised FileNotFoundError)) /\
  write_lock (files s') = false.
Proof.
  intros read write s. split; [apply run_schedule_rtc|].
  apply (release_race_raises s 0 1 read write Returned Returned);
    [discriminate | reflexivity ..].
Defined.

(** X12.  A marker that exists while every caller waits for it or has
    finished, as one that a process left behind, is never removed:
    whatever the schedule, every caller is where it was and the files
    are as they were. *)
Theorem stale_marker_blocks_everyone (s : system) (schedule : list nat) :
  write_lock (files s) = true ->
  nobody_holds s ->
  run_schedule schedule s = s.
Proof.
  intros Hl Hnobody. induction schedule as [|i schedule IH]; [reflexivity|].
  cbn [run_schedule fold_left]. fold (run_schedule schedule (step_at i s)).
  replace (step_at i s) with s; [exact IH|]. symmetry.
  destruct (callers s !! i) as [[o p]|] eqn:Hi; [|by unfold step_at; rewrite Hi].
  unfold nobody_holds in Hnobody. rewrite Forall_lookup in Hnobody.
  destruct (Hnobody i (o, p) Hi) as [Hp|Hp]; simpl in Hp.
  - subst p. by eapply blocked_stays_blocked.
  - unfold step_at. by rewrite Hi, Hp.
Qed.

Lemma stale_marker_blocks_everyone_witness :
  let read := OpQuery "SELECT nb FROM Persons" [] (Ok []) in
  let write := OpExecute "DELETE FROM Persons WHERE nb = 3" [] None 0 in
  let s := start (Fs true None None) [read; write] in
  run_schedule [0; 1; 1; 0; 0; 1; 0] s = s.
Proof.
  intros read write s.
  apply stale_marker_blocks_everyone; [reflexivity | repeat constructor].
Defined.
End races.

(** ** The change log and the notifier under any run *)

Section log_and_notifier.
Import Locks DatabaseAccess DataNotifier.

Lemma chars_append (a b : string) : chars (a +:+ b) = chars a ∪ chars b.
Proof.
  induction a as [|c a IH]; [rewrite append_nil_l; simpl; by rewrite (left_id_L ∅ (∪))|].
  rewrite append_cons. simpl. by rewrite IH, (assoc_L (∪)).
Qed.

Lemma markers_of_chars (tables : gset string) :
  chars (markers_of tables) ⊆ marker_chars.
Proof.
  unfold markers_of, marker_table, marker_chars. cbn [map fst snd].
  repeat case_bool_decide; apply (bool_decide_unpack _); vm_compute; reflexivity.
Qed.

Lemma log_changes_appends (denied : nat) (sql : string) (log : option string) :
  exists added,
    _log_changes denied sql log = Some (default "" log +:+ added) /\
    chars added ⊆ marker_chars.
Proof.
  rewrite log_changes_retries. eexists. split; [reflexivity|]. apply markers_of_chars.
Qed.

Lemma iter_log_changes_appends (denied : nat) (sql : string) (done : nat) :
  forall log,
    exists added,
      default "" (Nat.iter done (_log_changes denied sql) log) = default "" log +:+ added /\
      chars added ⊆ marker_chars /\
      (is_Some log -> is_Some (Nat.iter done (_log_changes denied sql) log)).
Proof.
  induction done as [|done IH]; intros log.
  - exists "". rewrite append_nil_r.
    split; [reflexivity|]. split; [apply empty_subseteq | done].
  - destruct (IH log) as (added & Hadded & Hchars & Hsome).
    destruct (log_changes_appends denied sql (Nat.iter done (_log_changes denied sql) log))
      as (added' & Hlog & Hchars').
    exists (added +:+ added'). cbn [Nat.iter nat_rect].
    change (nat_rect _ log (fun _ => _log_changes denied sql) done)
      with (Nat.iter done (_log_changes denied sql) log).
    rewrite Hlog. cbn [default]. rewrite Hadded, append_assoc.
    split; [reflexivity|].
    split; [rewrite chars_append; by apply union_least | by eexists].
Qed.

Lemma body_appends (o : op) (f : fs) :
  exists added,
    default "" (changes_log (fst (body_of o f))) = default "" (changes_log f) +:+ added /\
    chars added ⊆ marker_chars /\
    (is_Some (changes_log f) -> is_Some (changes_log (fst (body_of o f)))).
Proof.
  assert (Hsame : exists added,
            default "" (changes_log f) = default "" (changes_log f) +:+ added /\
            chars added ⊆ marker_chars /\
            (is_Some (changes_log f) -> is_Some (changes_log f))).
  { exists "". rewrite append_nil_r.
    split; [reflexivity|]. split; [apply empty_subseteq | done]. }
  destruct o as [sql params [rows|e] | sql params [e|] denied | sql done error denied];
    cbn [body_of fst set_changes_log changes_log]; try exact Hsame.
  - destruct (log_changes_appends denied sql (changes_log f)) as (added & -> & Hchars).
    exists added. split; [reflexivity|]. split; [exact Hchars | by eexists].
  - apply iter_log_changes_appends.
Qed.

Lemma op_step_appends (o : op) (p : pc) (f : fs) :
  read_lock (snd (op_step o p f)) = read_lock f /\
  exists added,
    default "" (changes_log (snd (op_step o p f))) = default "" (changes_log f) +:+ added /\
    chars added ⊆ marker_chars /\
    (is_Some (changes_log f) -> is_Some (changes_log (snd (op_step o p f)))).
Proof.
  assert (Hsame : exists added,
            default "" (changes_log f) = default "" (changes_log f) +:+ added /\
            chars added ⊆ marker_chars /\
            (is_Some (changes_log f) -> is_Some (changes_log f))).
  { exists "". rewrite append_nil_r.
    split; [reflexivity|]. split; [apply empty_subseteq | done]. }
  rewrite op_step_write.
  destruct p as [| | |out|out|out]; cbn [lock_step].
  - by destruct (write_lock f).
  - split; [reflexivity | exact Hsame].
  - destruct (body_of o f) as [f' out] eqn:Hbody. cbn [snd].
    pose proof (body_keeps_markers o f) as [_ Hread].
    pose proof (body_appends o f) as Hlog.
    rewrite Hbody in Hread, Hlog. by split.
  - by destruct (write_lock f).
  - by destruct (write_lock f).
  - by split.
Qed.

Lemma run_appends_markers (s s' : system) :
  rtc step s s' ->
  read_lock (files s') = read_lock (files s) /\
  (is_Some (changes_log (files s)) -> is_Some (changes_log (files s'))) /\
  exists added,
    default "" (changes_log (files s'))
    = default "" (changes_log (files s)) +:+ added /\
    chars added ⊆ marker_chars.
Proof.
  induction 1 as [s|s s1 s' Hstep _ IH].
  - split; [reflexivity|]. split; [done|].
    exists "". rewrite append_nil_r. split; [reflexivity | apply empty_subseteq].
  - destruct IH as (Hread & Hsome & added' & Hlog & Hchars).
    destruct Hstep as [s i o p p' f' Hi Hp Hop]. cbn [files] in *.
    destruct (op_step_appends o p (files s)) as (Hread1 & added & Hlog1 & Hchars1 & Hsome1).
    rewrite Hop in Hread1, Hlog1, Hsome1. cbn [snd] in *.
    split; [congruence|]. split; [tauto|].
    exists (added +:+ added'). rewrite Hlog, Hlog1, append_assoc.
    split; [reflexivity|]. rewrite chars_append. by apply union_least.
Qed.

(** X13.  Whatever the callers of the facade do, in any interleaving,
    the read-marker file stays as it is, a change log that exists keeps
    existing, and the change log afterwards is the change log before
    followed by characters that are each one of the three markers: nothing
    of it is removed or rewritten. *)
Theorem change_log_only_grows (s s' : system) :
  rtc step s s' ->
  read_lock (files s') = read_lock (files s) /\
  (is_Some (changes_log (files s)) -> is_Some (changes_log (files s'))) /\
  exists added,
    default "" (changes_log (files s'))
    = default "" (changes_log (files s)) +:+ added /\
    chars added ⊆ marker_chars.
Proof. apply run_appends_markers. Qed.

Lemma change_log_only_grows_witness :
  let write := OpExecuteMany "INSERT INTO Cases (name, description, notes) VALUES (?, ?, ?)"
                 2 (Some (OperationalError "disk I/O error")) 0 in
  let read := OpQuery "SELECT nb FROM Cases" [] (Ok []) in
  let s := start (Fs false (Some " ") (Some " ")) [write; read] in
  let s' := run_schedule [0; 0; 0; 0; 0; 1; 1; 1; 1; 1] s in
  changes_log (files s') = Some (" " +:+ cases_marker +:+ cases_marker) /\
  read_lock (files s') = read_lock (files s) /\
  (is_Some (changes_log (files s)) -> is_Some (changes_log (files s'))) /\
  exists added,
    default "" (changes_log (files s'))
    = default "" (changes_log (files s)) +:+ added /\
    chars added ⊆ marker_chars.
Proof.
  intros write read s s'. split; [vm_compute; reflexivity|].
  apply change_log_only_grows. apply run_schedule_rtc.
Defined.

(** *** The notifier *)

Lemma drop_past_end (text : string) :
  forall n, String.length text <= n -> Py.drop n text = "".
Proof.
  induction text as [|c text IH]; intros [|n] H; simpl in *; try reflexivity; try lia.
  apply IH. lia.
Qed.

Lemma poll_from_old_end (n : notifier) (f : fs) (old added : string) :
  changes_log f = Some (old +:+ added) ->
  last_position n = String.length old ->
  let n' := Notifier (String.length (old +:+ added)) in
  poll_for_changes n f
  = (n', if String.eqb added "" then None else Some (chars added)) /\
  poll_for_changes n' f = (n', None).
Proof.
  intros Hlog Hpos n'. unfold poll_for_changes. rewrite Hlog.
  cbn [last_position n']. rewrite Hpos, drop_append, drop_length.
  rewrite Nat.max_id, length_append.
  replace (String.length old `max` (String.length old + String.length added))
    with (String.length old + String.length added) by lia.
  unfold n'. rewrite length_append.
  split; [by destruct (String.eqb added "") | reflexivity].
Qed.

(** X14.  A notifier that has read the change log up to the text [old]
    reports, on its next poll, the set of the characters that were appended
    since, or nothing when nothing was appended, and moves to the end of the
    log; the poll after that one reports nothing. *)
Theorem poll_reports_what_was_appended (n : notifier) (f : fs) (old added : string) :
  changes_log f = Some (old +:+ added) ->
  last_position n = String.length old ->
  let n' := Notifier (String.length (old +:+ added)) in
  poll_for_changes n f
  = (n', if String.eqb added "" then None else Some (chars added)) /\
  poll_for_changes n' f = (n', None).
Proof. apply poll_from_old_end. Qed.

Lemma poll_reports_what_was_appended_witness :
  let f := Fs false None (Some (" " +:+ cases_marker +:+ persons_marker +:+ cases_marker)) in
  poll_for_changes (Notifier 1) f = (Notifier 4, Some {[ Py.chr 9; Py.chr 10 ]}) /\
  poll_for_changes (Notifier 4) f = (Notifier 4, None).
Proof.
  intros f.
  exact (poll_reports_what_was_appended (Notifier 1) f " "
           (cases_marker +:+ persons_marker +:+ cases_marker) eq_refl eq_refl).
Defined.

(** X15.  A notifier whose position is at or past the end of the change
    log, as after the log was replaced by a shorter one, reports nothing and
    stays where it is. *)
Theorem poll_past_the_end (n : notifier) (f : fs) :
  String.length (default "" (changes_log f)) <= last_position n ->
  poll_for_changes n f = (n, None).
Proof.
  intros Hlen. unfold poll_for_changes.
  destruct (changes_log f) as [text|]; [|reflexivity]. cbn [default] in Hlen.
  rewrite drop_past_end by exact Hlen. simpl.
  rewrite Nat.max_l by exact Hlen. by destruct n.
Qed.

Lemma poll_past_the_end_witness :
  let truncated := Fs false None (Some (cases_marker +:+ persons_marker)) in
  poll_for_changes (Notifier 5) truncated = (Notifier 5, None).
Proof.
  intros truncated. apply poll_past_the_end. vm_compute. lia.
Defined.

(** X16.  A notifier that has read an existing change log to its end
    reports, after any run of the callers of the facade, the set of the
    markers that the run appended, or nothing when it appended none, and
    moves to the end of the log. *)
Theorem notifier_after_any_run (s s' : system) (n : notifier) :
  rtc step s s' ->
  is_Some (changes_log (files s)) ->
  last_position n = String.length (default "" (changes_log (files s))) ->
  exists added,
    changes_log (files s') = Some (default "" (changes_log (files s)) +:+ added) /\
    chars added ⊆ marker_chars /\
    poll_for_changes n (files s')
    = (Notifier (String.length (default "" (changes_log (files s')))),
       if String.eqb added "" then None else Some (chars added)).
Proof.
  intros Hrun Hsome Hpos.
  destruct (run_appends_markers s s' Hrun) as (_ & Hsome' & added & Hlog & Hchars).
  destruct (Hsome' Hsome) as [text Htext]. rewrite Htext in Hlog. simpl in Hlog.
  exists added. rewrite Hlog in Htext. split; [exact Htext|]. split; [exact Hchars|].
  destruct (poll_from_old_end n (files s') _ added Htext Hpos) as [Hpoll _].
  rewrite Hpoll, Htext. reflexivity.
Qed.
Lemma notifier_after_any_run_witness :
  let write := OpExecute "DELETE FROM Persons WHERE nb = 3" [] None 0 in
  let read := OpQuery "SELECT nb FROM Persons" [] (Ok []) in
  let s := start (Fs false None (Some " ")) [read; write] in
  let s' := run_schedule [1; 0; 1; 1; 1; 1; 0; 0; 0; 0] s in
  changes_log (files s') = Some (" " +:+ persons_marker) /\
  exists added,
    changes_log (files s') = Some (default "" (changes_log (files s)) +:+ added) /\
    chars added ⊆ marker_chars /\
    poll_for_changes (Notifier 1) (files s')
    = (Notifier (String.length (default "" (changes_log (files s')))),
       if String.eqb added "" then None else Some (chars added)).
Proof.
  intros write read s s'. split; [vm_compute; reflexivity|].
  apply (notifier_after_any_run s s' (Notifier 1));
    [apply run_schedule_rtc | by eexists | reflexivity].
Defined.
End log_and_notifier.

(** ** The record methods *)

Section records.
Import Facade.

Lemma bind_unfold {A B : Type} (p : prog A) (f : A -> prog B) :
  (x ← p; f x) = bind p f.
Proof. reflexivity. Qed.

Lemma read_only_bind {A B : Type} (p : prog A) (f : A -> prog B) :
  read_only p -> (forall a, read_only (f a)) -> read_only (bind p f).
Proof.
  intros Hp Hf. induction Hp as [a|e|sql params k _ IH]; simpl.
  - apply Hf.
  - constructor.
  - constructor. exact IH.
Qed.

Lemma read_only_lift {A : Type} (r : result A) : read_only (lift r).
Proof. destruct r; constructor. Qed.

Lemma read_only_query_ret (sql : string) (params : list value) :
  read_only (_query sql params).
Proof. constructor. intros rows. constructor. Qed.

Lemma read_only_cell (i : nat) (r : row) : read_only (cell i r).
Proof. unfold cell. destruct (r !! i); constructor. Qed.

Lemma read_only_map_prog {A B : Type} (f : A -> prog B) (items : list A) :
  (forall x, read_only (f x)) -> read_only (map_prog f items).
Proof.
  intros Hf. induction items as [|x items IH]; simpl; [constructor|].
  apply read_only_bind; [apply Hf|]. intros y.
  apply read_only_bind; [exact IH|]. intros ys. constructor.
Qed.

Ltac read_only_tac :=
  repeat first
    [ apply read_only_bind; [|intros ?]
    | apply read_only_query_ret
    | apply read_only_lift
    | apply read_only_cell
    | apply read_only_map_prog; intros ?
    | constructor ].

Lemma read_only_get_persons (number : Z) (attrs : list string) :
  read_only (get_persons number attrs).
Proof.
  unfold get_persons. apply read_only_bind.
  - destruct (match index_of "cases" attrs with
              | Some i => delete i attrs
              | None => attrs
              end); read_only_tac.
  - intros returns. destruct (index_of "cases" attrs); read_only_tac.
Qed.

Lemma read_only_get_cases (number : Z) (attrs : list string) :
  read_only (get_cases number attrs).
Proof.
  apply read_only_map_prog. intros attr. unfold get_cases_attr, not_allowed.
  destruct (allowed _ attr); [read_only_tac|].
  destruct (String.eqb attr "persons").
  { apply read_only_bind; [apply read_only_query_ret|]. intros r1.
    apply read_only_bind; [apply read_only_query_ret|]. intros r2.
    destruct (Nat.eqb _ _); read_only_tac. }
  destruct (String.eqb attr "documents"); read_only_tac.
Qed.

Lemma read_only_get_documents (number : Z) (attrs : list string) :
  read_only (get_documents number attrs).
Proof.
  apply read_only_map_prog. intros attr. unfold get_documents_attr, not_allowed.
  destruct (allowed _ attr); [read_only_tac|].
  destruct (String.eqb attr "cases"); read_only_tac.
Qed.

Lemma read_only_py_len (v : value) : read_only (py_len v).
Proof. destruct v; constructor. Qed.

Lemma read_only_py_item (i : nat) (v : value) : read_only (py_item i v).
Proof. unfold py_item. destruct (py_iter v) as [items|]; [destruct (items !! i)|]; constructor. Qed.

Lemma read_only_refreshed (keys : list string) (returned : list value) :
  read_only (DbObj.refreshed keys returned).
Proof.
  unfold DbObj.refreshed. apply read_only_bind; [|intros; constructor].
  apply read_only_map_prog. intros v. unfold DbObj.unwrap_single.
  apply read_only_bind; [apply read_only_py_len|]. intros n.
  destruct (Nat.eqb n 1); [apply read_only_py_item | constructor].
Qed.

(** X17.  [get_persons], [get_cases], [get_documents] and the three
    [update] methods of the record objects make no call of [_execute]
    and no call of [release_edit_lock]: whatever the engine answers,
    every call that they make is a call of [_query]. *)
Theorem getters_never_write :
  (forall number attrs, read_only (get_persons number attrs)) /\
  (forall number attrs, read_only (get_cases number attrs)) /\
  (forall number attrs, read_only (get_documents number attrs)) /\
  (forall o, read_only (DbObj.Person.update o)) /\
  (forall o, read_only (DbObj.Case.update o)) /\
  (forall o, read_only (DbObj.Document.update o)).
Proof.
  split; [exact read_only_get_persons|].
  split; [exact read_only_get_cases|].
  split; [exact read_only_get_documents|].
  split.
  { intros o. apply read_only_bind; [apply read_only_get_persons|]. intros returned.
    apply read_only_bind; [apply read_only_refreshed|]. intros. constructor. }
  split.
  { intros o. apply read_only_bind; [apply read_only_get_cases|]. intros returned.
    apply read_only_bind; [apply read_only_refreshed|]. intros. constructor. }
  intros o. apply read_only_bind; [apply read_only_get_documents|]. intros returned.
  apply read_only_bind; [apply read_only_refreshed|]. intros. constructor.
Qed.

(** *** Running a method against an engine *)

Section engine.
Context {D : Type}.
Variable db_query : string -> list value -> D -> result (list row).
Variable db_execute : string -> list value -> D -> result (option Z * D).
Variable fs_unlink : string -> D -> D.
Local Abbreviation run := (run db_query db_execute fs_unlink).

Lemma run_bind {A B : Type} (p : prog A) (f : A -> prog B) (d : D) :
  run (bind p f) d
  = match run p d with
    | (inl a, d') => run (f a) d'
    | (inr e, d') => (inr e, d')
    end.
Proof.
  revert d. induction p as [a|e|sql params k IH|sql params k IH|path k IH];
    intros d; simpl; try reflexivity.
  - destruct (db_query sql params d); [apply IH | reflexivity].
  - destruct (db_execute sql params d) as [[id d']|]; [apply IH | reflexivity].
  - apply IH.
Qed.

Lemma run_mbind {A B : Type} (p : prog A) (f : A -> prog B) (d : D) :
  run (x ← p; f x) d
  = match run p d with
    | (inl a, d') => run (f a) d'
    | (inr e, d') => (inr e, d')
    end.
Proof. apply run_bind. Qed.

Lemma run_query (sql : string) (params : list value) (d : D) :
  run (_query sql params) d
  = match db_query sql params d with
    | Ok rows => (inl rows, d)
    | Raise e => (inr (Exn e), d)
    end.
Proof. reflexivity. Qed.

Lemma run_map_cells (i : nat) (rows : list row) (cells : list value) (d : D) :
  Forall2 (fun r x => r !! i = Some x) rows cells ->
  run (map_prog (cell i) rows) d = (inl cells, d).
Proof.
  induction 1 as [|r x rows cells Hr _ IH]; [reflexivity|].
  cbn [map_prog]. rewrite run_mbind. unfold cell at 1. rewrite Hr. cbn [Facade.run].
  rewrite run_mbind, IH. reflexivity.
Qed.

Lemma run_map_prog_length {A B : Type} (f : A -> prog B) (items : list A) :
  forall d result d',
    run (map_prog f items) d = (inl result, d') ->
    List.length result = List.length items.
Proof.
  induction items as [|x items IH]; intros d result d' H; cbn [map_prog] in H.
  - by inversion H.
  - rewrite run_mbind in H. destruct (run (f x) d) as [[y|e] d1]; [|discriminate].
    rewrite run_mbind in H.
    destruct (run (map_prog f items) d1) as [[ys|e] d2] eqn:Hys; [|discriminate].
    inversion H; subst. simpl. f_equal. by eapply IH.
Qed.

Lemma index_of_lookup (x : string) (l : list string) :
  forall i, index_of x l = Some i -> l !! i = Some x.
Proof.
  induction l as [|y l IH]; intros i H; simpl in H; [discriminate|].
  destruct (String.eqb_spec y x) as [->|_].
  - by inversion H.
  - destruct (index_of x l) as [j|]; [|discriminate]. inversion H. simpl. by apply IH.
Qed.

Lemma insert_at_lookup {A : Type} (i : nat) (x : A) (l : list A) :
  i <= List.length l -> insert_at i x l !! i = Some x.
Proof.
  intros Hi. unfold insert_at.
  rewrite lookup_app_r by (rewrite length_firstn; lia).
  rewrite length_firstn. by replace (i - i `min` List.length l) with 0 by lia.
Qed.

Lemma delete_insert_at {A : Type} (i : nat) (x : A) (l : list A) :
  i <= List.length l -> delete i (insert_at i x l) = l.
Proof.
  revert l. induction i as [|i IH]; intros l Hi.
  - unfold insert_at. by rewrite take_0, drop_0.
  - destruct l as [|y l]; [simpl in Hi; lia|].
    unfold insert_at in *. simpl. f_equal. apply IH. simpl in Hi. lia.
Qed.

Lemma length_insert_at {A : Type} (i : nat) (x : A) (l : list A) :
  List.length (insert_at i x l) = S (List.length l).
Proof.
  unfold insert_at. rewrite length_app. simpl.
  rewrite length_firstn, length_drop. lia.
Qed.

Lemma length_delete_lookup {A : Type} (i : nat) (x : A) (l : list A) :
  l !! i = Some x -> S (List.length (delete i l)) = List.length l.
Proof.
  revert i. induction l as [|y l IH]; intros [|i] H; simpl in *;
    try discriminate; try reflexivity.
  f_equal. by eapply IH.
Qed.

(** X18.  When ["cases"] is among the attributes asked for, at
    position [i], and the engine answers the two queries, [get_persons]
    returns one value for each attribute, in the order asked: at position
    [i] the one-element tuple of the list of the case numbers, and at the
    other positions the one-element tuples of the cells of the first row. *)
Theorem get_persons_lines_up (number : Z) (attrs : list string) (i : nat)
    (first_row : row) (more_rows case_rows : list row) (cases : list value) (d : D) :
  index_of "cases" attrs = Some i ->
  let columns := delete i attrs in
  (columns <> [] ->
   db_query
     ("SELECT " +:+ Py.join ", " (map (fun attr => "p." +:+ attr) columns)
        +:+ " FROM Persons p WHERE p.nb = " +:+ Py.str_of_int number) [] d
   = Ok (first_row :: more_rows)) ->
  List.length first_row = List.length columns ->
  db_query
    ("SELECT cp.case_nb FROM CasePeople cp WHERE cp.person_nb = "
       +:+ Py.str_of_int number) [] d
  = Ok case_rows ->
  Forall2 (fun r x => r !! 0 = Some x) case_rows cases ->
  exists result,
    run (get_persons number attrs) d = (inl result, d) /\
    List.length result = List.length attrs /\
    attrs !! i = Some "cases" /\
    result !! i = Some (VTuple [VList cases]) /\
    delete i result = map (fun x => VTuple [x]) first_row.
Proof.
  intros Hindex columns Hmain Hlen Hcases Hcells.
  pose proof (index_of_lookup _ _ _ Hindex) as Hi.
  pose proof (length_delete_lookup _ _ _ Hi) as Hlen'. fold columns in Hlen'.
  exists (insert_at i (VTuple [VList cases]) (map (fun x => VTuple [x]) first_row)).
  assert (Hle : i <= List.length (map (fun x => VTuple [x]) first_row)).
  { rewrite length_map, Hlen. apply lookup_lt_Some in Hi. lia. }
  split; [|split; [|split; [exact Hi|split]]].
  - unfold get_persons. rewrite Hindex. fold columns. rewrite run_mbind.
    match goal with
    | |- context [Facade.run _ _ _ ?p d] =>
        assert (Hreturns : run p d = (inl (map (fun x => VTuple [x]) first_row), d))
    end.
    { destruct columns as [|c columns'] eqn:Hc.
      - destruct first_row; [reflexivity | discriminate].
      - rewrite <- Hc in *. rewrite run_mbind, run_query.
        rewrite Hmain by (rewrite Hc; discriminate). reflexivity. }
    rewrite Hreturns, run_mbind, run_query, Hcases.
    rewrite run_mbind, (run_map_cells 0 case_rows cases d Hcells). reflexivity.
  - rewrite length_insert_at, length_map, Hlen. exact Hlen'.
  - by apply insert_at_lookup.
  - by apply delete_insert_at.
Qed.
End engine.
Lemma get_persons_lines_up_witness :
  exists result,
    run one_person take_all no_files
      (get_persons 7 ["first_name"; "cases"; "notes"]) tt = (inl result, tt) /\
    List.length result = 3 /\
    ["first_name"; "cases"; "notes"] !! 1 = Some "cases" /\
    result !! 1 = Some (VTuple [VList [VInt 1; VInt 4]]) /\
    delete 1 result = map (fun x => VTuple [x]) [VStr "Jane"; VStr "met twice"].
Proof.
  apply (get_persons_lines_up one_person take_all no_files 7
           ["first_name"; "cases"; "notes"] 1 [VStr "Jane"; VStr "met twice"] []
           [[VInt 1]; [VInt 4]] [VInt 1; VInt 4] tt);
    [reflexivity | intros _; vm_compute; reflexivity | reflexivity
    | vm_compute; reflexivity | repeat constructor].
Defined.

(** *** A record that is not there *)

Section missing.
Context {D : Type}.
Variable db_query : string -> list value -> D -> result (list row).
Variable db_execute : string -> list value -> D -> result (option Z * D).
Variable fs_unlink : string -> D -> D.
Local Abbreviation run := (run db_query db_execute fs_unlink).

Lemma get_persons_missing (number : Z) (attrs : list string) (d : D) :
  person_columns attrs <> [] ->
  db_query (persons_query number (person_columns attrs)) [] d = Ok [] ->
  run (get_persons number attrs) d = (inr (Exn IndexError), d).
Proof.
  unfold person_columns, persons_query, get_persons. intros Hne Hq.
  rewrite run_mbind.
  destruct (match index_of "cases" attrs with
            | Some i => delete i attrs
            | None => attrs
            end) as [|c columns] eqn:Hc; [done|].
  rewrite run_mbind, run_query, Hq. reflexivity.
Qed.

(** X19.  When the engine has no row for the number, [get_persons]
    (asked for at least one column), [get_cases] and [get_documents] (asked
    for a column first) raise [IndexError] and leave the database as it is;
    so does the first read of a value of a person object that is not in the
    database. *)
Theorem missing_record_raises_index_error (number : Z) (d : D) :
  (forall attrs,
      person_columns attrs <> [] ->
      db_query (persons_query number (person_columns attrs)) [] d = Ok [] ->
      run (get_persons number attrs) d = (inr (Exn IndexError), d)) /\
  (forall attr more,
      allowed ["name"; "description"; "notes"] attr = true ->
      db_query (cases_query number attr) [] d = Ok [] ->
      run (get_cases number (attr :: more)) d = (inr (Exn IndexError), d)) /\
  (forall attr more,
      allowed ["name"; "description"; "notes"; "path"] attr = true ->
      db_query (documents_query number attr) [] d = Ok [] ->
      run (get_documents number (attr :: more)) d = (inr (Exn IndexError), d)) /\
  (let o := DbObj.Person.init number in
   db_query (persons_query number (person_columns (Dict.keys (DbObj._snap_shot o)))) [] d
   = Ok [] ->
   run (DbObj._get_value DbObj.Person.update "first_name" o) d
   = (inr (Exn IndexError), d)).
Proof.
  split; [|split; [|split]].
  - intros attrs Hne Hq. by apply get_persons_missing.
  - intros attr more Ha Hq. unfold get_cases. cbn [map_prog].
    rewrite run_mbind. unfold get_cases_attr. rewrite Ha.
    rewrite run_mbind, run_query. unfold cases_query in Hq. rewrite Hq. reflexivity.
  - intros attr more Ha Hq. unfold get_documents. cbn [map_prog].
    rewrite run_mbind. unfold get_documents_attr. rewrite Ha.
    rewrite run_mbind, run_query. unfold documents_query in Hq. rewrite Hq. reflexivity.
  - intros o Hq. unfold DbObj._get_value.
    rewrite run_mbind. change (run (DbObj.snap "first_name" o) d) with (inl (B:=raised) (VStr ""), d).
    cbv iota. rewrite run_mbind. unfold DbObj.Person.update. rewrite run_mbind.
    rewrite get_persons_missing; [reflexivity | discriminate | exact Hq].
Qed.

End missing.
Lemma missing_record_raises_index_error_witness :
  run one_person take_all no_files (get_persons 8 ["first_name"; "cases"]) tt
  = (inr (Exn IndexError), tt) /\
  run one_person take_all no_files (get_cases 8 ["name"; "persons"]) tt
  = (inr (Exn IndexError), tt).
Proof.
  destruct (missing_record_raises_index_error one_person take_all no_files 8 tt)
    as (Hp & Hc & _).
  split.
  - apply Hp; [discriminate | reflexivity].
  - apply Hc; reflexivity.
Defined.

(** *** The three [update_...] methods *)

Lemma allowed_plain (columns : list string) (key : string) :
  Forall plain columns -> allowed columns key = true -> plain key.
Proof.
  unfold allowed. intros Hall Hkey. apply existsb_exists in Hkey as (c & Hin & Heq).
  apply String.eqb_eq in Heq. subst c. rewrite Forall_forall in Hall.
  apply Hall. by apply list_elem_of_In.
Qed.

Lemma assignments_placeholders (columns : list string) (kwargs : list (string * value)) :
  Forall plain columns -> all_allowed columns kwargs ->
  sum_list (map placeholders (assignments kwargs)) = List.length kwargs.
Proof.
  intros Hcols Hall. unfold assignments. rewrite map_map. apply sum_list_ones.
  eapply Forall_impl; [exact Hall|]. intros [key v] Hkey. simpl in *.
  pose proof (allowed_plain columns key Hcols Hkey) as Hplain. unfold plain in Hplain.
  by rewrite placeholders_append, Hplain.
Qed.

Lemma update_statement_placeholders (table : string) (columns : list string)
    (kwargs : list (string * value)) :
  plain table -> Forall plain columns -> all_allowed columns kwargs -> kwargs <> [] ->
  placeholders (update_statement table kwargs) = List.length kwargs + 1.
Proof.
  intros Ht Hcols Hall Hne. unfold update_statement, plain in *.
  rewrite !placeholders_append, Ht, placeholders_join.
  rewrite (assignments_placeholders columns kwargs Hcols Hall). simpl. lia.
Qed.

Lemma update_persons_loop_columns (number : Z) (columns rest : list (string * value)) :
  all_allowed ["last_name"; "first_name"; "address"; "birth_date"; "contact_info";
               "gender"; "description"; "notes"; "can_be_lawyer"] columns ->
  forall updates params,
    update_persons_loop number (columns ++ rest) updates params
    = update_persons_loop number rest (updates ++ assignments columns)
        (params ++ map snd columns).
Proof.
  induction 1 as [|[key v] columns Hkey _ IH]; intros updates params.
  - by rewrite !app_nil_r.
  - cbn [app update_persons_loop]. cbn [fst] in Hkey. rewrite Hkey.
    rewrite IH. cbn [assignments map fst snd]. by rewrite <- !app_assoc.
Qed.

Lemma update_cases_loop_columns (number : Z) (columns rest : list (string * value)) :
  all_allowed ["name"; "description"; "notes"] columns ->
  forall updates params,
    update_cases_loop number (columns ++ rest) updates params
    = update_cases_loop number rest (updates ++ assignments columns)
        (params ++ map snd columns).
Proof.
  induction 1 as [|[key v] columns Hkey _ IH]; intros updates params.
  - by rewrite !app_nil_r.
  - cbn [app update_cases_loop]. cbn [fst] in Hkey. rewrite Hkey.
    rewrite IH. cbn [assignments map fst snd]. by rewrite <- !app_assoc.
Qed.

Lemma update_documents_loop_columns (number : Z) (columns rest : list (string * value)) :
  all_allowed ["name"; "description"; "notes"; "path"] columns ->
  forall updates params,
    update_documents_loop number (columns ++ rest) updates params
    = update_documents_loop number rest (updates ++ assignments columns)
        (params ++ map snd columns).
Proof.
  induction 1 as [|[key v] columns Hkey _ IH]; intros updates params.
  - by rewrite !app_nil_r.
  - cbn [app update_documents_loop]. cbn [fst] in Hkey. rewrite Hkey.
    rewrite IH. cbn [assignments map fst snd]. by rewrite <- !app_assoc.
Qed.

Lemma run_updates_one (table : string) (number : Z) (kwargs : list (string * value)) :
  kwargs <> [] ->
  run_updates table number (assignments kwargs) (map snd kwargs)
  = (_ ← _execute (update_statement table kwargs) (map snd kwargs ++ [VInt number]) false;
     Ret tt).
Proof. destruct kwargs; [done | reflexivity]. Qed.

(** X20.  When the keys are all columns of the table and there is at
    least one, each of [update_persons], [update_cases] and
    [update_documents] makes exactly one call of [_execute]: the [UPDATE] of
    the table that sets the columns in the order given, with the values in
    that order followed by the number as parameters, as many as the
    statement has placeholders. *)
Theorem columns_are_written_by_one_update (number : Z) (kwargs : list (string * value)) :
  kwargs <> [] ->
  let params := map snd kwargs ++ [VInt number] in
  (all_allowed ["last_name"; "first_name"; "address"; "birth_date"; "contact_info";
                "gender"; "description"; "notes"; "can_be_lawyer"] kwargs ->
   update_persons number kwargs
   = (_ ← _execute (update_statement "Persons" kwargs) params false; Ret tt) /\
   placeholders (update_statement "Persons" kwargs) = List.length params) /\
  (all_allowed ["name"; "description"; "notes"] kwargs ->
   update_cases number kwargs
   = (_ ← _execute (update_statement "Cases" kwargs) params false; Ret tt) /\
   placeholders (update_statement "Cases" kwargs) = List.length params) /\
  (all_allowed ["name"; "description"; "notes"; "path"] kwargs ->
   update_documents number kwargs
   = (_ ← _execute (update_statement "Documents" kwargs) params false; Ret tt) /\
   placeholders (update_statement "Documents" kwargs) = List.length params).
Proof.
  intros Hne params.
  assert (Hlen : List.length params = List.length kwargs + 1).
  { unfold params. rewrite length_app, length_map. reflexivity. }
  split; [|split]; intros Hall; (split;
    [| rewrite Hlen; eapply update_statement_placeholders;
       [reflexivity | | exact Hall | exact Hne]; repeat constructor]).
  - unfold update_persons.
    rewrite <- (app_nil_r kwargs) at 1.
    rewrite update_persons_loop_columns by exact Hall.
    cbn [update_persons_loop app]. by apply run_updates_one.
  - unfold update_cases.
    rewrite <- (app_nil_r kwargs) at 1.
    rewrite update_cases_loop_columns by exact Hall.
    cbn [update_cases_loop app]. by apply run_updates_one.
  - unfold update_documents.
    rewrite <- (app_nil_r kwargs) at 1.
    rewrite update_documents_loop_columns by exact Hall.
    cbn [update_documents_loop app]. by apply run_updates_one.
Qed.

Lemma columns_are_written_by_one_update_witness :
  let kwargs := [("first_name", VStr "Jane"); ("can_be_lawyer", VInt 1)] in
  update_persons 7 kwargs
  = (_ ← _execute "UPDATE Persons SET first_name = ?, can_be_lawyer = ? WHERE nb = ?"
           [VStr "Jane"; VInt 1; VInt 7] false;
     Ret tt) /\
  placeholders (update_statement "Persons" kwargs) = 3.
Proof.
  intros kwargs.
  assert (Hne : kwargs <> []) by discriminate.
  destruct (columns_are_written_by_one_update 7 kwargs Hne) as (Hp & _ & _).
  apply Hp. repeat constructor.
Defined.

(** X21.  At a key ["cases"], [update_persons] calls [_execute] with the
    [DELETE] of the links of the person and then, for each case
    number, with the [INSERT] of a link, before it reads the next key;
    at the first key that is neither a column nor ["cases"] it raises
    [ValueError], and the [UPDATE] of the columns read before is never
    sent.  So the [DELETE] has been sent before [ValueError] is raised
    for a key that comes after ["cases"], before [TypeError] is raised
    for a value of ["cases"] that cannot be iterated, and before the
    error of an [INSERT] that the engine rejects: the method then
    raises what the engine raised, and the database is as the [DELETE]
    left it. *)
Theorem unknown_key_raises_after_links (number : Z) (columns1 columns2 post
    : list (string * value)) (key : string) (v links : value) :
  let columns := ["last_name"; "first_name"; "address"; "birth_date"; "contact_info";
                  "gender"; "description"; "notes"; "can_be_lawyer"] in
  all_allowed columns columns1 -> all_allowed columns columns2 ->
  allowed columns key = false -> key <> "cases" ->
  update_persons number (columns1 ++ (key, v) :: post) = not_allowed key /\
  update_persons number (columns1 ++ ("cases", links) :: columns2 ++ (key, v) :: post)
  = (_ ← _execute "DELETE FROM CasePeople WHERE person_nb = ?" [VInt number] false;
     _ ← for_each_in links
           (fun case_nb =>
              _ ← _execute "INSERT INTO CasePeople (case_nb, person_nb) VALUES (?, ?)"
                    [case_nb; VInt number] false;
              Ret tt);
     not_allowed key) /\
  (py_iter links = None ->
   update_persons number (columns1 ++ ("cases", links) :: post)
   = Execute "DELETE FROM CasePeople WHERE person_nb = ?" [VInt number]
       (fun _ => Throw TypeError)) /\
  (forall (D : Type) (db_query : string -> list value -> D -> result (list row))
      (db_execute : string -> list value -> D -> result (option Z * D))
      (fs_unlink : string -> D -> D) (d d1 : D) (lastrowid : option Z)
      (case_nb : value) (more : list value) (e : exn),
      db_execute "DELETE FROM CasePeople WHERE person_nb = ?" [VInt number] d
      = Ok (lastrowid, d1) ->
      py_iter links = Some (case_nb :: more) ->
      db_execute "INSERT INTO CasePeople (case_nb, person_nb) VALUES (?, ?)"
        [case_nb; VInt number] d1
      = Raise e ->
      run db_query db_execute fs_unlink
        (update_persons number (columns1 ++ ("cases", links) :: post)) d
      = (inr (Exn e), d1)).
Proof.
  intros columns H1 H2 Hkey Hcases.
  assert (Hstop : forall updates params,
            update_persons_loop number ((key, v) :: post) updates params = not_allowed key).
  { intros updates params. cbn [update_persons_loop]. fold columns. rewrite Hkey.
    by destruct (String.eqb_spec key "cases"). }
  unfold update_persons. split; [|split; [|split]].
  - by rewrite update_persons_loop_columns, Hstop.
  - rewrite update_persons_loop_columns by exact H1.
    cbn [update_persons_loop]. change (allowed _ "cases") with false. cbv iota.
    change (String.eqb "cases" "cases") with true. cbv iota.
    rewrite update_persons_loop_columns by exact H2. rewrite Hstop. reflexivity.
  - intros Hiter. rewrite update_persons_loop_columns by exact H1.
    cbn [update_persons_loop]. change (allowed _ "cases") with false. cbv iota.
    change (String.eqb "cases" "cases") with true. cbv iota.
    unfold for_each_in. rewrite Hiter. reflexivity.
  - intros D db_query db_execute fs_unlink d d1 lastrowid case_nb more e Hdelete Hiter
      Hinsert.
    rewrite update_persons_loop_columns by exact H1.
    cbn [update_persons_loop]. change (allowed _ "cases") with false. cbv iota.
    change (String.eqb "cases" "cases") with true. cbv iota.
    unfold for_each_in. rewrite Hiter.
    cbn [for_each mbind prog_bind bind _execute run]. rewrite Hdelete.
    cbn [bind run]. by rewrite Hinsert.
Qed.

Lemma unknown_key_raises_after_links_witness :
  update_persons 7 [("notes", VStr "x"); ("cases", VList [VInt 2]);
                    ("gender", VStr "Other"); ("age", VInt 30)]
  = Execute "DELETE FROM CasePeople WHERE person_nb = ?" [VInt 7]
      (fun _ =>
         Execute "INSERT INTO CasePeople (case_nb, person_nb) VALUES (?, ?)"
           [VInt 2; VInt 7]
           (fun _ => Throw (Exn (ValueError "Attribute age is not allowed")))) /\
  run one_person_links side_is_required no_files_links
    (update_persons 7 [("notes", VStr "x"); ("cases", VList [VInt 2]);
                       ("gender", VStr "Other"); ("age", VInt 30)]) [(2, 7); (4, 7)]%Z
  = (inr (Exn (IntegrityError "NOT NULL constraint failed: CasePeople.side")), []).
Proof.
  destruct (unknown_key_raises_after_links 7 [("notes", VStr "x")]
              [("gender", VStr "Other")] [("age", VInt 30)] "age" (VInt 30)
              (VList [VInt 2]))
    as (_ & H & _ & Hrun);
    [repeat constructor | repeat constructor | reflexivity | discriminate |].
  split; [exact H|].
  exact (Hrun _ one_person_links side_is_required no_files_links [(2, 7); (4, 7)]%Z []
           None (VInt 2) [] _ eq_refl eq_refl eq_refl).
Defined.

(** *** An attribute that is not known *)

Section attributes.
Context {D : Type}.
Variable db_query : string -> list value -> D -> result (list row).
Variable db_execute : string -> list value -> D -> result (option Z * D).
Variable fs_unlink : string -> D -> D.
Local Abbreviation run := (run db_query db_execute fs_unlink).

Lemma run_map_prog_stops {A B : Type} (f : A -> prog B) (pre post : list A) (x : A)
    (e : raised) :
  (forall d, run (f x) d = (inr e, d)) ->
  forall d,
    run (map_prog f (pre ++ x :: post)) d
    = match run (map_prog f pre) d with
      | (inl _, d') => (inr e, d')
      | (inr e', d') => (inr e', d')
      end.
Proof.
  intros Hx. induction pre as [|y pre IH]; intros d.
  - cbn [app map_prog]. rewrite run_mbind, Hx. reflexivity.
  - cbn [app map_prog]. rewrite !run_mbind.
    destruct (run (f y) d) as [[b|e'] d1]; [|reflexivity].
    rewrite !run_mbind, IH.
    by destruct (run (map_prog f pre) d1) as [[ys|e'] d2].
Qed.

(** X22.  When [get_cases] or [get_documents] returns, it returns one
    value for each attribute asked for; at an attribute that is not one of
    the method it raises [ValueError] with the name of the attribute, after
    having asked the engine for the attributes before it. *)
Theorem getters_answer_every_attribute (number : Z) (d : D) :
  (forall attrs result d',
      run (get_cases number attrs) d = (inl result, d') ->
      List.length result = List.length attrs) /\
  (forall attrs result d',
      run (get_documents number attrs) d = (inl result, d') ->
      List.length result = List.length attrs) /\
  (forall pre attr post,
      allowed ["name"; "description"; "notes"] attr = false ->
      attr <> "persons" -> attr <> "documents" ->
      run (get_cases number (pre ++ attr :: post)) d
      = match run (get_cases number pre) d with
        | (inl _, d') =>
            (inr (Exn (ValueError ("Attribute " +:+ attr +:+ " is not allowed"))), d')
        | (inr e, d') => (inr e, d')
        end) /\
  (forall pre attr post,
      allowed ["name"; "description"; "notes"; "path"] attr = false ->
      attr <> "cases" ->
      run (get_documents number (pre ++ attr :: post)) d
      = match run (get_documents number pre) d with
        | (inl _, d') =>
            (inr (Exn (ValueError ("Attribute " +:+ attr +:+ " is not allowed"))), d')
        | (inr e, d') => (inr e, d')
        end).
Proof.
  split; [|split; [|split]].
  - intros attrs result d' H. by eapply run_map_prog_length.
  - intros attrs result d' H. by eapply run_map_prog_length.
  - intros pre attr post Ha Hp Hd. apply run_map_prog_stops.
    intros d0. unfold get_cases_attr. rewrite Ha.
    destruct (String.eqb_spec attr "persons"); [done|].
    by destruct (String.eqb_spec attr "documents").
  - intros pre attr post Ha Hc. apply run_map_prog_stops.
    intros d0. unfold get_documents_attr. rewrite Ha.
    by destruct (String.eqb_spec attr "cases").
Qed.
End attributes.

Lemma getters_answer_every_attribute_witness :
  run one_person take_all no_files (get_cases 7 ["name"; "lawyer"; "notes"]) tt
  = (inr (Exn (ValueError "Attribute lawyer is not allowed")), tt).
Proof.
  destruct (getters_answer_every_attribute one_person take_all no_files 7 tt)
    as (_ & _ & H & _).
  exact (H ["name"] "lawyer" ["notes"] eq_refl ltac:(discriminate) ltac:(discriminate)).
Defined.
End records.

(** ** What a deletion writes to the change log *)

Section deletions.
Import Re DatabaseAccess.

Lemma run_leading (r : regex) (p : ascii -> bool) :
  leading r = Some p ->
  forall st k,
    match rest st with
    | String c _ => p c = false
    | EmptyString => True
    end ->
    run r st k = None.
Proof.
  induction r as [|q|r1 IH1 r2 IH2|r1 IH1 r2 IH2|greedy body IH|i body IH| |body IH];
    intros Hl st k Hst; simpl in Hl; try discriminate.
  - inversion Hl; subst q. simpl. destruct (rest st) as [|c s]; [reflexivity|].
    by rewrite Hst.
  - simpl. by apply IH1.
  - simpl. by apply IH.
Qed.

Lemma scan_leading_none (r : regex) (p : ascii -> bool) (input : string) (scan_start : nat)
    (must_advance : bool) (s : string) :
  leading r = Some p ->
  (forall c, Py.contains_char c s = true -> p c = false) ->
  forall pos, scan r input scan_start must_advance pos s = None.
Proof.
  intros Hl. induction s as [|c s IH]; intros Hs pos; simpl.
  - unfold match_here. by rewrite (run_leading r p Hl).
  - unfold match_here. rewrite (run_leading r p Hl).
    + apply IH. intros c' Hc'. apply Hs. simpl. rewrite Hc'. by rewrite orb_true_r.
    + simpl. apply Hs. simpl. by rewrite Ascii.eqb_refl.
Qed.

Lemma scan_step (r : regex) (input : string) (scan_start : nat) (must_advance : bool)
    (pos : nat) (c : ascii) (s : string) :
  match_here r input scan_start must_advance pos (String c s) = None ->
  scan r input scan_start must_advance pos (String c s)
  = scan r input scan_start must_advance (S pos) s.
Proof. intros H. simpl. by rewrite H. Qed.

Lemma scan_found (r : regex) (input : string) (scan_start : nat) (must_advance : bool)
    (pos : nat) (s : string) (m : rmatch) :
  match_here r input scan_start must_advance pos s = Some m ->
  scan r input scan_start must_advance pos s = Some m.
Proof. intros H. destruct s; simpl; by rewrite H. Qed.

Lemma numeric_uint (d : Decimal.uint) : numeric (NilEmpty.string_of_uint d) = true.
Proof. induction d; simpl; try reflexivity; exact IHd. Qed.

Lemma numeric_str_of_int (z : Z) : numeric (Py.str_of_int z) = true.
Proof.
  unfold Py.str_of_int, NilZero.string_of_int, NilZero.string_of_uint.
  destruct (Z.to_int z) as [d|d]; destruct d;
    solve [reflexivity | exact (numeric_uint (Decimal.D0 d))
          | exact (numeric_uint (Decimal.D1 d)) | exact (numeric_uint (Decimal.D2 d))
          | exact (numeric_uint (Decimal.D3 d)) | exact (numeric_uint (Decimal.D4 d))
          | exact (numeric_uint (Decimal.D5 d)) | exact (numeric_uint (Decimal.D6 d))
          | exact (numeric_uint (Decimal.D7 d)) | exact (numeric_uint (Decimal.D8 d))
          | exact (numeric_uint (Decimal.D9 d)) ].
Qed.

Lemma numeric_no_letter (p : ascii -> bool) (s : string) :
  (forall c, (Py.isdigit c || Ascii.eqb c "-") = true -> p c = false) ->
  numeric s = true ->
  forall c, Py.contains_char c s = true -> p c = false.
Proof.
  intros Hp. induction s as [|c' s IH]; intros Hn c Hc; simpl in *; [discriminate|].
  apply andb_prop in Hn as [Hc' Hn].
  apply orb_prop in Hc as [Heq|Hc]; [|by apply IH].
  apply Ascii.eqb_eq in Heq. subst c'. by apply Hp.
Qed.

Lemma letter_not_numeric (letter : ascii) :
  (Py.isdigit (Py.lower_char letter) || Ascii.eqb (Py.lower_char letter) "-") = false ->
  forall c, (Py.isdigit c || Ascii.eqb c "-") = true ->
            Ascii.eqb (Py.lower_char c) (Py.lower_char letter) = false.
Proof.
  intros Hletter c Hc.
  destruct (Ascii.eqb_spec (Py.lower_char c) (Py.lower_char letter)) as [Heq|]; [|done].
  rewrite <- Heq in Hletter.
  assert (Hlow : Py.lower_char c = c).
  { destruct c as [[] [] [] [] [] [] [] []]; vm_compute in Hc; try discriminate;
      reflexivity. }
  rewrite Hlow in Hletter. congruence.
Qed.

(** The pattern is not found: it fails on every character of the
    text of the statement, and the number has no letter. *)
Ltac pattern_absent letter :=
  unfold Re.search; rewrite !append_cons, append_nil_l;
  repeat (rewrite scan_step by (vm_compute; reflexivity));
  eapply scan_leading_none;
  [ reflexivity
  | apply numeric_no_letter;
    [ apply (letter_not_numeric letter); reflexivity | assumption ] ].

Ltac pattern_found :=
  unfold Re.search; rewrite !append_cons, append_nil_l;
  erewrite scan_found by (vm_compute; reflexivity).

Lemma delete_statement_tables (number : string) :
  numeric number = true ->
  _get_affected_tables ("DELETE FROM Persons WHERE nb = " +:+ number) = {[ "Persons" ]} /\
  _get_affected_tables ("DELETE FROM Cases WHERE nb = " +:+ number) = {[ "Cases" ]} /\
  _get_affected_tables ("DELETE FROM Documents WHERE nb = " +:+ number)
  = {[ "Documents" ]}.
Proof.
  intros Hn. unfold _get_affected_tables, add_match. repeat split.
  - replace (Re.search insert_pattern _) with (@None rmatch)
      by (symmetry; pattern_absent "I"%char).
    replace (Re.search update_pattern _) with (@None rmatch)
      by (symmetry; pattern_absent "U"%char).
    pattern_found. vm_compute Py.fmt. by rewrite (right_id_L ∅ (∪)).
  - replace (Re.search insert_pattern _) with (@None rmatch)
      by (symmetry; pattern_absent "I"%char).
    replace (Re.search update_pattern _) with (@None rmatch)
      by (symmetry; pattern_absent "U"%char).
    pattern_found. vm_compute Py.fmt. by rewrite (right_id_L ∅ (∪)).
  - replace (Re.search insert_pattern _) with (@None rmatch)
      by (symmetry; pattern_absent "I"%char).
    replace (Re.search update_pattern _) with (@None rmatch)
      by (symmetry; pattern_absent "U"%char).
    pattern_found. vm_compute Py.fmt. by rewrite (right_id_L ∅ (∪)).
Qed.

(** X23.  For every number, [delete_person], [delete_case] and
    [delete_document] make one call of [_execute], with a statement that
    [_get_affected_tables] and the change log classify as a change of the
    persons, of the cases and of the documents. *)
Theorem deletions_mark_their_tab (number : Z) :
  (exists sql,
      Facade.delete_person number
      = (_ ← Facade._execute sql [] false; Facade.Ret tt) /\
      markers_of (_get_affected_tables sql) = persons_marker) /\
  (exists sql,
      Facade.delete_case number
      = (_ ← Facade._execute sql [] false; Facade.Ret tt) /\
      markers_of (_get_affected_tables sql) = cases_marker) /\
  (exists sql,
      Facade.delete_document number
      = (_ ← Facade._execute sql [] false; Facade.Ret tt) /\
      markers_of (_get_affected_tables sql) = documents_marker).
Proof.
  destruct (delete_statement_tables _ (numeric_str_of_int number)) as (Hp & Hc & Hd).
  split; [|split]; eexists; (split; [reflexivity|]).
  - rewrite Hp. vm_compute. reflexivity.
  - rewrite Hc. vm_compute. reflexivity.
  - rewrite Hd. vm_compute. reflexivity.
Qed.
End deletions.

(** ** The record objects *)

Section objects.
Import Facade DbObj DatabaseAccess.

Lemma strings_of_chars (l : list ascii) :
  strings_of (map (fun c => VStr (String c "")) l)
  = Some (map (fun c => String c "") l).
Proof. induction l as [|c l IH]; [reflexivity|]. simpl. by rewrite IH. Qed.

(** X24.  When the notes of the snapshot can be joined,
    [Person.finalize_edit] removes the lock file of the person and
    then sends one [UPDATE] of the nine columns, in the order of the
    snapshot and without ["cases"], whose placeholders are as many as its
    parameters and which the change log classifies as a change of the
    persons; the object ends outside edit mode and without the lock.  The
    notes are joined with line feeds once more: notes that are a string are
    saved with a line feed between every two characters. *)
Theorem person_edit_is_saved_by_one_update (number : Z)
    (first_name last_name address birth_date contact_info gender description notes
       can_be_lawyer cases : value)
    (edit_mode lock_acquired : bool) (joined : string) :
  let snap_shot := person_snap_shot first_name last_name address birth_date contact_info
                     gender description notes can_be_lawyer cases in
  let o := Obj number "Persons" ["cases"] snap_shot edit_mode lock_acquired in
  let sql := "UPDATE Persons SET first_name = ?, last_name = ?, address = ?, birth_date = ?, contact_info = ?, gender = ?, description = ?, notes = ?, can_be_lawyer = ? WHERE nb = ?" in
  py_join line_feed notes = Ret joined ->
  Person.finalize_edit o
  = Unlink ("./edit_locks/edit_lock_Persons_" +:+ Py.str_of_int number +:+ ".lock")
      (Execute sql
         [ first_name; last_name; address; birth_date; contact_info; gender;
           description; VStr joined; can_be_lawyer; VInt number ]
         (fun _ => Ret (Obj number "Persons" ["cases"] snap_shot false false))) /\
  placeholders sql = 10 /\
  markers_of (_get_affected_tables sql) = persons_marker /\
  (forall s,
      notes = VStr s ->
      joined = Py.join line_feed (map (fun c => String c "") (list_ascii_of_string s))).
Proof.
  intros snap_shot o sql Hjoin. split; [|split; [|split]].
  - assert (Hcopy : forall e l,
               snap_copy (Obj number "Persons" ["cases"] snap_shot e l)
               = Ret (Dict.set "notes" (VStr joined) (removelast snap_shot))).
    { intros e l. unfold snap_copy. cbn [_excludes _snap_shot].
      change (del_all ["cases"] snap_shot)
        with (Ok (A:=Dict.dict string value) (removelast snap_shot)).
      cbn [mbind prog_bind lift bind].
      change (SearchEngine.subscript id (removelast snap_shot) "notes")
        with (Ok (A:=value) notes).
      cbn [mbind prog_bind lift bind].
      unfold line_feed in Hjoin. rewrite Hjoin. reflexivity. }
    unfold Person.finalize_edit, finalize_with, release_edit_lock, lock_file_path.
    cbn [nb _table _excludes _snap_shot o].
    rewrite Hcopy.
    cbn [mbind prog_bind lift bind].
    reflexivity.
  - reflexivity.
  - vm_compute. reflexivity.
  - intros s ->. unfold py_join in Hjoin. cbn [py_iter] in Hjoin.
    rewrite strings_of_chars in Hjoin. by inversion Hjoin.
Qed.

Lemma person_edit_is_saved_by_one_update_witness :
  exists o',
    Person.finalize_edit
      (Obj 7 "Persons" ["cases"]
         (person_snap_shot (VStr "Jane") (VStr "Doe") (VStr "") (VStr "") (VStr "")
            (VStr "Other") (VStr "") (VStr "ab") (VInt 0) (VList []))
         true true)
    = Unlink "./edit_locks/edit_lock_Persons_7.lock"
        (Execute "UPDATE Persons SET first_name = ?, last_name = ?, address = ?, birth_date = ?, contact_info = ?, gender = ?, description = ?, notes = ?, can_be_lawyer = ? WHERE nb = ?"
           [ VStr "Jane"; VStr "Doe"; VStr ""; VStr ""; VStr ""; VStr "Other"; VStr "";
             VStr ("a" +:+ line_feed +:+ "b"); VInt 0; VInt 7 ]
           (fun _ => Ret o')).
Proof.
  eexists.
  destruct (person_edit_is_saved_by_one_update 7 (VStr "Jane") (VStr "Doe") (VStr "")
              (VStr "") (VStr "") (VStr "Other") (VStr "") (VStr "ab") (VInt 0) (VList [])
              true true ("a" +:+ line_feed +:+ "b") eq_refl) as [H _].
  exact H.
Defined.

(** *** Editing and reading a value *)

Lemma snap_set (key : string) (v : value) (o : obj) :
  snap key (set_snap_shot (Dict.set key v (_snap_shot o)) o) = Ret v.
Proof.
  unfold snap, set_snap_shot, SearchEngine.subscript. cbn [_snap_shot].
  rewrite dict_get_set. by destruct (decide (key = key)).
Qed.

(** X25.  In edit mode [_edit_value] stores the value under the key and
    leaves the other keys as they are, and [_get_value] then returns the
    value without asking the database, unless the value is the empty
    string: then [_get_value] refreshes the object from the database first
    and returns what the refreshed snapshot holds. *)
Theorem edited_value_is_read_back (update : obj -> prog obj) (key : string) (v : value)
    (o : obj) :
  let o' := set_snap_shot (Dict.set key v (_snap_shot o)) o in
  _edit_mode_engaged o = true ->
  _edit_value key v o = Ok o' /\
  (v <> VStr "" -> _get_value update key o' = Ret (v, o')) /\
  (v = VStr "" ->
   _get_value update key o' = (o'' ← update o'; v' ← snap key o''; Ret (v', o''))) /\
  (forall k, k <> key -> Dict.get k (_snap_shot o') = Dict.get k (_snap_shot o)).
Proof.
  intros o' Hmode.
  assert (Hsnap : snap key o' = Ret v) by apply snap_set.
  split; [|split; [|split]].
  - unfold _edit_value. by rewrite Hmode.
  - intros Hv. unfold _get_value. rewrite Hsnap.
    cbn [mbind prog_bind bind].
    assert (Hkeep : match v with
                    | VStr "" => update o'
                    | _ => Ret o'
                    end = Ret o').
    { destruct v as [|z|s|items|items]; try reflexivity. by destruct s. }
    rewrite Hkeep. cbn [mbind prog_bind bind]. rewrite Hsnap. reflexivity.
  - intros Hv. unfold _get_value. rewrite Hsnap. rewrite Hv. reflexivity.
  - intros k Hk. unfold o', set_snap_shot. cbn [_snap_shot].
    rewrite dict_get_set. by destruct (decide (k = key)).
Qed.

Lemma edited_value_is_read_back_witness :
  let o := Obj 7 "Persons" ["cases"]
             (person_snap_shot (VStr "Jane") (VStr "Doe") (VStr "") (VStr "") (VStr "")
                (VStr "Other") (VStr "") (VList []) (VInt 0) (VList []))
             true false in
  exists o',
    _edit_value "address" (VStr "Main Street 1") o = Ok o' /\
    _get_value Person.update "address" o' = Ret (VStr "Main Street 1", o').
Proof.
  intros o.
  destruct (edited_value_is_read_back Person.update "address" (VStr "Main Street 1") o
              eq_refl) as (Hedit & Hget & _).
  eexists. split; [exact Hedit | apply Hget; discriminate].
Defined.
End objects.

(** *** A case with one person *)

Section one_person_case.
Import Facade DbObj.
Context {D : Type}.
Variable db_query : string -> list value -> D -> result (list row).
Variable db_execute : string -> list value -> D -> result (option Z * D).
Variable fs_unlink : string -> D -> D.
Local Abbreviation run := (Facade.run db_query db_execute fs_unlink).

Lemma run_ret {A : Type} (a : A) (d : D) : run (Ret a) d = (inl a, d).
Proof. reflexivity. Qed.

Lemma run_column (number : Z) (attr : string) (x : value) (d : D) :
  allowed ["name"; "description"; "notes"] attr = true ->
  db_query (cases_query number attr) [] d = Ok [[x]] ->
  run (get_cases_attr number attr) d = (inl (VTuple [x]), d).
Proof.
  intros Ha Hq. unfold get_cases_attr. rewrite Ha.
  rewrite run_mbind, run_query. unfold cases_query in Hq. rewrite Hq. reflexivity.
Qed.

Lemma run_map_prog_all {A B : Type} (f : A -> prog B) (items : list A) (ys : list B)
    (d : D) :
  Forall2 (fun x y => run (f x) d = (inl y, d)) items ys ->
  run (map_prog f items) d = (inl ys, d).
Proof.
  induction 1 as [|x y items ys Hx _ IH]; [reflexivity|].
  cbn [map_prog]. rewrite run_mbind, Hx, run_mbind, IH. reflexivity.
Qed.

Lemma unwrap_single_one (x : value) : unwrap_single (VTuple [x]) = Ret x.
Proof. reflexivity. Qed.

Lemma unwrap_single_other (items : list value) :
  List.length items <> 1 -> unwrap_single (VTuple items) = Ret (VTuple items).
Proof.
  intros Hlen. unfold unwrap_single. cbn [py_len mbind prog_bind bind].
  by destruct (Nat.eqb_spec (List.length items) 1).
Qed.

(** X26.  A case that has exactly one person cannot be saved after a
    refresh.  When the engine has the case, with one person and with a
    number of documents other than one, [Case.update] stores the one
    triple itself as ["persons"], not a tuple that holds it; and when
    the notes can be joined, [Case.finalize_edit] on that snapshot
    removes the lock file, deletes the links of the case to its persons
    and raises [TypeError]: the [UPDATE] of the columns is never sent. *)
Theorem case_with_one_person_is_not_saved (number person lawyer side : Z)
    (name description notes : value) (documents : list value) (rows : list row)
    (joined : string) (d : D) :
  let persons := VTuple [VInt person; VInt lawyer; VInt side] in
  let snap_shot := case_snap_shot name description notes persons (VTuple documents) in
  db_query (cases_query number "name") [] d = Ok [[name]] ->
  db_query (cases_query number "description") [] d = Ok [[description]] ->
  db_query (cases_query number "notes") [] d = Ok [[notes]] ->
  db_query ("SELECT cp.person_nb FROM CasePeople cp WHERE cp.case_nb = "
              +:+ Py.str_of_int number) [] d = Ok [[VInt person]] ->
  db_query ("SELECT cp.lawyer_nb, cp.side FROM CasePeople cp WHERE cp.case_nb = "
              +:+ Py.str_of_int number) [] d = Ok [[VInt lawyer; VInt side]] ->
  db_query ("SELECT cd.document_nb FROM CaseDocuments cd WHERE cd.case_nb = "
              +:+ Py.str_of_int number) [] d = Ok rows ->
  Forall2 (fun r x => r !! 0 = Some x) rows documents ->
  List.length documents <> 1 ->
  py_join line_feed notes = Ret joined ->
  run (Case.update (Case.init number)) d
  = (inl (Obj number "Cases" [] snap_shot false false), d) /\
  Case.finalize_edit (Obj number "Cases" [] snap_shot false false)
  = Unlink ("./edit_locks/edit_lock_Cases_" +:+ Py.str_of_int number +:+ ".lock")
      (Execute "DELETE FROM CasePeople WHERE case_nb = ?" [VInt number]
         (fun _ => Throw TypeError)).
Proof.
  intros persons snap_shot Hname Hdescription Hnotes Hq1 Hq2 Hq3 Hcells Hlen Hjoin.
  split.
  - unfold Case.update. rewrite run_mbind.
    change (Dict.keys (_snap_shot (Case.init number)))
      with ["name"; "description"; "notes"; "persons"; "documents"].
    change (nb (Case.init number)) with number.
    unfold get_cases.
    rewrite (run_map_prog_all _ _
               [VTuple [name]; VTuple [description]; VTuple [notes];
                VTuple [persons]; VTuple documents]).
    + rewrite run_mbind. unfold refreshed. rewrite run_mbind.
      cbn [List.length list.take map_prog].
      rewrite !unwrap_single_one, (unwrap_single_other documents Hlen).
      reflexivity.
    + repeat match goal with |- Forall2 _ _ _ => constructor end.
      * by apply run_column.
      * by apply run_column.
      * by apply run_column.
      * unfold get_cases_attr.
        cbn [allowed existsb String.eqb Ascii.eqb Bool.eqb orb andb].
        rewrite run_mbind, run_query, Hq1, run_mbind, run_query, Hq2.
        reflexivity.
      * unfold get_cases_attr.
        cbn [allowed existsb String.eqb Ascii.eqb Bool.eqb orb andb].
        rewrite run_mbind, run_query, Hq3, run_mbind.
        by rewrite (run_map_cells _ _ _ 0 rows documents d Hcells).
  - assert (Hcopy : snap_copy (Obj number "Cases" [] snap_shot false false)
                    = Ret (Dict.set "notes" (VStr joined) snap_shot)).
    { unfold snap_copy. cbn [_excludes _snap_shot del_all lift mbind prog_bind bind].
      change (SearchEngine.subscript id snap_shot "notes") with (Ok (A:=value) notes).
      cbn [mbind prog_bind lift bind].
      unfold line_feed in Hjoin. rewrite Hjoin. reflexivity. }
    unfold Case.finalize_edit, finalize_with, release_edit_lock, lock_file_path.
    cbn [nb _table _excludes _snap_shot _edit_lock_acquired].
    rewrite Hcopy.
    cbn [mbind prog_bind lift bind].
    reflexivity.
Qed.
End one_person_case.

Lemma case_with_one_person_is_not_saved_witness :
  let d := tt in
  Facade.run one_case take_all no_files (DbObj.Case.update (DbObj.Case.init 3)) d
  = (inl (DbObj.Obj 3 "Cases" []
            (case_snap_shot (Facade.VStr "Estate") (Facade.VStr "") (Facade.VStr "")
               (Facade.VTuple [Facade.VInt 7; Facade.VInt 9; Facade.VInt 1])
               (Facade.VTuple []))
            false false), d) /\
  DbObj.Case.finalize_edit
    (DbObj.Obj 3 "Cases" []
       (case_snap_shot (Facade.VStr "Estate") (Facade.VStr "") (Facade.VStr "")
          (Facade.VTuple [Facade.VInt 7; Facade.VInt 9; Facade.VInt 1])
          (Facade.VTuple []))
       false false)
  = Facade.Unlink "./edit_locks/edit_lock_Cases_3.lock"
      (Facade.Execute "DELETE FROM CasePeople WHERE case_nb = ?" [Facade.VInt 3]
         (fun _ => Facade.Throw Facade.TypeError)).
Proof.
  intros d.
  apply (case_with_one_person_is_not_saved one_case take_all no_files 3 7 9 1
           (Facade.VStr "Estate") (Facade.VStr "") (Facade.VStr "") [] [] "" d);
    try reflexivity; [constructor | discriminate].
Defined.

(** ** The refresh of the window *)

Section refresh.
Import Gui.
Context {K V : Type} `{EqDecision K}.
Variable update : V -> result V.
Implicit Types (d : Dict.dict K V) (k : K).

Lemma dict_get_absent k d : k ∉ Dict.keys d -> Dict.get k d = None.
Proof.
  induction d as [|[k' v'] d IH]; intros Hk; simpl; [reflexivity|].
  unfold Dict.keys in Hk. simpl in Hk. apply not_elem_of_cons in Hk as [Hne Hk].
  destruct (decide (k = k')); [congruence|]. by apply IH.
Qed.

Lemma dict_get_present k d v : Dict.get k d = Some v -> k ∈ Dict.keys d.
Proof.
  induction d as [|[k' v'] d IH]; simpl; [discriminate|].
  destruct (decide (k = k')) as [->|Hne]; intros Hget.
  - apply elem_of_cons. by left.
  - apply elem_of_cons. right. by apply IH.
Qed.

Lemma dict_get_kept k (original new_data : Dict.dict K V) :
  Dict.get k (filter (fun kv => negb (absent new_data (fst kv))) original)
  = if absent new_data k then None else Dict.get k original.
Proof.
  unfold Dict.dict in *.
  induction original as [|[k' v'] original IH].
  - rewrite filter_nil. simpl. by destruct (absent new_data k).
  - destruct (absent new_data k') eqn:Hk'.
    + rewrite filter_cons_False by (simpl; rewrite Hk'; exact id).
      rewrite IH. simpl. destruct (decide (k = k')) as [->|Hne]; [by rewrite Hk'|reflexivity].
    + rewrite filter_cons_True by (simpl; by rewrite Hk').
      simpl. destruct (decide (k = k')) as [->|Hne]; [by rewrite Hk'|exact IH].
Qed.

Lemma refresh_items_spec (items : list (K * V)) :
  NoDup (Dict.keys items) ->
  forall state,
    (forall k o,
        k ∈ Dict.keys items -> Dict.get k state = Some o -> exists o', update o = Ok o') ->
    exists d',
      refresh_items update items state = Ok d' /\
      forall k,
        Dict.get k d'
        = match Dict.get k items with
          | None => Dict.get k state
          | Some v =>
              match Dict.get k state with
              | Some o => refreshed_value update o
              | None => Some v
              end
          end.
Proof.
  induction items as [|[key v] items IH]; intros Hnodup state Hrefresh.
  - exists state. split; reflexivity.
  - unfold Dict.keys in Hnodup. simpl in Hnodup. apply NoDup_cons in Hnodup as [Hkey Hnodup].
    assert (Hlater : forall o' k o,
               k ∈ Dict.keys items -> Dict.get k (Dict.set key o' state) = Some o ->
               exists o'', update o = Ok o'').
    { intros o' k o Hk Hget. rewrite dict_get_set in Hget.
      destruct (decide (k = key)) as [->|Hne]; [done|].
      apply (Hrefresh k o); [|exact Hget].
      unfold Dict.keys. simpl. apply elem_of_cons. by right. }
    assert (Hstep : forall o' d',
               (forall k,
                   Dict.get k d'
                   = match Dict.get k items with
                     | None => Dict.get k (Dict.set key o' state)
                     | Some v =>
                         match Dict.get k (Dict.set key o' state) with
                         | Some o => refreshed_value update o
                         | None => Some v
                         end
                     end) ->
               forall k,
                 Dict.get k d'
                 = if decide (k = key) then Some o'
                   else match Dict.get k items with
                        | None => Dict.get k state
                        | Some v =>
                            match Dict.get k state with
                            | Some o => refreshed_value update o
                            | None => Some v
                            end
                        end).
    { intros o' d' Hd' k. rewrite Hd', dict_get_set.
      destruct (decide (k = key)) as [->|Hne]; [|reflexivity].
      by rewrite (dict_get_absent key items Hkey). }
    cbn [refresh_items].
    destruct (Dict.get key state) as [o|] eqn:Hstate.
    + destruct (Hrefresh key o) as [o' Ho']; [apply elem_of_cons; by left | exact Hstate |].
      rewrite Ho'. cbn [mbind result_bind].
      destruct (IH Hnodup (Dict.set key o' state) (Hlater o')) as (d' & Hrun & Hd').
      exists d'. split; [exact Hrun|]. intros k. rewrite (Hstep o' d' Hd' k). simpl.
      destruct (decide (k = key)) as [->|Hne]; [|reflexivity].
      rewrite Hstate. unfold refreshed_value. by rewrite Ho'.
    + destruct (IH Hnodup (Dict.set key v state) (Hlater v)) as (d' & Hrun & Hd').
      exists d'. split; [exact Hrun|]. intros k. rewrite (Hstep v d' Hd' k). simpl.
      destruct (decide (k = key)) as [->|Hne]; [|reflexivity].
      by rewrite Hstate.
Qed.

(** X27.  When the refresh of every object that stays succeeds,
    [update_dict_if_absent] succeeds, and afterwards the dictionary of the
    window holds exactly the keys of the new data: under a key that it held
    before, the object it held, refreshed; under a key that it did not hold,
    the new object. *)
Theorem refresh_follows_the_database (original new_data : Dict.dict K V) :
  NoDup (Dict.keys new_data) ->
  (forall k o,
      k ∈ Dict.keys new_data -> Dict.get k original = Some o ->
      exists o', update o = Ok o') ->
  exists d',
    update_dict_if_absent update original new_data = Ok d' /\
    forall k,
      Dict.get k d'
      = match Dict.get k new_data with
        | None => None
        | Some v =>
            match Dict.get k original with
            | Some o => refreshed_value update o
            | None => Some v
            end
        end.
Proof.
  intros Hnodup Hrefresh. unfold update_dict_if_absent.
  set (kept := filter (fun kv => negb (absent new_data (fst kv))) original).
  assert (Hkept : forall k,
             Dict.get k kept = if absent new_data k then None else Dict.get k original)
    by (intros k; apply dict_get_kept).
  destruct (refresh_items_spec new_data Hnodup kept) as (d' & Hrun & Hd').
  { intros k o Hk Hget. rewrite Hkept in Hget.
    destruct (absent new_data k); [discriminate|]. by apply (Hrefresh k o). }
  exists d'. split; [exact Hrun|]. intros k. rewrite Hd', Hkept. unfold absent.
  by destruct (Dict.get k new_data).
Qed.
End refresh.

Lemma refresh_follows_the_database_witness :
  exists d',
    Gui.update_dict_if_absent (fun o : nat => Ok (S o)) [(1, 10); (2, 20)] [(2, 0); (3, 0)]
    = Ok d' /\
    Dict.get 1 d' = None /\ Dict.get 2 d' = Some 21 /\ Dict.get 3 d' = Some 0.
Proof.
  destruct (refresh_follows_the_database (fun o : nat => Ok (S o))
              [(1, 10); (2, 20)] [(2, 0); (3, 0)]) as (d' & Hrun & Hd').
  - apply (bool_decide_unpack _). vm_compute. reflexivity.
  - intros k o _ _. by exists (S o).
  - exists d'. split; [exact Hrun|].
    split; [|split]; rewrite Hd'; reflexivity.
Defined.

(** ** C7: a change of a person in the change log *)

Section person_changes.
Import Re Locks DatabaseAccess DataNotifier.

(** *** The statements of the facade are classified as changes of the persons *)

Lemma scan_skip (r : regex) (input : string) (scan_start : nat) (must_advance : bool)
    (pos : nat) (c : ascii) (s : string) :
  match_here r input scan_start must_advance pos (String c s) = None ->
  (forall pos', scan r input scan_start must_advance pos' s = None) ->
  scan r input scan_start must_advance pos (String c s) = None.
Proof. intros Hhere Hs. simpl. by rewrite Hhere. Qed.

(** The pattern fails on the characters of a text that is known, and
    is not found in what follows. *)
Ltac skip_known :=
  rewrite ?append_cons, ?append_nil_l;
  repeat (apply scan_skip; [vm_compute; reflexivity | intros ?]).

Lemma column_of_person (key : string) :
  Facade.allowed person_columns_written key = true ->
  In key person_columns_written.
Proof.
  unfold Facade.allowed. intros H. apply existsb_exists in H as (c & Hin & Heq).
  apply String.eqb_eq in Heq. by subst.
Qed.

Lemma absent_in_assignment (r : regex) (input : string) (scan_start : nat)
    (must_advance : bool) (key : string) (rest : string) :
  r = insert_pattern \/ r = delete_pattern ->
  Facade.allowed person_columns_written key = true ->
  (forall pos, scan r input scan_start must_advance pos rest = None) ->
  forall pos, scan r input scan_start must_advance pos ((key +:+ " = ?") +:+ rest) = None.
Proof.
  intros Hr Hkey Hrest pos. apply column_of_person in Hkey.
  unfold person_columns_written in Hkey. simpl in Hkey.
  destruct Hr as [-> | ->];
    repeat (destruct Hkey as [<-|Hkey]; [skip_known; by apply Hrest|]);
    destruct Hkey.
Qed.

Lemma absent_in_assignments (r : regex) (input : string) (scan_start : nat)
    (must_advance : bool) (kwargs : list (string * Facade.value)) (rest : string) :
  r = insert_pattern \/ r = delete_pattern ->
  all_allowed person_columns_written kwargs ->
  (forall pos, scan r input scan_start must_advance pos rest = None) ->
  forall pos,
    scan r input scan_start must_advance pos (Py.join ", " (assignments kwargs) +:+ rest)
    = None.
Proof.
  intros Hr Hall Hrest.
  induction Hall as [|[key v] kwargs Hkey Hall IH]; intros pos.
  - simpl. apply Hrest.
  - cbn [fst] in Hkey. destruct kwargs as [|kv kwargs].
    + simpl. by apply absent_in_assignment.
    + change (Py.join ", " (assignments ((key, v) :: kv :: kwargs)))
        with ((key +:+ " = ?") +:+ ", " +:+ Py.join ", " (assignments (kv :: kwargs))).
      rewrite append_assoc. apply absent_in_assignment; [exact Hr | exact Hkey |].
      intros pos'. rewrite append_assoc.
      destruct Hr as [-> | ->]; skip_known; apply IH.
Qed.

Lemma update_statement_tables (kwargs : list (string * Facade.value)) :
  all_allowed person_columns_written kwargs ->
  _get_affected_tables (update_statement "Persons" kwargs) = {[ "Persons" ]}.
Proof.
  intros Hall. unfold _get_affected_tables, add_match, update_statement.
  assert (Habsent : forall r,
             r = insert_pattern \/ r = delete_pattern ->
             Re.search r ("UPDATE " +:+ "Persons" +:+ " SET "
                            +:+ Py.join ", " (assignments kwargs) +:+ " WHERE nb = ?")
             = None).
  { intros r Hr. unfold Re.search.
    destruct Hr as [-> | ->]; skip_known;
      (apply absent_in_assignments; [auto | exact Hall |]);
      intros; vm_compute; reflexivity. }
  rewrite (Habsent insert_pattern) by auto.
  rewrite (Habsent delete_pattern) by auto.
  unfold Re.search. rewrite !append_cons, append_nil_l.
  erewrite scan_found by (vm_compute; reflexivity).
  vm_compute Py.fmt. by rewrite (right_id_L ∅ (∪)).
Qed.

Lemma person_statement_tables (sql : string) :
  person_statement sql -> _get_affected_tables sql = {[ "Persons" ]}.
Proof.
  intros [|kwargs _ Hall|number].
  - vm_compute. reflexivity.
  - by apply update_statement_tables.
  - apply (delete_statement_tables _ (numeric_str_of_int number)).
Qed.

(** *** The poll after the change *)

Lemma drop_append_le (k : nat) (a b : string) :
  k <= String.length a -> Py.drop k (a +:+ b) = Py.drop k a +:+ b.
Proof.
  revert k. induction a as [|c a IH]; intros k Hk.
  - simpl in Hk. replace k with 0 by lia. by destruct b.
  - destruct k as [|k]; [reflexivity|]. simpl in Hk. rewrite append_cons. simpl.
    apply IH. lia.
Qed.

Lemma append_marker_not_empty (a : string) : (a +:+ persons_marker =? "")%string = false.
Proof. by destruct a. Qed.

Lemma poll_after_append (n : notifier) (f : fs) (old : string) :
  changes_log f = Some (old +:+ persons_marker) ->
  last_position n <= String.length old ->
  let n1 := Notifier (String.length (old +:+ persons_marker)) in
  poll_for_changes n f
  = (n1, Some (chars (Py.drop (last_position n) old) ∪ {[ Py.chr 10 ]})) /\
  poll_for_changes n1 f = (n1, None).
Proof.
  intros Hlog Hpos n1. unfold poll_for_changes. rewrite Hlog. split.
  - rewrite drop_append_le by exact Hpos. rewrite append_marker_not_empty.
    rewrite chars_append. cbn [chars persons_marker].
    rewrite (right_id_L ∅ (∪)). unfold n1. do 2 f_equal.
    rewrite length_append. change (String.length persons_marker) with 1. lia.
  - cbn [last_position n1]. rewrite drop_length, Nat.max_id. reflexivity.
Qed.

(** C7 (amended).  The statements on the persons that the facade
    sends, the [INSERT] of [add_person], the [UPDATE] of
    [update_persons] for columns of the table and the [DELETE] of
    [delete_person], are classified as changes of the persons and of
    nothing else.  Such a statement, run through [_execute] without
    error by a caller that finds the write marker absent, appends the
    Persons marker, a line feed, and nothing else to the change log.
    A notifier then polls: it emits the markers of the part of the
    log that it had not read, which is the line feed alone when it
    had read the log to its end before the change, and its position
    is the end of the log.  It polls again: it emits nothing and its
    position stays.  When the statement, the commit or the writing
    of the log raises, nothing is appended and a notifier that had
    read the log to its end emits nothing. *)
Theorem persons_change_observed :
  (forall (last_name first_name address birth_date contact_info gender description
             notes : string) (can_be_lawyer : bool),
      exists sql params,
        Facade.add_person last_name first_name address birth_date contact_info gender
          description notes can_be_lawyer
        = Facade._execute sql params true /\
        person_statement sql) /\
  (forall (number : Z) (kwargs : list (string * Facade.value)),
      kwargs <> [] ->
      all_allowed person_columns_written kwargs ->
      exists sql params,
        Facade.update_persons number kwargs
        = (_ ← Facade._execute sql params false; Facade.Ret tt) /\
        person_statement sql) /\
  (forall number : Z,
      exists sql,
        Facade.delete_person number = (_ ← Facade._execute sql [] false; Facade.Ret tt) /\
        person_statement sql) /\
  (forall sql : string,
      person_statement sql ->
      _get_affected_tables sql = {[ "Persons" ]} /\
      markers_of (_get_affected_tables sql) = persons_marker) /\
  (forall (sql : string) (params : list SearchEngine.param) (denied : nat) (f : fs)
      (n : notifier),
      person_statement sql ->
      write_lock f = false ->
      let old := default "" (changes_log f) in
      last_position n <= String.length old ->
      exists f' n1,
        run_alone 5 (OpExecute sql params None denied) Waiting f = (Done Returned, f') /\
        changes_log f' = Some (old +:+ persons_marker) /\
        poll_for_changes n f'
        = (n1, Some (chars (Py.drop (last_position n) old) ∪ {[ Py.chr 10 ]})) /\
        (last_position n = String.length old ->
         poll_for_changes n f' = (n1, Some {[ Py.chr 10 ]})) /\
        last_position n1 = String.length (old +:+ persons_marker) /\
        poll_for_changes n1 f' = (n1, None)) /\
  (forall (sql : string) (params : list SearchEngine.param) (e : exn) (denied : nat)
      (f : fs) (n : notifier),
      write_lock f = false ->
      last_position n = String.length (default "" (changes_log f)) ->
      exists f',
        run_alone 5 (OpExecute sql params (Some e) denied) Waiting f
        = (Done (Raised e), f') /\
        changes_log f' = changes_log f /\
        poll_for_changes n f' = (n, None)).
Proof.
  split.
  { intros. eexists _, _. split; [reflexivity | constructor]. }
  split.
  { intros number kwargs Hne Hall.
    exists (update_statement "Persons" kwargs), (map snd kwargs ++ [Facade.VInt number]).
    split; [|by constructor].
    unfold Facade.update_persons. rewrite <- (app_nil_r kwargs) at 1.
    rewrite update_persons_loop_columns by exact Hall.
    cbn [Facade.update_persons_loop app]. by apply run_updates_one. }
  split.
  { intros number. eexists. split; [reflexivity | constructor]. }
  split.
  { intros sql Hsql. rewrite (person_statement_tables sql Hsql).
    split; [reflexivity | vm_compute; reflexivity]. }
  split.
  { intros sql params denied f n Hsql Hlock old Hpos.
    destruct (run_alone_stages (OpExecute sql params None denied) f Hlock)
      as (_ & _ & _ & Hrun & _).
    eexists _, (Notifier (String.length (old +:+ persons_marker))).
    split; [exact Hrun|].
    assert (Hlog : changes_log
                     (set_write_lock false
                        (fst (body_of (OpExecute sql params None denied)
                                (set_write_lock true f))))
                   = Some (old +:+ persons_marker)).
    { simpl. rewrite log_changes_retries. simpl.
      rewrite (person_statement_tables sql Hsql). reflexivity. }
    destruct (poll_after_append n _ old Hlog Hpos) as [Hfirst Hsecond].
    split; [exact Hlog|]. split; [exact Hfirst|]. split.
    - intros Hend. rewrite Hfirst, Hend, drop_length. simpl.
      by rewrite (left_id_L ∅ (∪)).
    - split; [reflexivity | exact Hsecond]. }
  intros sql params e denied f n Hlock Hpos.
  destruct (run_alone_stages (OpExecute sql params (Some e) denied) f Hlock)
    as (_ & _ & _ & Hrun & _).
  eexists. split; [exact Hrun|]. split; [reflexivity|].
  unfold poll_for_changes. simpl.
  destruct (changes_log f) as [text|]; [|reflexivity].
  simpl in Hpos. rewrite Hpos, drop_length, Nat.max_id. simpl.
  destruct n as [k]. simpl in Hpos. by subst k.
Qed.
End person_changes.

Lemma persons_change_observed_witness :
  let sql := update_statement "Persons" [("first_name", Facade.VStr "Jane")] in
  let f := Locks.Fs false (Some "  ")
             (Some (DatabaseAccess.cases_marker +:+ DatabaseAccess.documents_marker)) in
  let n := DataNotifier.Notifier 2 in
  exists f' n1,
    DatabaseAccess.run_alone 5
      (DatabaseAccess.OpExecute sql [Some "Jane"; Some "3"] None 0) Locks.Waiting f
    = (Locks.Done Locks.Returned, f') /\
    Locks.changes_log f'
    = Some (DatabaseAccess.cases_marker +:+ DatabaseAccess.documents_marker
              +:+ DatabaseAccess.persons_marker) /\
    DataNotifier.poll_for_changes n f' = (n1, Some {[ Py.chr 10 ]}) /\
    DataNotifier.last_position n1 = 3 /\
    DataNotifier.poll_for_changes n1 f' = (n1, None).
Proof.
  intros sql f n.
  destruct persons_change_observed as (_ & _ & _ & _ & Hchange & _).
  destruct (Hchange sql [Some "Jane"; Some "3"] 0 f n) as (f' & n1 & H1 & H2 & _ & H4 & H5 & H6).
  - apply person_updated; [discriminate | repeat constructor].
  - reflexivity.
  - simpl. lia.
  - exists f', n1. split; [exact H1|]. split; [exact H2|].
    split; [by apply H4|]. split; [exact H5 | exact H6].
Defined.

(** C7, as the specification has it, fails.  A notifier as it is built
    starts at the beginning of the log: on a log with a history, its
    poll after a change of a person emits the markers of the history
    with the line feed.  And a statement on [Persons] that ends in a
    semicolon, writes the name of the table in small letters or begins
    with [INSERT OR REPLACE] appends no marker at all. *)
Lemma persons_change_counterexample :
  (let sql := "INSERT INTO Persons (last_name, first_name, address, birth_date, contact_info, gender, description, notes, can_be_lawyer) VALUES (?, ?, ?, ?, ?, ?, ?, ?, ?)" in
   let f := Locks.Fs false None
              (Some (DatabaseAccess.cases_marker +:+ DatabaseAccess.documents_marker)) in
   let f' := Locks.Fs false None
               (Some (DatabaseAccess.cases_marker +:+ DatabaseAccess.documents_marker
                        +:+ DatabaseAccess.persons_marker)) in
   person_statement sql /\
   DatabaseAccess.run_alone 5 (DatabaseAccess.OpExecute sql [] None 0) Locks.Waiting f
   = (Locks.Done Locks.Returned, f') /\
   DataNotifier.poll_for_changes DataNotifier.init f'
   = (DataNotifier.Notifier 3, Some {[ Py.chr 9; " "%char; Py.chr 10 ]})) /\
  DatabaseAccess.markers_of (DatabaseAccess._get_affected_tables "DELETE FROM Persons;") = "" /\
  DatabaseAccess.markers_of
    (DatabaseAccess._get_affected_tables "update persons set notes = ? where nb = ?") = "" /\
  DatabaseAccess.markers_of
    (DatabaseAccess._get_affected_tables
       "INSERT OR REPLACE INTO Persons (nb, last_name) VALUES (?, ?)") = "".
Proof.
  split; [split; [constructor | split; vm_compute; reflexivity]|].
  repeat split; vm_compute; reflexivity.
Qed.
